(** * Eco Ledger carbon-telemetry scenarios: a shallow embedding

    The two ns-3 scenarios [iot-connectivity.cc] (flat topology: sensors,
    one gateway) and [iot-hierarchical.cc] (sensors, zone access points, one
    main gateway) are embedded function by function.  C++ values are modelled
    as the code has them: [uint32_t]/[uint64_t]/[size_t] as [Z] with the
    wrap-around written out, [double] as IEEE-754 binary64 ([spec_float] with
    precision 53), [std::string] and packet payloads as [string] (a list of
    8-bit characters), [std::map] as [gmap].  The C++ library calls the
    scenarios make ([std::string::find], [substr], [std::stoi], [std::stod],
    [std::stoull], [operator<<]) are modelled after their ISO C++ / glibc
    behaviour. *)

From Stdlib Require Import ZArith String Ascii List Bool Lia.
From Stdlib Require Import Floats.SpecFloat.
From Stdlib Require Import Sorting.Permutation.
From stdpp Require Import gmap.

Open Scope string_scope.
Open Scope Z_scope.

Arguments String.append !s1 s2 : simpl nomatch.

(** ** Outcomes of a C++ call *)

Inductive exception : Type :=
| invalid_argument
| out_of_range.

(** [Throw e] is an exception that propagates to the caller; [Undefined] is
    undefined behaviour (an access outside an array). *)
Inductive result (A : Type) : Type :=
| Return (a : A)
| Throw (e : exception)
| Undefined.

Arguments Return {A} a.
Arguments Throw {A} e.
Arguments Undefined {A}.

#[global] Instance result_bind : MBind result := fun A B k r =>
  match r with
  | Return a => k a
  | Throw e => Throw e
  | Undefined => Undefined
  end.

(** ** Machine integers *)

Definition uint32_t (z : Z) : Z := z mod 2 ^ 32.
Definition uint64_t (z : Z) : Z := z mod 2 ^ 64.
Definition size_t (z : Z) : Z := z mod 2 ^ 64.

Definition INT_MIN : Z := - 2 ^ 31.
Definition INT_MAX : Z := 2 ^ 31 - 1.
Definition ULLONG_MAX : Z := 2 ^ 64 - 1.

(** [std::string::npos] *)
Definition npos : Z := 2 ^ 64 - 1.

(** ** IEEE-754 binary64 *)

Abbreviation double := spec_float.

Definition prec : Z := 53.
Definition emax : Z := 1024.

Definition fadd : double -> double -> double := SFadd prec emax.
Definition fmul : double -> double -> double := SFmul prec emax.
Definition fdiv : double -> double -> double := SFdiv prec emax.

(** [x < y] and [x > y] on doubles: false as soon as one side is a NaN. *)
Definition flt (x y : double) : bool := SFltb x y.
Definition fgt (x y : double) : bool := SFltb y x.
Definition fle (x y : double) : bool := SFleb x y.

Definition is_nan (x : double) : bool :=
  match x with
  | S754_nan => true
  | _ => false
  end.

(** Conversion of an integer to [double] (exact below 2^53). *)
Definition double_of_Z (z : Z) : double := binary_normalize prec emax z 0 false.

Definition lit_0 : double := S754_zero false.
Definition lit_50 : double := Eval vm_compute in double_of_Z 50.
Definition lit_m50 : double := Eval vm_compute in double_of_Z (- 50).
Definition lit_100 : double := Eval vm_compute in double_of_Z 100.
Definition lit_300 : double := Eval vm_compute in double_of_Z 300.
Definition lit_400 : double := Eval vm_compute in double_of_Z 400.
Definition lit_3000 : double := Eval vm_compute in double_of_Z 3000.

(** [std::min] and [std::max] as <algorithm> defines them. *)
Definition std_min (a b : double) : double := if flt b a then b else a.
Definition std_max (a b : double) : double := if flt a b then b else a.

(** ** std::string *)

(** [data.find(pat)]: index of the first occurrence, [npos] when absent. *)
Fixpoint find_from (pat s : string) (pos : Z) : Z :=
  if String.prefix pat s then pos
  else match s with
       | EmptyString => npos
       | String _ s' => find_from pat s' (pos + 1)
       end.

Definition find (s pat : string) : Z := find_from pat s 0.

(** [data.substr(pos, len)]: throws when [pos] is past the end; [len] is
    clipped to what is left. *)
Definition substr (s : string) (pos len : Z) : result string :=
  let size := Z.of_nat (String.length s) in
  if size <? pos then Throw out_of_range
  else Return (String.substring (Z.to_nat pos) (Z.to_nat (Z.min len (size - pos))) s).

(** ** Formatted output *)

Definition digit_char (d : Z) : ascii := ascii_of_nat (48 + Z.to_nat d).

Fixpoint put_digits (fuel : nat) (n : Z) (acc : string) : string :=
  match fuel with
  | O => acc
  | S fuel' =>
      let acc' := String (digit_char (n mod 10)) acc in
      if n <? 10 then acc' else put_digits fuel' (n / 10) acc'
  end.

(** [oss << n] for an unsigned integer of at most 64 bits. *)
Definition put_uint (n : Z) : string := put_digits 20 n EmptyString.

(** [oss << x] for a [double] with the stream's default flags: the general
    format of [printf("%g")] with precision 6.  The value [m * 2^e] is taken
    as the exact fraction [num / den]. *)

Definition fraction_of (m : positive) (e : Z) : Z * Z :=
  if 0 <=? e then (Zpos m * 2 ^ e, 1) else (Zpos m, 2 ^ (- e)).

(** [10^k <= num / den] *)
Definition le_pow10 (k num den : Z) : bool :=
  if 0 <=? k then 10 ^ k * den <=? num else den <=? num * 10 ^ (- k).

(** The largest [k' <= k] with [10^k' <= num / den], searched downwards. *)
Fixpoint decimal_exponent (fuel : nat) (k num den : Z) : Z :=
  match fuel with
  | O => k
  | S fuel' =>
      if le_pow10 k num den then k else decimal_exponent fuel' (k - 1) num den
  end.

Definition round_half_even (n d : Z) : Z :=
  let q := n / d in
  match 2 * (n mod d) ?= d with
  | Lt => q
  | Gt => q + 1
  | Eq => if Z.even q then q else q + 1
  end.

(** [num / den / 10^(k - (P - 1))] rounded to an integer: the first [P]
    significant digits. *)
Definition significand (P k num den : Z) : Z :=
  let s := k - (P - 1) in
  if 0 <=? s then round_half_even num (den * 10 ^ s)
  else round_half_even (num * 10 ^ (- s)) den.

Fixpoint strip_zeros (s : string) : string :=
  match s with
  | EmptyString => EmptyString
  | String c s' =>
      match strip_zeros s' with
      | EmptyString => if (c =? "0")%char then EmptyString else String c EmptyString
      | t => String c t
      end
  end.

Definition with_fraction (int frac : string) : string :=
  match strip_zeros frac with
  | EmptyString => int
  | f => int ++ "." ++ f
  end.

Fixpoint zeros (n : nat) : string :=
  match n with
  | O => EmptyString
  | S n' => String "0" (zeros n')
  end.

Definition put_exponent (X : Z) : string :=
  (if X <? 0 then "e-" else "e+") ++
  (if Z.abs X <? 10 then "0" else EmptyString) ++ put_uint (Z.abs X).

Definition put_general (P : Z) (m : positive) (e : Z) : string :=
  let '(num, den) := fraction_of m e in
  let k := decimal_exponent 640 308 num den in
  let D0 := significand P k num den in
  let '(D, X) := if 10 ^ P <=? D0 then (10 ^ (P - 1), k + 1) else (D0, k) in
  let ds := put_uint D in
  if (X <? -4) || (P <=? X) then
    with_fraction (substring 0 1 ds) (substring 1 (Z.to_nat (P - 1)) ds)
    ++ put_exponent X
  else if X <? 0 then
    "0." ++ zeros (Z.to_nat (- X - 1)) ++ strip_zeros ds
  else
    with_fraction (substring 0 (Z.to_nat (X + 1)) ds)
                  (substring (Z.to_nat (X + 1)) (Z.to_nat (P - 1 - X)) ds).

Definition put_sign (s : bool) : string := if s then "-" else EmptyString.

Definition put_double (x : double) : string :=
  match x with
  | S754_nan => "nan"
  | S754_infinity s => put_sign s ++ "inf"
  | S754_zero s => put_sign s ++ "0"
  | S754_finite s m e => put_sign s ++ put_general 6 m e
  end.

(** ** Numeric parsing: strtol, strtoull, strtod and their std:: wrappers *)

Definition code (c : ascii) : Z := Z.of_nat (nat_of_ascii c).

Definition isspace (c : ascii) : bool :=
  (code c =? 32) || ((9 <=? code c) && (code c <=? 13)).

Definition isdigit (c : ascii) : bool := (48 <=? code c) && (code c <=? 57).

Definition digit_value (c : ascii) : Z := code c - 48.

Definition hex_value (c : ascii) : option Z :=
  if isdigit c then Some (digit_value c)
  else if (97 <=? code c) && (code c <=? 102) then Some (code c - 87)
  else if (65 <=? code c) && (code c <=? 70) then Some (code c - 55)
  else None.

Definition tolower (c : ascii) : ascii :=
  if (65 <=? code c) && (code c <=? 90) then ascii_of_nat (nat_of_ascii c + 32) else c.

Fixpoint skip_space (s : string) : string :=
  match s with
  | String c s' => if isspace c then skip_space s' else s
  | EmptyString => EmptyString
  end.

Definition read_sign (s : string) : bool * string :=
  match s with
  | String "-" s' => (true, s')
  | String "+" s' => (false, s')
  | _ => (false, s)
  end.

(** The longest run of decimal digits at the head of [s]: their value
    continued from [acc], how many were read added to [n], and the rest. *)
Fixpoint read_digits (s : string) (acc n : Z) : Z * Z * string :=
  match s with
  | String c s' =>
      if isdigit c then read_digits s' (10 * acc + digit_value c) (n + 1)
      else (acc, n, s)
  | EmptyString => (acc, n, s)
  end.

Fixpoint read_hex (s : string) (acc n : Z) : Z * Z * string :=
  match s with
  | String c s' =>
      match hex_value c with
      | Some d => read_hex s' (16 * acc + d) (n + 1)
      | None => (acc, n, s)
      end
  | EmptyString => (acc, n, s)
  end.

(** Sign and magnitude of the integer at the head of [s], after white
    space; [None] when no digit can be read. *)
Definition read_integer (s : string) : option (bool * Z) :=
  let '(neg, s1) := read_sign (skip_space s) in
  let '(v, n, _) := read_digits s1 0 0 in
  if n =? 0 then None else Some (neg, v).

(** [std::stoi]: [strtol] in base 10, then the range check against [int]. *)
Definition stoi (s : string) : result Z :=
  match read_integer s with
  | None => Throw invalid_argument
  | Some (neg, v) =>
      let r := if neg then - v else v in
      if (r <? INT_MIN) || (INT_MAX <? r) then Throw out_of_range else Return r
  end.

(** [std::stoull]: [strtoull] in base 10; a minus sign negates modulo 2^64. *)
Definition stoull (s : string) : result Z :=
  match read_integer s with
  | None => Throw invalid_argument
  | Some (neg, v) =>
      if ULLONG_MAX <? v then Throw out_of_range
      else Return (if neg then uint64_t (- v) else v)
  end.

(** An optional exponent part introduced by [mark] (in either case). *)
Definition read_exponent (mark : ascii) (s : string) : Z :=
  match s with
  | String c s' =>
      if (tolower c =? mark)%char then
        let '(neg, s2) := read_sign s' in
        let '(v, n, _) := read_digits s2 0 0 in
        if n =? 0 then 0 else if neg then - v else v
      else 0
  | EmptyString => 0
  end.

(** Decimal floating constant: digits, optional point and digits, optional
    exponent.  The result [(M, E)] stands for [M * 10^E]. *)
Definition read_decimal (s : string) : option (Z * Z) :=
  let '(i, ni, s1) := read_digits s 0 0 in
  let '(M, nf, s2) :=
    match s1 with
    | String "." s1' => read_digits s1' i 0
    | _ => (i, 0, s1)
    end in
  if ni + nf =? 0 then None else Some (M, read_exponent "e" s2 - nf).

(** Hexadecimal floating constant after its [0x]: [(M, E)] stands for
    [M * 2^E]. *)
Definition read_hexadecimal (s : string) : option (Z * Z) :=
  let '(i, ni, s1) := read_hex s 0 0 in
  let '(M, nf, s2) :=
    match s1 with
    | String "." s1' => read_hex s1' i 0
    | _ => (i, 0, s1)
    end in
  if ni + nf =? 0 then None else Some (M, read_exponent "p" s2 - 4 * nf).

Fixpoint prefix_nocase (p s : string) : bool :=
  match p, s with
  | EmptyString, _ => true
  | String a p', String b s' => (a =? tolower b)%char && prefix_nocase p' s'
  | String _ _, EmptyString => false
  end.

(** [m * b^E] rounded to the nearest double, ties to even. *)
Definition scaled (neg : bool) (m : positive) (b E : Z) : double :=
  if 0 <=? E then binary_round prec emax neg (m * Z.to_pos (b ^ E)) 0
  else fdiv (S754_finite neg m 0) (S754_finite false (Z.to_pos (b ^ (- E))) 0).

(** [m * b^E = m' * 2^e'] *)
Definition exactly (m : positive) (b E : Z) (m' : positive) (e' : Z) : bool :=
  let '(n1, d1) := if 0 <=? E then (Zpos m * b ^ E, 1) else (Zpos m, b ^ (- E)) in
  let '(n2, d2) := fraction_of m' e' in
  n1 * d2 =? n2 * d1.

(** [m * b^E < m' * 2^e'] *)
Definition below (m : positive) (b E : Z) (m' : positive) (e' : Z) : bool :=
  let '(n1, d1) := if 0 <=? E then (Zpos m * b ^ E, 1) else (Zpos m, b ^ (- E)) in
  let '(n2, d2) := fraction_of m' e' in
  n1 * d2 <? n2 * d1.

(** When [strtod] reports [ERANGE] for the non-zero input [m * b^E] rounded
    to [r]: on overflow, and on underflow, that is when the result is not
    exact and is tiny.  Tininess is detected after rounding, as glibc does
    on x86-64: the result is zero or subnormal, or it is the smallest
    normal double and the input, rounded to 53 bits with no lower bound on
    the exponent, would stay below it (the input is below
    [(2^54 - 1) * 2^-1076], half an ulp of that precision under
    [2^-1022]).  The result itself is the correctly rounded one; glibc 2.36
    drops the round bit of an input of more than 53 significant bits when
    it denormalises it, which is not modelled. *)
Definition erange (m : positive) (b E : Z) (r : double) : bool :=
  match r with
  | S754_infinity _ => true
  | S754_zero _ => true
  | S754_finite _ m' e' =>
      negb (exactly m b E m' e')
      && ((Zpos (digits2_pos m') <? prec) || below m b E (2 ^ 54 - 1) (- 1076))
  | S754_nan => false
  end.

Definition strtod_finite (neg : bool) (M b E : Z) : result double :=
  match M with
  | Zpos m =>
      let r := scaled neg m b E in
      if erange m b E r then Throw out_of_range else Return r
  | _ => Return (S754_zero neg)
  end.

(** [std::stod]: [strtod], [invalid_argument] when nothing converts,
    [out_of_range] on [ERANGE]. *)
Definition stod (s : string) : result double :=
  let '(neg, s1) := read_sign (skip_space s) in
  if prefix_nocase "inf" s1 then Return (S754_infinity neg)
  else if prefix_nocase "nan" s1 then Return S754_nan
  else
    let hex :=
      match s1 with
      | String "0" (String x s2) =>
          if (tolower x =? "x")%char then read_hexadecimal s2 else None
      | _ => None
      end in
    match hex with
    | Some (M, E) => strtod_finite neg M 2 E
    | None =>
        match read_decimal s1 with
        | Some (M, E) => strtod_finite neg M 10 E
        | None => Throw invalid_argument
        end
    end.

(** ** The receive buffer of the gateways

    [uint8_t buffer[1024]] is a local array of indeterminate contents
    ([None]); writes are bounds-checked here because C++ does not check
    them: an access outside the array is [Undefined]. *)

Definition BUFFER_SIZE : nat := 1024.

Definition store (buffer : list (option ascii)) (i : Z) (c : ascii)
  : result (list (option ascii)) :=
  if (0 <=? i) && (i <? Z.of_nat (length buffer))
  then Return (<[Z.to_nat i := Some c]> buffer)
  else Undefined.

(** [packet->CopyData(buffer, packet->GetSize())], byte by byte from [i]. *)
Fixpoint CopyData (buffer : list (option ascii)) (i : Z) (bytes : string)
  : result (list (option ascii)) :=
  match bytes with
  | EmptyString => Return buffer
  | String c rest => buffer' ← store buffer i c; CopyData buffer' (i + 1) rest
  end.

(** [std::string data((char* )buffer)]: the characters before the first NUL. *)
Fixpoint string_of_buffer (buffer : list (option ascii)) : result string :=
  match buffer with
  | [] => Undefined
  | None :: _ => Undefined
  | Some c :: rest =>
      if (c =? Ascii.zero)%char then Return EmptyString
      else s ← string_of_buffer rest; Return (String c s)
  end.

(** The first three statements of [ProcessCO2Data] and of [ProcessData]. *)
Definition read_packet (packet : string) : result string :=
  let buffer := replicate BUFFER_SIZE None in
  buffer ← CopyData buffer 0 packet;
  buffer ← store buffer (Z.of_nat (String.length packet)) Ascii.zero;
  string_of_buffer buffer.

(** ** The ns-3 event queue, as far as the sensors use it

    Times are in nanoseconds, the default resolution of ns-3.  An event
    carries the index of the application whose [SendCO2Reading] it runs. *)

Record Event : Type := { ev_uid : Z; ev_ts : Z; ev_this : nat }.

Record Simulator : Type := { Now : Z; next_uid : Z; events : list Event }.

(** An [EventId]; a default-constructed one refers to no event. *)
Abbreviation EventId := (option Z).

Definition Seconds (s : Z) : Z := s * 1000000000.
Definition GetMicroSeconds (t : Z) : Z := t ÷ 1000.

Definition IsPending (sim : Simulator) (id : EventId) : bool :=
  match id with
  | None => false
  | Some u => existsb (fun ev => ev_uid ev =? u) (events sim)
  end.

Definition Cancel (sim : Simulator) (id : EventId) : Simulator :=
  match id with
  | None => sim
  | Some u =>
      {| Now := Now sim; next_uid := next_uid sim;
         events := List.filter (fun ev => negb (ev_uid ev =? u)) (events sim) |}
  end.

Definition Schedule (sim : Simulator) (delay : Z) (this : nat) : EventId * Simulator :=
  (Some (next_uid sim),
   {| Now := Now sim; next_uid := next_uid sim + 1;
      events := events sim ++ [{| ev_uid := next_uid sim;
                                  ev_ts := Now sim + delay;
                                  ev_this := this |}] |}).

(** The event the scheduler runs next: the earliest, and among equals the
    one scheduled first. *)
Definition earlier (a b : Event) : bool :=
  (ev_ts a <? ev_ts b) || ((ev_ts a =? ev_ts b) && (ev_uid a <=? ev_uid b)).

Fixpoint next_event (evs : list Event) : option Event :=
  match evs with
  | [] => None
  | ev :: rest =>
      match next_event rest with
      | None => Some ev
      | Some ev' => Some (if earlier ev ev' then ev else ev')
      end
  end.

Inductive Socket : Type := SocketCreated | SocketConnected | SocketBound | SocketClosed.

(** What a handler leaves behind: it returned ([Done]), an exception left it
    ([Uncaught], with the state at the throw; nothing in either scenario
    catches it, so the process terminates), or it ran into undefined
    behaviour ([Crash]). *)
Inductive Outcome (S : Type) : Type :=
| Done (s : S)
| Uncaught (e : exception) (s : S)
| Crash.

Arguments Done {S} s.
Arguments Uncaught {S} e s.
Arguments Crash {S}.

(** The life cycle ns-3 gives an application: [StartApplication] runs once,
    at the start time; the simulation ends at the stop time. *)
Inductive Phase : Type := Idle | Running | Stopped.

(** * iot-connectivity.cc: the flat topology *)

Module Flat.

(** What [NS_LOG_INFO] and [NS_LOG_WARN] are called with. *)
Inductive LogEntry : Type :=
| INFO_SensorStarted (sensorId companyId : Z)
| INFO_SensorStopped (sensorId : Z)
| INFO_Transmitted (sensorId companyId : Z) (co2Value : double) (n : Z)
| WARN_SendFailed (sensorId : Z)
| INFO_GatewayReceived (sensorId companyId : Z) (co2Value : double) (from n : Z)
| WARN_Malformed (from : Z).

(** The global variables of the file, and the log stream. *)
Record Globals : Type := {
  totalCO2BySensor : gmap Z double;
  packetCountBySensor : gmap Z Z;
  totalPacketsReceived : Z;
  totalPacketsSent : Z;
  ns_log : list LogEntry
}.

Definition initial : Globals :=
  {| totalCO2BySensor := ∅; packetCountBySensor := ∅;
     totalPacketsReceived := 0; totalPacketsSent := 0; ns_log := [] |}.

Definition log (g : Globals) (e : LogEntry) : Globals :=
  {| totalCO2BySensor := totalCO2BySensor g;
     packetCountBySensor := packetCountBySensor g;
     totalPacketsReceived := totalPacketsReceived g;
     totalPacketsSent := totalPacketsSent g;
     ns_log := ns_log g ++ [e] |}.

(** A [CO2SensorApplication] after [Setup] (the socket pointer is set). *)
Record CO2SensorApplication : Type := {
  m_socket : Socket;
  m_sensorId : Z;
  m_companyId : Z;
  m_baselineCO2 : double;
  m_sendEvent : EventId;
  m_interval : Z;
  m_running : bool
}.

(** The constructor followed by [Setup]. *)
Definition Setup (sensorId companyId : Z) (baselineCO2 : double) : CO2SensorApplication :=
  {| m_socket := SocketCreated; m_sensorId := sensorId; m_companyId := companyId;
     m_baselineCO2 := baselineCO2; m_sendEvent := None;
     m_interval := Seconds 5; m_running := false |}.

(** [variation] is what [rand->GetValue(-50.0, 50.0)] returned. *)
Definition GenerateCO2Value (this : CO2SensorApplication) (variation : double) : double :=
  let co2Value := fadd (m_baselineCO2 this) variation in
  let co2Value := if flt co2Value lit_300 then lit_300 else co2Value in
  let co2Value := if fgt co2Value lit_3000 then lit_3000 else co2Value in
  co2Value.

Record SensorReading : Type := {
  sensorId : Z;
  companyId : Z;
  co2Value : double;
  timestamp : Z
}.

(** The text [SendCO2Reading] streams into [oss]. *)
Definition Encode (r : SensorReading) : string :=
  "SENSOR:" ++ put_uint (sensorId r) ++ ",COMPANY:" ++ put_uint (companyId r)
  ++ ",CO2:" ++ put_double (co2Value r) ++ ",TIME:" ++ put_uint (timestamp r).

(** [actual] is what [m_socket->Send(packet)] returned.  The result holds
    the payload handed to the socket. *)
Definition SendCO2Reading (self : nat) (variation : double) (actual : Z)
    (this : CO2SensorApplication) (sim : Simulator) (g : Globals)
  : string * CO2SensorApplication * Simulator * Globals :=
  let co2Value := GenerateCO2Value this variation in
  let timestamp := uint64_t (GetMicroSeconds (Now sim)) in
  let data := Encode {| sensorId := m_sensorId this; companyId := m_companyId this;
                        co2Value := co2Value; timestamp := timestamp |} in
  let g :=
    if 0 <? actual then
      let sent := uint32_t (totalPacketsSent g + 1) in
      log {| totalCO2BySensor := totalCO2BySensor g;
             packetCountBySensor := packetCountBySensor g;
             totalPacketsReceived := totalPacketsReceived g;
             totalPacketsSent := sent;
             ns_log := ns_log g |}
          (INFO_Transmitted (m_sensorId this) (m_companyId this) co2Value sent)
    else log g (WARN_SendFailed (m_sensorId this)) in
  if m_running this then
    let '(id, sim) := Schedule sim (m_interval this) self in
    (data,
     {| m_socket := m_socket this; m_sensorId := m_sensorId this;
        m_companyId := m_companyId this; m_baselineCO2 := m_baselineCO2 this;
        m_sendEvent := id; m_interval := m_interval this;
        m_running := m_running this |},
     sim, g)
  else (data, this, sim, g).

Definition StartApplication (self : nat) (variation : double) (actual : Z)
    (this : CO2SensorApplication) (sim : Simulator) (g : Globals)
  : string * CO2SensorApplication * Simulator * Globals :=
  let this := {| m_socket := SocketConnected; m_sensorId := m_sensorId this;
                 m_companyId := m_companyId this; m_baselineCO2 := m_baselineCO2 this;
                 m_sendEvent := m_sendEvent this; m_interval := m_interval this;
                 m_running := true |} in
  let g := log g (INFO_SensorStarted (m_sensorId this) (m_companyId this)) in
  SendCO2Reading self variation actual this sim g.

Definition StopApplication (this : CO2SensorApplication) (sim : Simulator) (g : Globals)
  : CO2SensorApplication * Simulator * Globals :=
  let sim := if IsPending sim (m_sendEvent this) then Cancel sim (m_sendEvent this) else sim in
  ({| m_socket := SocketClosed; m_sensorId := m_sensorId this;
      m_companyId := m_companyId this; m_baselineCO2 := m_baselineCO2 this;
      m_sendEvent := m_sendEvent this; m_interval := m_interval this;
      m_running := false |},
   sim, log g (INFO_SensorStopped (m_sensorId this))).

(** *** CarbonGatewayApplication *)

Inductive Decoded : Type :=
| Reading (r : SensorReading)
| MalformedPacket.

(** The buffer copy, tag search and field extraction of [ProcessCO2Data]. *)
Definition Decode (packet : string) : result Decoded :=
  data ← read_packet packet;
  let sensorPos := find data "SENSOR:" in
  let companyPos := find data "COMPANY:" in
  let co2Pos := find data "CO2:" in
  let timePos := find data "TIME:" in
  if negb (sensorPos =? npos) && negb (companyPos =? npos) &&
     negb (co2Pos =? npos) && negb (timePos =? npos)
  then
    s ← substr data (size_t (sensorPos + 7)) (size_t (companyPos - sensorPos - 8));
    sensorId ← stoi s;
    s ← substr data (size_t (companyPos + 8)) (size_t (co2Pos - companyPos - 9));
    companyId ← stoi s;
    s ← substr data (size_t (co2Pos + 4)) (size_t (timePos - co2Pos - 5));
    co2Value ← stod s;
    s ← substr data (size_t (timePos + 5)) npos;
    timestamp ← stoull s;
    Return (Reading {| sensorId := uint32_t sensorId; companyId := uint32_t companyId;
                       co2Value := co2Value; timestamp := timestamp |})
  else Return MalformedPacket.

Definition ProcessCO2Data (packet : string) (from : Z) (g : Globals) : Outcome Globals :=
  match Decode packet with
  | Return (Reading r) =>
      let total := default lit_0 (totalCO2BySensor g !! sensorId r) in
      let count := default 0 (packetCountBySensor g !! sensorId r) in
      Done (log {| totalCO2BySensor :=
                     <[sensorId r := fadd total (co2Value r)]> (totalCO2BySensor g);
                   packetCountBySensor :=
                     <[sensorId r := uint32_t (count + 1)]> (packetCountBySensor g);
                   totalPacketsReceived := totalPacketsReceived g;
                   totalPacketsSent := totalPacketsSent g;
                   ns_log := ns_log g |}
                (INFO_GatewayReceived (sensorId r) (companyId r) (co2Value r) from
                                      (totalPacketsReceived g)))
  | Return MalformedPacket => Done (log g (WARN_Malformed from))
  | Throw e => Uncaught e g
  | Undefined => Crash
  end.

(** One run of the receive callback over the datagrams [RecvFrom] yields,
    each with its source address. *)
Fixpoint HandleRead (packets : list (string * Z)) (g : Globals) : Outcome Globals :=
  match packets with
  | [] => Done g
  | (packet, from) :: rest =>
      if 0 <? Z.of_nat (String.length packet) then
        let g := {| totalCO2BySensor := totalCO2BySensor g;
                    packetCountBySensor := packetCountBySensor g;
                    totalPacketsReceived := uint32_t (totalPacketsReceived g + 1);
                    totalPacketsSent := totalPacketsSent g;
                    ns_log := ns_log g |} in
        match ProcessCO2Data packet from g with
        | Done g => HandleRead rest g
        | o => o
        end
      else HandleRead rest g
  end.

(** The last statements of [main] that compute the delivery ratio. *)
Definition deliveryRatio (g : Globals) : double :=
  if 0 <? totalPacketsSent g
  then fmul (fdiv (double_of_Z (totalPacketsReceived g)) (double_of_Z (totalPacketsSent g)))
            lit_100
  else lit_0.

(** *** The sensors under the ns-3 scheduler *)

Record Node : Type := { phase : Phase; app : CO2SensorApplication }.

(** [wire] lists the calls of [m_socket->Send]: who called, the payload,
    and what the call returned. *)
Record System : Type := {
  simulator : Simulator;
  globals : Globals;
  nodes : list Node;
  wire : list (nat * string * Z)
}.

Inductive Label : Type :=
| StartApp (i : nat) (variation : double) (actual : Z)
| StopApp (i : nat)
| Fire (variation : double) (actual : Z).

Definition step (s : System) (l : Label) : option System :=
  match l with
  | StartApp i variation actual =>
      match nodes s !! i with
      | Some {| phase := Idle; app := a |} =>
          let '(data, a, sim, g) :=
            StartApplication i variation actual a (simulator s) (globals s) in
          Some {| simulator := sim; globals := g;
                  nodes := <[i := {| phase := Running; app := a |}]> (nodes s);
                  wire := wire s ++ [(i, data, actual)] |}
      | _ => None
      end
  | StopApp i =>
      match nodes s !! i with
      | Some n =>
          let '(a, sim, g) := StopApplication (app n) (simulator s) (globals s) in
          Some {| simulator := sim; globals := g;
                  nodes := <[i := {| phase := Stopped; app := a |}]> (nodes s);
                  wire := wire s |}
      | None => None
      end
  | Fire variation actual =>
      match next_event (events (simulator s)) with
      | Some ev =>
          match nodes s !! ev_this ev with
          | Some n =>
              let sim := {| Now := ev_ts ev; next_uid := next_uid (simulator s);
                            events := List.filter (fun e => negb (ev_uid e =? ev_uid ev))
                                                  (events (simulator s)) |} in
              let '(data, a, sim, g) :=
                SendCO2Reading (ev_this ev) variation actual (app n) sim (globals s) in
              Some {| simulator := sim; globals := g;
                      nodes := <[ev_this ev := {| phase := phase n; app := a |}]> (nodes s);
                      wire := wire s ++ [(ev_this ev, data, actual)] |}
          | None => None
          end
      | None => None
      end
  end.



(** The payload [SendAcknowledgment] hands to [SendTo]. *)
Definition SendAcknowledgment (sensorId : Z) : string :=
  "ACK:SENSOR:" ++ put_uint sensorId.

(** One turn of the summary loops of [StopApplication] and of [main] over
    [totalCO2BySensor], at the entry of [sensorId]: the count read with
    [operator[]] (0 when the key is absent) and the average. *)
Definition summary_row (g : Globals) (sensorId : Z) : option (Z * double) :=
  match totalCO2BySensor g !! sensorId with
  | Some totalCO2 =>
      let packetCount := default 0 (packetCountBySensor g !! sensorId) in
      Some (packetCount, fdiv totalCO2 (double_of_Z packetCount))
  | None => None
  end.

(** The arguments [main] passes to [Setup] for the sensor of index [i]:
    identifier, company and baseline. *)
Definition main_sensor (i : Z) : Z * Z * double :=
  let baselineCO2 := fadd lit_400 (fmul (double_of_Z i) lit_100) in
  let companyId := uint32_t (i mod 3 + 1) in
  (uint32_t (i + 1), companyId, baselineCO2).

(** The sensors [main] deploys, in the order of its loop. *)
Definition main_sensors (nSensors : Z) : list (Z * Z * double) :=
  List.map (fun i => main_sensor (Z.of_nat i)) (seq 0 (Z.to_nat nSensors)).

End Flat.

(** * iot-hierarchical.cc: sensors, zone access points, main gateway *)

Module Hier.

Inductive LogEntry : Type :=
| INFO_SensorSent (sensorId zoneId : Z) (co2Value : double)
| INFO_APStarted (zoneId : Z)
| INFO_APStopped (zoneId received forwarded : Z)
| INFO_APReceived (zoneId : Z)
| INFO_APForwarded (zoneId : Z)
| INFO_GatewayReceived (sensorId zoneId : Z) (co2Value : double) (from : Z).

Record Globals : Type := {
  totalCO2BySensor : gmap Z double;
  packetCountBySensor : gmap Z Z;
  totalPacketsReceived : Z;
  totalPacketsSent : Z;
  ns_log : list LogEntry
}.

Definition initial : Globals :=
  {| totalCO2BySensor := ∅; packetCountBySensor := ∅;
     totalPacketsReceived := 0; totalPacketsSent := 0; ns_log := [] |}.

Definition log (g : Globals) (e : LogEntry) : Globals :=
  {| totalCO2BySensor := totalCO2BySensor g;
     packetCountBySensor := packetCountBySensor g;
     totalPacketsReceived := totalPacketsReceived g;
     totalPacketsSent := totalPacketsSent g;
     ns_log := ns_log g ++ [e] |}.

Record CO2SensorApplication : Type := {
  m_socket : Socket;
  m_sensorId : Z;
  m_zoneId : Z;
  m_baselineCO2 : double;
  m_sendEvent : EventId;
  m_interval : Z;
  m_running : bool
}.

Definition GenerateCO2Value (this : CO2SensorApplication) (variation : double) : double :=
  let co2Value := fadd (m_baselineCO2 this) variation in
  std_max lit_300 (std_min lit_3000 co2Value).

Record SensorReading : Type := {
  sensorId : Z;
  zoneId : Z;
  co2Value : double
}.

Definition Encode (r : SensorReading) : string :=
  "SENSOR:" ++ put_uint (sensorId r) ++ ",ZONE:" ++ put_uint (zoneId r)
  ++ ",CO2:" ++ put_double (co2Value r).

Definition SendCO2Reading (self : nat) (variation : double) (actual : Z)
    (this : CO2SensorApplication) (sim : Simulator) (g : Globals)
  : string * CO2SensorApplication * Simulator * Globals :=
  let co2Value := GenerateCO2Value this variation in
  let data := Encode {| sensorId := m_sensorId this; zoneId := m_zoneId this;
                        co2Value := co2Value |} in
  let g :=
    if 0 <? actual then
      log {| totalCO2BySensor := totalCO2BySensor g;
             packetCountBySensor := packetCountBySensor g;
             totalPacketsReceived := totalPacketsReceived g;
             totalPacketsSent := uint32_t (totalPacketsSent g + 1);
             ns_log := ns_log g |}
          (INFO_SensorSent (m_sensorId this) (m_zoneId this) co2Value)
    else g in
  if m_running this then
    let '(id, sim) := Schedule sim (m_interval this) self in
    (data,
     {| m_socket := m_socket this; m_sensorId := m_sensorId this;
        m_zoneId := m_zoneId this; m_baselineCO2 := m_baselineCO2 this;
        m_sendEvent := id; m_interval := m_interval this;
        m_running := m_running this |},
     sim, g)
  else (data, this, sim, g).

Definition StartApplication (self : nat) (variation : double) (actual : Z)
    (this : CO2SensorApplication) (sim : Simulator) (g : Globals)
  : string * CO2SensorApplication * Simulator * Globals :=
  let this := {| m_socket := SocketConnected; m_sensorId := m_sensorId this;
                 m_zoneId := m_zoneId this; m_baselineCO2 := m_baselineCO2 this;
                 m_sendEvent := m_sendEvent this; m_interval := m_interval this;
                 m_running := true |} in
  SendCO2Reading self variation actual this sim g.

Definition StopApplication (this : CO2SensorApplication) (sim : Simulator)
  : CO2SensorApplication * Simulator :=
  let sim := if IsPending sim (m_sendEvent this) then Cancel sim (m_sendEvent this) else sim in
  ({| m_socket := SocketClosed; m_sensorId := m_sensorId this;
      m_zoneId := m_zoneId this; m_baselineCO2 := m_baselineCO2 this;
      m_sendEvent := m_sendEvent this; m_interval := m_interval this;
      m_running := false |},
   sim).

(** *** LocalAPApplication *)

Record LocalAPApplication : Type := {
  m_receiveSocket : Socket;
  m_forwardSocket : Socket;
  m_apZoneId : Z;
  m_packetsReceived : Z;
  m_packetsForwarded : Z
}.

(** The constructor followed by [Setup] and [StartApplication]. *)
Definition StartAP (zoneId : Z) : LocalAPApplication :=
  {| m_receiveSocket := SocketBound; m_forwardSocket := SocketConnected;
     m_apZoneId := zoneId; m_packetsReceived := 0; m_packetsForwarded := 0 |}.

(** [actual] is what [m_forwardSocket->Send(packet)] returned; the payload
    handed to the socket is [packet] itself. *)
Definition ForwardToGateway (packet : string) (actual : Z)
    (this : LocalAPApplication) (g : Globals)
  : string * LocalAPApplication * Globals :=
  if 0 <? actual then
    (packet,
     {| m_receiveSocket := m_receiveSocket this; m_forwardSocket := m_forwardSocket this;
        m_apZoneId := m_apZoneId this; m_packetsReceived := m_packetsReceived this;
        m_packetsForwarded := uint32_t (m_packetsForwarded this + 1) |},
     log g (INFO_APForwarded (m_apZoneId this)))
  else (packet, this, g).

(** The receive callback over the datagrams [RecvFrom] yields, each with
    the result its forwarding [Send] will have.  The first component lists
    the payloads handed to the forward socket, in order. *)
Fixpoint HandleReadAP (packets : list (string * Z))
    (this : LocalAPApplication) (g : Globals)
  : list string * LocalAPApplication * Globals :=
  match packets with
  | [] => ([], this, g)
  | (packet, actual) :: rest =>
      if 0 <? Z.of_nat (String.length packet) then
        let this := {| m_receiveSocket := m_receiveSocket this;
                       m_forwardSocket := m_forwardSocket this;
                       m_apZoneId := m_apZoneId this;
                       m_packetsReceived := uint32_t (m_packetsReceived this + 1);
                       m_packetsForwarded := m_packetsForwarded this |} in
        let g := log g (INFO_APReceived (m_apZoneId this)) in
        let '(out, this, g) := ForwardToGateway packet actual this g in
        let '(outs, this, g) := HandleReadAP rest this g in
        (out :: outs, this, g)
      else HandleReadAP rest this g
  end.

(** *** MainGatewayApplication *)

Inductive Decoded : Type :=
| Reading (r : SensorReading)
| MalformedPacket.

Definition Decode (packet : string) : result Decoded :=
  data ← read_packet packet;
  let sensorPos := find data "SENSOR:" in
  let zonePos := find data "ZONE:" in
  let co2Pos := find data "CO2:" in
  if negb (sensorPos =? npos) && negb (zonePos =? npos) && negb (co2Pos =? npos)
  then
    s ← substr data (size_t (sensorPos + 7)) (size_t (zonePos - sensorPos - 8));
    sensorId ← stoi s;
    s ← substr data (size_t (zonePos + 5)) (size_t (co2Pos - zonePos - 6));
    zoneId ← stoi s;
    s ← substr data (size_t (co2Pos + 4)) npos;
    co2Value ← stod s;
    Return (Reading {| sensorId := uint32_t sensorId; zoneId := uint32_t zoneId;
                       co2Value := co2Value |})
  else Return MalformedPacket.

Definition ProcessData (packet : string) (from : Z) (g : Globals) : Outcome Globals :=
  match Decode packet with
  | Return (Reading r) =>
      let total := default lit_0 (totalCO2BySensor g !! sensorId r) in
      let count := default 0 (packetCountBySensor g !! sensorId r) in
      Done (log {| totalCO2BySensor :=
                     <[sensorId r := fadd total (co2Value r)]> (totalCO2BySensor g);
                   packetCountBySensor :=
                     <[sensorId r := uint32_t (count + 1)]> (packetCountBySensor g);
                   totalPacketsReceived := totalPacketsReceived g;
                   totalPacketsSent := totalPacketsSent g;
                   ns_log := ns_log g |}
                (INFO_GatewayReceived (sensorId r) (zoneId r) (co2Value r) from))
  | Return MalformedPacket => Done g
  | Throw e => Uncaught e g
  | Undefined => Crash
  end.

Fixpoint HandleRead (packets : list (string * Z)) (g : Globals) : Outcome Globals :=
  match packets with
  | [] => Done g
  | (packet, from) :: rest =>
      if 0 <? Z.of_nat (String.length packet) then
        let g := {| totalCO2BySensor := totalCO2BySensor g;
                    packetCountBySensor := packetCountBySensor g;
                    totalPacketsReceived := uint32_t (totalPacketsReceived g + 1);
                    totalPacketsSent := totalPacketsSent g;
                    ns_log := ns_log g |} in
        match ProcessData packet from g with
        | Done g => HandleRead rest g
        | o => o
        end
      else HandleRead rest g
  end.

Definition ratio (g : Globals) : double :=
  if 0 <? totalPacketsSent g
  then fmul (fdiv (double_of_Z (totalPacketsReceived g)) (double_of_Z (totalPacketsSent g)))
            lit_100
  else lit_0.

(** [main]: the zones and their sensors. *)
Definition sensorsPerZone : Z := 2.

Definition totalSensors (nZones : Z) : Z := uint32_t (nZones * sensorsPerZone).

(** The index in [sensorNodes] of sensor [s] of zone [zone], as the zone
    loops compute it. *)
Definition zone_sensor (zone s : Z) : Z := uint32_t (zone * sensorsPerZone + s).

(** The index in [apNodes] of the access point sensor [i] sends to, as the
    sensor loop computes it. *)
Definition zone_of (i : Z) : Z := i / sensorsPerZone.

(** The arguments [main] passes to [Setup] for the sensor of index [i]:
    identifier, zone and baseline. *)
Definition main_sensor (i : Z) : Z * Z * double :=
  let zone := zone_of i in
  let baselineCO2 := fadd lit_400 (fmul (double_of_Z i) lit_50) in
  (uint32_t (i + 1), uint32_t (zone + 1), baselineCO2).

(** The access point [main] deploys for zone [zone], once started. *)
Definition main_relay (zone : Z) : LocalAPApplication := StartAP (uint32_t (zone + 1)).

End Hier.

(** * Specification-level notions used by the statements below *)

(** The characters of [s] before its first NUL: what a C string holds. *)
Fixpoint c_str (s : string) : string :=
  match s with
  | EmptyString => EmptyString
  | String c s' => if (c =? Ascii.zero)%char then EmptyString else String c (c_str s')
  end.

(** A buffer tail [rest] preceded by the bytes of [bytes]. *)
Fixpoint written (bytes : string) (rest : list (option ascii)) : list (option ascii) :=
  match bytes with
  | EmptyString => rest
  | String c bytes' => Some c :: written bytes' rest
  end.

(** [pat] occurs in [s]. *)
Definition occurs (pat s : string) : Prop :=
  exists a b : string, s = a ++ pat ++ b.

(** Every character of [s] satisfies [P]. *)
Fixpoint all_chars (P : ascii -> bool) (s : string) : bool :=
  match s with
  | EmptyString => true
  | String c s' => P c && all_chars P s'
  end.

(** The characters [operator<<] produces for a number. *)
Definition numeric_char (c : ascii) : bool :=
  isdigit c ||
  existsb (Ascii.eqb c) ["."; "e"; "+"; "-"; "i"; "n"; "f"; "a"]%char.

(** The characters of the payloads the sensors build. *)
Definition payload_char (c : ascii) : bool :=
  numeric_char c ||
  existsb (Ascii.eqb c)
    ["S"; "E"; "N"; "O"; "R"; ":"; ","; "C"; "M"; "P"; "A"; "Y"; "2"; "T"; "I"; "Z"]%char.

(** The globals a handler leaves behind, when it leaves any. *)
Definition final {S : Type} (o : Outcome S) : option S :=
  match o with
  | Done s => Some s
  | Uncaught _ s => Some s
  | Crash => None
  end.

(** The globals after [totalPacketsReceived++]. *)
Definition counted (g : Flat.Globals) : Flat.Globals :=
  {| Flat.totalCO2BySensor := Flat.totalCO2BySensor g;
     Flat.packetCountBySensor := Flat.packetCountBySensor g;
     Flat.totalPacketsReceived := uint32_t (Flat.totalPacketsReceived g + 1);
     Flat.totalPacketsSent := Flat.totalPacketsSent g;
     Flat.ns_log := Flat.ns_log g |}.

(** The datagrams [HandleRead] does not skip. *)
Definition nonempty (packets : list (string * Z)) : list (string * Z) :=
  List.filter (fun p => 0 <? Z.of_nat (String.length (fst p))) packets.

(** The aggregate invariant: both maps have the same keys and every count
    lies between 1 and [k]. *)
Definition aggregates_ok (k : Z) (g : Flat.Globals) : Prop :=
  forall sensorId : Z,
    (is_Some (Flat.totalCO2BySensor g !! sensorId) <->
     is_Some (Flat.packetCountBySensor g !! sensorId)) /\
    (forall n, Flat.packetCountBySensor g !! sensorId = Some n -> 1 <= n <= k).


(** A call of [SendCO2Reading]: the sensor (its index and state), the
    simulator it sees, the variation drawn and what [Send] returns. *)
Record FlatCall : Type := {
  fc_self : nat; fc_this : Flat.CO2SensorApplication; fc_sim : Simulator;
  fc_variation : double; fc_actual : Z
}.

Record HierCall : Type := {
  hc_self : nat; hc_this : Hier.CO2SensorApplication; hc_sim : Simulator;
  hc_variation : double; hc_actual : Z
}.

(** The globals after a sequence of calls, by any sensors, in any order. *)
Fixpoint flat_sends (calls : list FlatCall) (g : Flat.Globals) : Flat.Globals :=
  match calls with
  | [] => g
  | c :: rest =>
      flat_sends rest
        (snd (Flat.SendCO2Reading (fc_self c) (fc_variation c) (fc_actual c)
                                  (fc_this c) (fc_sim c) g))
  end.

Fixpoint hier_sends (calls : list HierCall) (g : Hier.Globals) : Hier.Globals :=
  match calls with
  | [] => g
  | c :: rest =>
      hier_sends rest
        (snd (Hier.SendCO2Reading (hc_self c) (hc_variation c) (hc_actual c)
                                  (hc_this c) (hc_sim c) g))
  end.

(** How many of the results of [Send] report success. *)
Definition successes (actuals : list Z) : Z :=
  Z.of_nat (length (List.filter (fun actual => 0 <? actual) actuals)).

(** The datagrams of a relay that are not empty and whose forwarding
    succeeds. *)
Definition forwarded_ok (packets : list (string * Z)) : list (string * Z) :=
  List.filter (fun p => 0 <? snd p) (nonempty packets).




(** The aggregate invariant of the main gateway. *)
Definition hier_aggregates_ok (k : Z) (g : Hier.Globals) : Prop :=
  forall sensorId : Z,
    (is_Some (Hier.totalCO2BySensor g !! sensorId) <->
     is_Some (Hier.packetCountBySensor g !! sensorId)) /\
    (forall n, Hier.packetCountBySensor g !! sensorId = Some n -> 1 <= n <= k).

(** The globals of the main gateway after [totalPacketsReceived++]. *)
Definition hier_counted (g : Hier.Globals) : Hier.Globals :=
  {| Hier.totalCO2BySensor := Hier.totalCO2BySensor g;
     Hier.packetCountBySensor := Hier.packetCountBySensor g;
     Hier.totalPacketsReceived := uint32_t (Hier.totalPacketsReceived g + 1);
     Hier.totalPacketsSent := Hier.totalPacketsSent g;
     Hier.ns_log := Hier.ns_log g |}.







(** The readings a run of the gateway's callback decodes, in order of
    arrival. *)
Fixpoint flat_readings (packets : list (string * Z)) : list Flat.SensorReading :=
  match packets with
  | [] => []
  | (packet, _) :: rest =>
      if 0 <? Z.of_nat (String.length packet) then
        match Flat.Decode packet with
        | Return (Flat.Reading r) => r :: flat_readings rest
        | _ => flat_readings rest
        end
      else flat_readings rest
  end.

Fixpoint hier_readings (packets : list (string * Z)) : list Hier.SensorReading :=
  match packets with
  | [] => []
  | (packet, _) :: rest =>
      if 0 <? Z.of_nat (String.length packet) then
        match Hier.Decode packet with
        | Return (Hier.Reading r) => r :: hier_readings rest
        | _ => hier_readings rest
        end
      else hier_readings rest
  end.

(** The sum the gateway keeps: the values added one by one, in order of
    arrival, to what was stored. *)
Definition running_sum (stored : double) (values : list double) : double :=
  fold_left fadd values stored.

(** * The receive buffer *)

Lemma length_written bytes rest :
  length (written bytes rest) = (String.length bytes + length rest)%nat.
Proof. induction bytes as [|c b IH]; simpl; [reflexivity | now rewrite IH]. Qed.

Lemma written_snoc bytes c rest :
  written (bytes ++ String c EmptyString) rest = written bytes (Some c :: rest).
Proof. induction bytes as [|d b IH]; simpl; [reflexivity | now rewrite IH]. Qed.

Lemma store_written bytes x rest c :
  store (written bytes (x :: rest)) (Z.of_nat (String.length bytes)) c
  = Return (written bytes (Some c :: rest)).
Proof.
  unfold store. rewrite length_written. simpl length.
  replace ((0 <=? Z.of_nat (String.length bytes))
           && (Z.of_nat (String.length bytes)
               <? Z.of_nat (String.length bytes + S (length rest)))) with true
    by (symmetry; apply andb_true_iff; split; [apply Z.leb_le | apply Z.ltb_lt]; lia).
  rewrite Nat2Z.id. f_equal.
  induction bytes as [|d b IH]; simpl; [reflexivity | now rewrite IH].
Qed.

Lemma store_written_full bytes c :
  store (written bytes []) (Z.of_nat (String.length bytes)) c = Undefined.
Proof.
  unfold store. rewrite length_written. simpl length.
  replace (Z.of_nat (String.length bytes) <? Z.of_nat (String.length bytes + 0)) with false
    by (symmetry; apply Z.ltb_ge; lia).
  now rewrite andb_false_r.
Qed.

Lemma CopyData_written bytes : forall done rest,
  (String.length bytes <= length rest)%nat ->
  CopyData (written done rest) (Z.of_nat (String.length done)) bytes
  = Return (written done (written bytes (drop (String.length bytes) rest))).
Proof.
  induction bytes as [|c b IH]; intros done rest Hlen; simpl.
  - now rewrite drop_0.
  - destruct rest as [|x rest]; simpl in Hlen; [lia |].
    rewrite store_written. simpl.
    rewrite <- written_snoc.
    replace (Z.of_nat (String.length done) + 1)
      with (Z.of_nat (String.length (done ++ String c EmptyString))).
    + rewrite IH by lia. now rewrite written_snoc.
    + clear. induction done as [|d done IH]; simpl String.length in *; lia.
Qed.

Lemma CopyData_overflow bytes : forall done rest,
  (length rest < String.length bytes)%nat ->
  CopyData (written done rest) (Z.of_nat (String.length done)) bytes = Undefined.
Proof.
  induction bytes as [|c b IH]; intros done rest Hlen; simpl in *; [lia |].
  destruct rest as [|x rest].
  - now rewrite store_written_full.
  - rewrite store_written. simpl.
    rewrite <- written_snoc.
    replace (Z.of_nat (String.length done) + 1)
      with (Z.of_nat (String.length (done ++ String c EmptyString))).
    + apply IH. simpl in Hlen. lia.
    + clear. induction done as [|d done IH]; simpl String.length in *; lia.
Qed.

Lemma string_of_buffer_written bytes rest :
  string_of_buffer (written bytes (Some Ascii.zero :: rest)) = Return (c_str bytes).
Proof.
  induction bytes as [|c b IH]; simpl; [reflexivity |].
  destruct (c =? Ascii.zero)%char; [reflexivity |].
  now rewrite IH.
Qed.

(** Below 1024 bytes the buffer holds the payload and its terminator, and
    [data] is the payload up to its first NUL. *)
Lemma read_packet_fits packet :
  (String.length packet < BUFFER_SIZE)%nat ->
  read_packet packet = Return (c_str packet).
Proof.
  unfold read_packet. generalize BUFFER_SIZE. intros n Hlen.
  pose proof (CopyData_written packet EmptyString (replicate n None)) as Hc.
  simpl in Hc. change (Z.of_nat 0) with 0 in Hc. rewrite Hc
    by (rewrite length_replicate; lia).
  cbn [mbind result_bind]. rewrite drop_replicate.
  destruct (n - String.length packet)%nat as [|k] eqn:Hk; [lia |].
  rewrite replicate_S, store_written.
  apply string_of_buffer_written.
Qed.

(** From 1024 bytes on, the copy or the terminator lands outside the array. *)
Lemma read_packet_overflow packet :
  (BUFFER_SIZE <= String.length packet)%nat ->
  read_packet packet = Undefined.
Proof.
  unfold read_packet. generalize BUFFER_SIZE. intros n Hlen.
  destruct (Nat.eq_dec (String.length packet) n) as [Heq | Hne].
  - pose proof (CopyData_written packet EmptyString (replicate n None)) as Hc.
    simpl in Hc. change (Z.of_nat 0) with 0 in Hc. rewrite Hc
      by (rewrite length_replicate; lia).
    cbn [mbind result_bind]. rewrite drop_replicate, Heq, Nat.sub_diag.
    cbn [replicate]. rewrite <- Heq. now rewrite store_written_full.
  - pose proof (CopyData_overflow packet EmptyString (replicate n None)) as Hc.
    simpl in Hc. change (Z.of_nat 0) with 0 in Hc. rewrite Hc
      by (rewrite length_replicate; lia).
    reflexivity.
Qed.

(** * Strings *)

Lemma append_empty_r s : s ++ EmptyString = s.
Proof. induction s as [|c s IH]; simpl; [reflexivity | now rewrite IH]. Qed.

Lemma append_assoc a b c : (a ++ b) ++ c = a ++ b ++ c.
Proof. induction a as [|x a IH]; simpl; [reflexivity | now rewrite IH]. Qed.

Lemma length_append a b :
  String.length (a ++ b) = (String.length a + String.length b)%nat.
Proof. induction a as [|x a IH]; simpl; [reflexivity | now rewrite IH]. Qed.

Lemma all_chars_append P a b :
  all_chars P (a ++ b) = all_chars P a && all_chars P b.
Proof.
  induction a as [|x a IH]; simpl; [reflexivity |].
  now rewrite IH, andb_assoc.
Qed.

Lemma all_chars_weaken (P Q : ascii -> bool) s :
  (forall c, P c = true -> Q c = true) ->
  all_chars P s = true -> all_chars Q s = true.
Proof.
  intros HPQ. induction s as [|c s IH]; simpl; [reflexivity |].
  intros [Hc Hs]%andb_true_iff. apply andb_true_iff. split; auto.
Qed.

Lemma all_chars_substring P s : forall n m,
  all_chars P s = true -> all_chars P (substring n m s) = true.
Proof.
  induction s as [|c s IH]; intros n m H.
  - destruct n, m; reflexivity.
  - simpl in H. apply andb_true_iff in H as [Hc Hs].
    destruct n as [|n]; destruct m as [|m]; simpl; auto.
    now rewrite Hc, (IH 0%nat m Hs).
Qed.

Lemma length_substring_le s : forall n m,
  (String.length (substring n m s) <= m)%nat.
Proof.
  induction s as [|c s IH]; intros n m.
  - destruct n, m; simpl; lia.
  - destruct n as [|n]; destruct m as [|m]; simpl; try lia.
    + specialize (IH 0%nat m). lia.
    + apply (IH n 0%nat).
    + apply (IH n (S m)).
Qed.

Lemma substring_append_middle a : forall b c,
  substring (String.length a) (String.length b) (a ++ b ++ c) = b.
Proof.
  induction a as [|x a IH]; intros b c; simpl.
  - revert c. induction b as [|y b IHb]; intros c; simpl.
    + destruct c; reflexivity.
    + now rewrite IHb.
  - apply IH.
Qed.

Lemma c_str_id s :
  all_chars (fun c => negb (c =? Ascii.zero)%char) s = true -> c_str s = s.
Proof.
  induction s as [|c s IH]; simpl; [reflexivity |].
  intros [Hc Hs]%andb_true_iff.
  destruct (c =? Ascii.zero)%char; [discriminate |]. now rewrite IH.
Qed.

(** [c_str s] is an initial segment of [s]. *)
Lemma c_str_prefix s : exists rest, s = c_str s ++ rest.
Proof.
  induction s as [|c s [rest IH]]; simpl.
  - now exists EmptyString.
  - destruct (c =? Ascii.zero)%char.
    + now exists (String c s).
    + exists rest. simpl. now rewrite <- IH.
Qed.

Lemma occurs_c_str pat s : occurs pat (c_str s) -> occurs pat s.
Proof.
  intros (a & b & Hab). destruct (c_str_prefix s) as [rest Hrest].
  exists a, (b ++ rest). rewrite Hrest, Hab. now rewrite !append_assoc.
Qed.

(** ** find *)

Lemma prefix_append pat s : String.prefix pat s = true -> exists b, s = pat ++ b.
Proof.
  revert s. induction pat as [|c pat IH]; intros s H; simpl in *.
  - now exists s.
  - destruct s as [|d s]; [discriminate |]. simpl in H.
    destruct (ascii_dec c d) as [Heq | Hne]; [subst d | discriminate].
    destruct (IH s H) as [b Hb]. exists b. now rewrite Hb.
Qed.

Lemma prefix_append_refl pat b : String.prefix pat (pat ++ b) = true.
Proof.
  induction pat as [|c pat IH]; simpl; [now destruct b |].
  destruct (ascii_dec c c) as [_ | Hne]; [exact IH | congruence].
Qed.

Lemma find_from_range pat s : forall pos,
  find_from pat s pos = npos \/
  pos <= find_from pat s pos <= pos + Z.of_nat (String.length s).
Proof.
  induction s as [|c s IH]; intros pos; cbn [find_from String.length].
  - destruct (String.prefix pat EmptyString); [right; lia | now left].
  - destruct (String.prefix pat (String c s)); [right; lia |].
    destruct (IH (pos + 1)) as [H | H]; [now left | right; lia].
Qed.

(** A tag that does not occur is reported as [npos]. *)
Lemma find_absent pat s : ~ occurs pat s -> find s pat = npos.
Proof.
  unfold find. generalize 0. induction s as [|c s IH]; intros pos Habs; cbn [find_from].
  - destruct (String.prefix pat EmptyString) eqn:Hp; [| reflexivity].
    exfalso. apply Habs. destruct (prefix_append _ _ Hp) as [b Hb].
    exists EmptyString, b. exact Hb.
  - destruct (String.prefix pat (String c s)) eqn:Hp.
    + exfalso. apply Habs. destruct (prefix_append _ _ Hp) as [b Hb].
      exists EmptyString, b. exact Hb.
    + apply IH. intros (a & b & Hab). apply Habs.
      exists (String c a), b. simpl. now rewrite Hab.
Qed.

(** Characters that cannot start the tag are skipped over. *)
Lemma find_from_skip (P : ascii -> bool) c pat pre s : forall pos,
  P c = false -> all_chars P pre = true ->
  find_from (String c pat) (pre ++ s) pos
  = find_from (String c pat) s (pos + Z.of_nat (String.length pre)).
Proof.
  intros pos Hc. revert pos. induction pre as [|d pre IH]; intros pos Hpre.
  - simpl. f_equal. lia.
  - simpl in Hpre. apply andb_true_iff in Hpre as [Hd Hpre].
    cbn [append find_from String.prefix].
    destruct (ascii_dec c d) as [-> | Hne]; [congruence |].
    rewrite IH by assumption. f_equal. cbn [String.length]. lia.
Qed.

Lemma find_from_here pat b pos : find_from pat (pat ++ b) pos = pos.
Proof.
  destruct pat as [|c pat]; [destruct b; reflexivity |].
  cbn [append find_from]. 
  pose proof (prefix_append_refl (String c pat) b) as H. cbn [append] in H.
  now rewrite H.
Qed.

Lemma occurs_first_char (P : ascii -> bool) c pat s :
  P c = false -> all_chars P s = true -> ~ occurs (String c pat) s.
Proof.
  intros Hc Hs (a & b & Hab). subst s.
  rewrite all_chars_append in Hs. apply andb_true_iff in Hs as [_ Hs].
  simpl in Hs. rewrite Hc in Hs. discriminate.
Qed.

Lemma find_absent_c_str pat packet :
  ~ occurs pat packet -> find (c_str packet) pat = npos.
Proof. intros H. apply find_absent. intros Ho. apply H. now apply occurs_c_str. Qed.

Lemma all_chars_zeros P n : P "0"%char = true -> all_chars P (zeros n) = true.
Proof. intros H. induction n as [|n IH]; simpl; [reflexivity | now rewrite H, IH]. Qed.

Lemma length_zeros n : String.length (zeros n) = n.
Proof. induction n as [|n IH]; simpl; [reflexivity | now rewrite IH]. Qed.

(** ** No library call of the decoders is undefined *)

Lemma substr_defined s pos len : substr s pos len <> Undefined.
Proof. unfold substr. destruct (_ <? _); discriminate. Qed.

Lemma stoi_defined s : stoi s <> Undefined.
Proof.
  unfold stoi. destruct (read_integer s) as [[neg v]|]; [| discriminate].
  destruct (_ || _); discriminate.
Qed.

Lemma stoull_defined s : stoull s <> Undefined.
Proof.
  unfold stoull. destruct (read_integer s) as [[neg v]|]; [| discriminate].
  destruct (_ <? _); discriminate.
Qed.

Lemma strtod_finite_defined neg M b E : strtod_finite neg M b E <> Undefined.
Proof.
  unfold strtod_finite. destruct M; try discriminate.
  destruct (erange _ _ _ _); discriminate.
Qed.

Lemma stod_defined s : stod s <> Undefined.
Proof.
  unfold stod. destruct (read_sign (skip_space s)) as [neg s1].
  destruct (prefix_nocase "inf" s1); [discriminate |].
  destruct (prefix_nocase "nan" s1); [discriminate |].
  match goal with |- match ?h with _ => _ end <> _ => destruct h as [[M E]|] end.
  - apply strtod_finite_defined.
  - destruct (read_decimal s1) as [[M E]|]; [apply strtod_finite_defined | discriminate].
Qed.

Lemma Flat_Decode_defined packet :
  (String.length packet < BUFFER_SIZE)%nat -> Flat.Decode packet <> Undefined.
Proof.
  intros Hlen. unfold Flat.Decode. rewrite read_packet_fits by assumption.
  cbn [mbind result_bind].
  destruct (_ && _); [| discriminate].
  repeat match goal with
  | |- (substr ?s ?p ?l ≫= _) <> Undefined =>
      pose proof (substr_defined s p l);
      destruct (substr s p l); cbn [mbind result_bind]; [| discriminate | congruence]
  | |- (stoi ?s ≫= _) <> Undefined =>
      pose proof (stoi_defined s);
      destruct (stoi s); cbn [mbind result_bind]; [| discriminate | congruence]
  | |- (stod ?s ≫= _) <> Undefined =>
      pose proof (stod_defined s);
      destruct (stod s); cbn [mbind result_bind]; [| discriminate | congruence]
  | |- (stoull ?s ≫= _) <> Undefined =>
      pose proof (stoull_defined s);
      destruct (stoull s); cbn [mbind result_bind]; [| discriminate | congruence]
  end.
  discriminate.
Qed.

Lemma Hier_Decode_defined packet :
  (String.length packet < BUFFER_SIZE)%nat -> Hier.Decode packet <> Undefined.
Proof.
  intros Hlen. unfold Hier.Decode. rewrite read_packet_fits by assumption.
  cbn [mbind result_bind].
  destruct (_ && _); [| discriminate].
  repeat match goal with
  | |- (substr ?s ?p ?l ≫= _) <> Undefined =>
      pose proof (substr_defined s p l);
      destruct (substr s p l); cbn [mbind result_bind]; [| discriminate | congruence]
  | |- (stoi ?s ≫= _) <> Undefined =>
      pose proof (stoi_defined s);
      destruct (stoi s); cbn [mbind result_bind]; [| discriminate | congruence]
  | |- (stod ?s ≫= _) <> Undefined =>
      pose proof (stod_defined s);
      destruct (stod s); cbn [mbind result_bind]; [| discriminate | congruence]
  end.
  discriminate.
Qed.

Lemma Flat_Decode_overflow packet :
  (BUFFER_SIZE <= String.length packet)%nat -> Flat.Decode packet = Undefined.
Proof. intros H. unfold Flat.Decode. now rewrite read_packet_overflow. Qed.

Lemma Hier_Decode_overflow packet :
  (BUFFER_SIZE <= String.length packet)%nat -> Hier.Decode packet = Undefined.
Proof. intros H. unfold Hier.Decode. now rewrite read_packet_overflow. Qed.

Lemma Flat_Process_crash packet from g :
  Flat.ProcessCO2Data packet from g = Crash <-> Flat.Decode packet = Undefined.
Proof.
  unfold Flat.ProcessCO2Data. destruct (Flat.Decode packet) as [[r|]|e|]; split;
    (discriminate || reflexivity).
Qed.

Lemma Hier_Process_crash packet from g :
  Hier.ProcessData packet from g = Crash <-> Hier.Decode packet = Undefined.
Proof.
  unfold Hier.ProcessData. destruct (Hier.Decode packet) as [[r|]|e|]; split;
    (discriminate || reflexivity).
Qed.

(** * Decimal output and input of unsigned integers *)

Lemma digit_char_spec d :
  0 <= d <= 9 ->
  isdigit (digit_char d) = true /\ digit_value (digit_char d) = d.
Proof.
  intros Hd.
  assert (H : d = 0 \/ d = 1 \/ d = 2 \/ d = 3 \/ d = 4 \/ d = 5 \/ d = 6 \/
              d = 7 \/ d = 8 \/ d = 9) by lia.
  repeat (destruct H as [-> | H]; [split; reflexivity |]).
  subst d. split; reflexivity.
Qed.

Lemma put_digits_acc fuel : forall n acc,
  put_digits fuel n acc = put_digits fuel n EmptyString ++ acc.
Proof.
  induction fuel as [|fuel IH]; intros n acc; cbn [put_digits append]; [reflexivity |].
  destruct (n <? 10); [reflexivity |].
  rewrite IH, (IH _ (String _ EmptyString)), append_assoc. reflexivity.
Qed.

Lemma all_chars_put_digits fuel : forall n acc,
  all_chars isdigit acc = true -> all_chars isdigit (put_digits fuel n acc) = true.
Proof.
  induction fuel as [|fuel IH]; intros n acc Hacc; cbn [put_digits]; [exact Hacc |].
  assert (Hd : all_chars isdigit (String (digit_char (n mod 10)) acc) = true).
  { cbn [all_chars]. rewrite Hacc, andb_true_r.
    apply digit_char_spec. pose proof (Z.mod_pos_bound n 10). lia. }
  destruct (n <? 10); [exact Hd | now apply IH].
Qed.

Lemma length_put_digits fuel : forall n,
  (String.length (put_digits fuel n EmptyString) <= fuel)%nat /\
  (fuel <> 0%nat -> String.length (put_digits fuel n EmptyString) <> 0%nat).
Proof.
  induction fuel as [|fuel IH]; intros n; cbn [put_digits String.length];
    [split; [lia | congruence] |].
  destruct (n <? 10); [cbn [String.length]; split; [lia | congruence] |].
  rewrite put_digits_acc, length_append. cbn [String.length].
  destruct (IH (n / 10)) as [Hle _]. split; lia.
Qed.

(** Reading back what [put_digits] wrote, whatever follows. *)
Lemma read_put_digits fuel : forall n rest,
  0 <= n < 10 ^ Z.of_nat fuel ->
  read_digits (put_digits fuel n EmptyString ++ rest) 0 0
  = read_digits rest n (Z.of_nat (String.length (put_digits fuel n EmptyString))).
Proof.
  induction fuel as [|fuel IH]; intros n rest Hn.
  - change (10 ^ Z.of_nat 0) with 1 in Hn. assert (n = 0) by lia. now subst n.
  - rewrite Nat2Z.inj_succ, Z.pow_succ_r in Hn by lia.
    cbn [put_digits]. destruct (n <? 10) eqn:Hlt.
    + apply Z.ltb_lt in Hlt.
      rewrite Z.mod_small by lia.
      destruct (digit_char_spec n) as [Hd Hv]; [lia |].
      cbn [append read_digits String.length]. rewrite Hd, Hv. f_equal; lia.
    + apply Z.ltb_ge in Hlt.
      rewrite put_digits_acc, append_assoc, length_append.
      assert (Hq : 0 <= n / 10 < 10 ^ Z.of_nat fuel).
      { split; [apply Z.div_pos; lia | apply Z.div_lt_upper_bound; lia]. }
      rewrite (IH _ _ Hq).
      destruct (digit_char_spec (n mod 10)) as [Hd Hv];
        [pose proof (Z.mod_pos_bound n 10); lia |].
      cbn [append read_digits String.length]. rewrite Hd, Hv.
      pose proof (Z.div_mod n 10). f_equal; lia.
Qed.

Lemma all_chars_put_uint n : all_chars isdigit (put_uint n) = true.
Proof. now apply all_chars_put_digits. Qed.

Lemma length_put_uint n :
  (1 <= String.length (put_uint n) <= 20)%nat.
Proof.
  destruct (length_put_digits 20 n) as [H1 H2]. unfold put_uint.
  specialize (H2 ltac:(discriminate)). lia.
Qed.

Lemma read_digits_stop s acc n :
  match s with
  | String c _ => isdigit c = false
  | EmptyString => True
  end ->
  read_digits s acc n = (acc, n, s).
Proof. destruct s as [|c s]; cbn [read_digits]; [reflexivity |]. now intros ->. Qed.

(** A string of digits starts with a digit: no white space, no sign. *)
Lemma skip_sign_digits s :
  all_chars isdigit s = true -> read_sign (skip_space s) = (false, s).
Proof.
  destruct s as [|c s]; [reflexivity |]. cbn [all_chars skip_space].
  intros [Hc _]%andb_true_iff.
  assert (Hcode : 48 <= code c <= 57).
  { unfold isdigit in Hc. apply andb_true_iff in Hc as [H1 H2].
    apply Z.leb_le in H1, H2. lia. }
  replace (isspace c) with false.
  2:{ symmetry. unfold isspace. apply orb_false_iff. split.
      - apply Z.eqb_neq. lia.
      - apply andb_false_iff. right. apply Z.leb_gt. lia. }
  unfold read_sign.
  clear Hcode.
  destruct c as [[] [] [] [] [] [] [] []]; try reflexivity;
    vm_compute in Hc; discriminate.
Qed.

Lemma read_integer_put_uint n :
  0 <= n < 2 ^ 64 -> read_integer (put_uint n) = Some (false, n).
Proof.
  intros Hn. unfold read_integer.
  rewrite skip_sign_digits by apply all_chars_put_uint.
  pose proof (read_put_digits 20 n EmptyString) as H.
  rewrite append_empty_r in H. unfold put_uint. rewrite H.
  2:{ change (10 ^ Z.of_nat 20) with 100000000000000000000.
      change (2 ^ 64) with 18446744073709551616 in Hn. lia. }
  cbn [read_digits].
  destruct (length_put_digits 20 n) as [_ Hne].
  specialize (Hne ltac:(discriminate)).
  replace (Z.of_nat (String.length (put_digits 20 n EmptyString)) =? 0) with false
    by (symmetry; apply Z.eqb_neq; lia).
  reflexivity.
Qed.

(** [std::stoi] reads back an identifier below 2^31. *)
Lemma stoi_put_uint n :
  0 <= n < 2 ^ 31 -> stoi (put_uint n) = Return n.
Proof.
  intros Hn. unfold stoi. rewrite read_integer_put_uint.
  2:{ change (2 ^ 31) with 2147483648 in Hn.
      change (2 ^ 64) with 18446744073709551616. lia. }
  cbn [fst snd].
  destruct ((n <? INT_MIN) || (INT_MAX <? n)) eqn:H; [| reflexivity].
  exfalso. unfold INT_MIN, INT_MAX in H. change (2 ^ 31) with 2147483648 in *.
  apply orb_true_iff in H as [H | H]; apply Z.ltb_lt in H; lia.
Qed.

(** From 2^31 on it throws. *)
Lemma stoi_put_uint_large n :
  2 ^ 31 <= n < 2 ^ 64 -> stoi (put_uint n) = Throw out_of_range.
Proof.
  intros Hn. unfold stoi. rewrite read_integer_put_uint.
  2:{ change (2 ^ 31) with 2147483648 in Hn. lia. }
  replace (INT_MAX <? n) with true.
  - now rewrite orb_true_r.
  - symmetry. apply Z.ltb_lt. unfold INT_MAX.
    change (2 ^ 31) with 2147483648 in *. lia.
Qed.

Lemma stoull_put_uint n :
  0 <= n < 2 ^ 64 -> stoull (put_uint n) = Return n.
Proof.
  intros Hn. unfold stoull. rewrite read_integer_put_uint by assumption.
  unfold ULLONG_MAX.
  replace (2 ^ 64 - 1 <? n) with false by (symmetry; apply Z.ltb_ge; lia).
  reflexivity.
Qed.

(** * The text of a double *)

Lemma digit_numeric c : isdigit c = true -> numeric_char c = true.
Proof. intros H. unfold numeric_char. now rewrite H. Qed.

Lemma all_chars_strip_zeros P s :
  all_chars P s = true -> all_chars P (strip_zeros s) = true.
Proof.
  induction s as [|c s IH]; cbn [strip_zeros all_chars]; [reflexivity |].
  intros [Hc Hs]%andb_true_iff. specialize (IH Hs).
  destruct (strip_zeros s) as [|d t].
  - destruct (c =? "0")%char; cbn [all_chars]; [reflexivity | now rewrite Hc].
  - cbn [all_chars] in *. now rewrite Hc, IH.
Qed.

Lemma length_strip_zeros s :
  (String.length (strip_zeros s) <= String.length s)%nat.
Proof.
  induction s as [|c s IH]; cbn [strip_zeros String.length]; [lia |].
  destruct (strip_zeros s) as [|d t].
  - destruct (c =? "0")%char; cbn [String.length]; lia.
  - cbn [String.length] in *. lia.
Qed.

Lemma all_chars_with_fraction int frac :
  all_chars numeric_char int = true -> all_chars numeric_char frac = true ->
  all_chars numeric_char (with_fraction int frac) = true.
Proof.
  intros Hi Hf. unfold with_fraction.
  pose proof (all_chars_strip_zeros _ _ Hf) as Hs.
  destruct (strip_zeros frac) as [|d t]; [exact Hi |].
  rewrite !all_chars_append, Hi, Hs. reflexivity.
Qed.

Lemma length_with_fraction int frac :
  (String.length (with_fraction int frac)
   <= String.length int + 1 + String.length frac)%nat.
Proof.
  unfold with_fraction. pose proof (length_strip_zeros frac) as Hs.
  destruct (strip_zeros frac) as [|d t]; [lia |].
  rewrite !length_append. cbn [String.length] in *. lia.
Qed.

Lemma all_chars_numeric_put_uint n : all_chars numeric_char (put_uint n) = true.
Proof.
  apply (all_chars_weaken isdigit); [apply digit_numeric | apply all_chars_put_uint].
Qed.

Lemma all_chars_put_exponent X : all_chars numeric_char (put_exponent X) = true.
Proof.
  unfold put_exponent. rewrite !all_chars_append, all_chars_numeric_put_uint.
  destruct (X <? 0); destruct (Z.abs X <? 10); reflexivity.
Qed.

Lemma length_put_exponent X : (String.length (put_exponent X) <= 23)%nat.
Proof.
  unfold put_exponent. rewrite !length_append.
  pose proof (length_put_uint (Z.abs X)).
  destruct (X <? 0); destruct (Z.abs X <? 10); cbn [String.length]; lia.
Qed.

Lemma all_chars_put_general P m e :
  all_chars numeric_char (put_general P m e) = true.
Proof.
  unfold put_general. destruct (fraction_of m e) as [num den].
  match goal with
  | |- context [if ?c then (?a, ?b) else (?a', ?b')] =>
      destruct (if c then (a, b) else (a', b')) as [D X]
  end.
  assert (Hds : all_chars numeric_char (put_uint D) = true)
    by apply all_chars_numeric_put_uint.
  destruct ((X <? -4) || (P <=? X)); [| destruct (X <? 0)].
  - rewrite all_chars_append, all_chars_put_exponent, andb_true_r.
    apply all_chars_with_fraction; now apply all_chars_substring.
  - rewrite !all_chars_append. rewrite all_chars_zeros by reflexivity.
    now rewrite all_chars_strip_zeros.
  - apply all_chars_with_fraction; now apply all_chars_substring.
Qed.

Lemma length_put_general m e : (String.length (put_general 6 m e) <= 40)%nat.
Proof.
  unfold put_general. destruct (fraction_of m e) as [num den].
  match goal with
  | |- context [if ?c then (?a, ?b) else (?a', ?b')] =>
      destruct (if c then (a, b) else (a', b')) as [D X]
  end.
  pose proof (length_put_uint D) as HD.
  destruct ((X <? -4) || (6 <=? X)) eqn:Hsci; [| destruct (X <? 0) eqn:Hneg].
  - rewrite length_append.
    pose proof (length_put_exponent X).
    pose proof (length_with_fraction (substring 0 1 (put_uint D))
                  (substring 1 (Z.to_nat (6 - 1)) (put_uint D))).
    pose proof (length_substring_le (put_uint D) 0 1).
    pose proof (length_substring_le (put_uint D) 1 (Z.to_nat (6 - 1))).
    lia.
  - apply orb_false_iff in Hsci as [H1 H2].
    apply Z.ltb_ge in H1. apply Z.ltb_lt in Hneg.
    rewrite !length_append, length_zeros.
    pose proof (length_strip_zeros (put_uint D)).
    cbn [String.length]. lia.
  - apply orb_false_iff in Hsci as [H1 H2].
    apply Z.leb_gt in H2. apply Z.ltb_ge in Hneg.
    pose proof (length_with_fraction (substring 0 (Z.to_nat (X + 1)) (put_uint D))
                  (substring (Z.to_nat (X + 1)) (Z.to_nat (6 - 1 - X)) (put_uint D))).
    pose proof (length_substring_le (put_uint D) 0 (Z.to_nat (X + 1))).
    pose proof (length_substring_le (put_uint D) (Z.to_nat (X + 1)) (Z.to_nat (6 - 1 - X))).
    lia.
Qed.

(** The text of a double is made of digits and of [. e + - i n f a]. *)
Lemma all_chars_put_double x : all_chars numeric_char (put_double x) = true.
Proof.
  destruct x as [s | s | | s m e]; cbn [put_double];
    try (destruct s; reflexivity); [reflexivity |].
  rewrite all_chars_append, all_chars_put_general. now destruct s.
Qed.

Lemma length_put_double x : (String.length (put_double x) <= 41)%nat.
Proof.
  destruct x as [s | s | | s m e]; cbn [put_double];
    try (destruct s; cbn; lia); [cbn; lia |].
  rewrite length_append. pose proof (length_put_general m e).
  destruct s; cbn [put_sign String.length]; lia.
Qed.

(** * Locating the fields of a well-formed payload *)

Lemma find_from_miss pat c s pos :
  String.prefix pat (String c s) = false ->
  find_from pat (String c s) pos = find_from pat s (pos + 1).
Proof. intros H. cbn [find_from]. now rewrite H. Qed.

Lemma substr_middle pre mid post :
  substr (pre ++ mid ++ post) (Z.of_nat (String.length pre))
         (Z.of_nat (String.length mid)) = Return mid.
Proof.
  unfold substr. rewrite !length_append.
  replace (_ <? _) with false by (symmetry; apply Z.ltb_ge; lia).
  rewrite Z.min_l by lia. rewrite !Nat2Z.id.
  now rewrite substring_append_middle.
Qed.

Lemma substr_tail pre mid len :
  Z.of_nat (String.length mid) <= len ->
  substr (pre ++ mid) (Z.of_nat (String.length pre)) len = Return mid.
Proof.
  intros Hlen. unfold substr. rewrite !length_append.
  replace (_ <? _) with false by (symmetry; apply Z.ltb_ge; lia).
  rewrite Z.min_r by lia.
  replace (Z.of_nat (String.length pre + String.length mid) - Z.of_nat (String.length pre))
    with (Z.of_nat (String.length mid)) by lia.
  rewrite !Nat2Z.id.
  rewrite <- (append_empty_r mid) at 2.
  now rewrite substring_append_middle.
Qed.

Lemma size_t_small z : 0 <= z < 2 ^ 64 -> size_t z = z.
Proof. intros H. unfold size_t. now apply Z.mod_small. Qed.

Lemma digit_not c tag :
  existsb (Ascii.eqb tag) ["S"; "C"; "T"; "Z"]%char = true ->
  numeric_char c = true -> negb (c =? tag)%char = true.
Proof.
  intros Htag Hc. apply negb_true_iff. apply Ascii.eqb_neq. intros ->.
  destruct (existsb_exists (Ascii.eqb tag) ["S"; "C"; "T"; "Z"]%char) as [H _].
  destruct (H Htag) as (d & Hin & Hd). apply Ascii.eqb_eq in Hd. subst d.
  simpl in Hin. destruct Hin as [<- | [<- | [<- | [<- | []]]]]; discriminate.
Qed.

Lemma all_chars_not_tag tag s :
  existsb (Ascii.eqb tag) ["S"; "C"; "T"; "Z"]%char = true ->
  all_chars numeric_char s = true ->
  all_chars (fun c => negb (c =? tag)%char) s = true.
Proof.
  intros Htag. apply all_chars_weaken. intros c. now apply digit_not.
Qed.

Lemma numeric_not_nul s :
  all_chars numeric_char s = true ->
  all_chars (fun c => negb (c =? Ascii.zero)%char) s = true.
Proof.
  apply all_chars_weaken. intros c Hc. apply negb_true_iff, Ascii.eqb_neq.
  intros ->. discriminate.
Qed.

Ltac chars :=
  rewrite ?all_chars_append;
  repeat (apply andb_true_iff; split);
  try reflexivity;
  try (apply all_chars_not_tag; [reflexivity | assumption]);
  try (apply numeric_not_nul; assumption).

Section FlatText.

Variables A B C D : string.
Hypothesis HA : all_chars numeric_char A = true.
Hypothesis HB : all_chars numeric_char B = true.
Hypothesis HC : all_chars numeric_char C = true.
Hypothesis HD : all_chars numeric_char D = true.

Let data : string :=
  "SENSOR:" ++ A ++ ",COMPANY:" ++ B ++ ",CO2:" ++ C ++ ",TIME:" ++ D.

Let a := Z.of_nat (String.length A).
Let b := Z.of_nat (String.length B).
Let c := Z.of_nat (String.length C).

Lemma flat_find_sensor : find data "SENSOR:" = 0.
Proof. unfold find, data. apply find_from_here. Qed.

Lemma flat_find_company : find data "COMPANY:" = a + 8.
Proof.
  unfold find, data.
  replace ("SENSOR:" ++ A ++ ",COMPANY:" ++ B ++ ",CO2:" ++ C ++ ",TIME:" ++ D)
    with (("SENSOR:" ++ A ++ ",") ++ "COMPANY:" ++ B ++ ",CO2:" ++ C ++ ",TIME:" ++ D)
    by (rewrite !append_assoc; reflexivity).
  rewrite (find_from_skip (fun c => negb (c =? "C")%char)) by (try reflexivity; chars).
  rewrite find_from_here, !length_append. cbn [String.length]. unfold a. lia.
Qed.

Lemma flat_find_co2 : find data "CO2:" = a + b + 17.
Proof.
  unfold find, data.
  replace ("SENSOR:" ++ A ++ ",COMPANY:" ++ B ++ ",CO2:" ++ C ++ ",TIME:" ++ D)
    with (("SENSOR:" ++ A ++ ",") ++
          String "C" (("OMPANY:" ++ B ++ ",") ++ "CO2:" ++ C ++ ",TIME:" ++ D))
    by (rewrite !append_assoc; reflexivity).
  rewrite (find_from_skip (fun c => negb (c =? "C")%char)) by (try reflexivity; chars).
  rewrite find_from_miss by reflexivity.
  rewrite (find_from_skip (fun c => negb (c =? "C")%char)) by (try reflexivity; chars).
  rewrite find_from_here, !length_append. cbn [String.length]. unfold a, b. lia.
Qed.

Lemma flat_find_time : find data "TIME:" = a + b + c + 22.
Proof.
  unfold find, data.
  replace ("SENSOR:" ++ A ++ ",COMPANY:" ++ B ++ ",CO2:" ++ C ++ ",TIME:" ++ D)
    with (("SENSOR:" ++ A ++ ",COMPANY:" ++ B ++ ",CO2:" ++ C ++ ",") ++ "TIME:" ++ D)
    by (rewrite !append_assoc; reflexivity).
  rewrite (find_from_skip (fun c => negb (c =? "T")%char)) by (try reflexivity; chars).
  rewrite find_from_here, !length_append. cbn [String.length]. unfold a, b, c. lia.
Qed.

Lemma flat_data_length :
  Z.of_nat (String.length data) = a + b + c + Z.of_nat (String.length D) + 27.
Proof. unfold data. rewrite !length_append. cbn [String.length]. unfold a, b, c. lia. Qed.

Lemma flat_data_c_str : c_str data = data.
Proof. apply c_str_id. unfold data. chars. Qed.

(** On a payload of the sensors' shape, the decoder hands exactly the four
    field texts to [stoi], [stoi], [stod] and [stoull]. *)
Lemma Flat_Decode_text :
  (String.length data < 1024)%nat ->
  Flat.Decode data =
    (sensorId ← stoi A; companyId ← stoi B; co2Value ← stod C; timestamp ← stoull D;
     Return (Flat.Reading {| Flat.sensorId := uint32_t sensorId;
                             Flat.companyId := uint32_t companyId;
                             Flat.co2Value := co2Value;
                             Flat.timestamp := timestamp |})).
Proof.
  intros Hlen. unfold Flat.Decode.
  rewrite read_packet_fits by assumption. rewrite flat_data_c_str.
  cbn [mbind result_bind].
  rewrite flat_find_sensor, flat_find_company, flat_find_co2, flat_find_time.
  pose proof flat_data_length as HL.
  assert (Hbig : 2 ^ 64 = 18446744073709551616) by reflexivity.
  assert (Ha : 0 <= a) by (unfold a; lia).
  assert (Hb : 0 <= b) by (unfold b; lia).
  assert (Hc : 0 <= c) by (unfold c; lia).
  unfold npos.
  replace (0 =? 2 ^ 64 - 1) with false by (symmetry; apply Z.eqb_neq; lia).
  replace (a + 8 =? 2 ^ 64 - 1) with false by (symmetry; apply Z.eqb_neq; lia).
  replace (a + b + 17 =? 2 ^ 64 - 1) with false by (symmetry; apply Z.eqb_neq; lia).
  replace (a + b + c + 22 =? 2 ^ 64 - 1) with false by (symmetry; apply Z.eqb_neq; lia).
  cbn [negb andb].
  rewrite !size_t_small by lia.
  (* SENSOR *)
  replace (substr data (0 + 7) (a + 8 - 0 - 8)) with (@Return string A).
  2:{ symmetry. unfold data.
      replace (0 + 7) with (Z.of_nat (String.length "SENSOR:")) by reflexivity.
      replace (a + 8 - 0 - 8) with (Z.of_nat (String.length A)) by (unfold a; lia).
      apply substr_middle. }
  cbn [mbind result_bind].
  destruct (stoi A) as [sensorId | e |]; cbn [mbind result_bind]; try reflexivity.
  (* COMPANY *)
  replace (substr data (a + 8 + 8) (a + b + 17 - (a + 8) - 9)) with (@Return string B).
  2:{ symmetry. unfold data.
      replace ("SENSOR:" ++ A ++ ",COMPANY:" ++ B ++ ",CO2:" ++ C ++ ",TIME:" ++ D)
        with (("SENSOR:" ++ A ++ ",COMPANY:") ++ B ++ ",CO2:" ++ C ++ ",TIME:" ++ D)
        by (rewrite !append_assoc; reflexivity).
      replace (a + 8 + 8) with (Z.of_nat (String.length ("SENSOR:" ++ A ++ ",COMPANY:")))
        by (rewrite !length_append; cbn [String.length]; unfold a; lia).
      replace (a + b + 17 - (a + 8) - 9) with (Z.of_nat (String.length B)) by (unfold b; lia).
      apply substr_middle. }
  cbn [mbind result_bind].
  destruct (stoi B) as [companyId | e |]; cbn [mbind result_bind]; try reflexivity.
  (* CO2 *)
  replace (substr data (a + b + 17 + 4) (a + b + c + 22 - (a + b + 17) - 5))
    with (@Return string C).
  2:{ symmetry. unfold data.
      replace ("SENSOR:" ++ A ++ ",COMPANY:" ++ B ++ ",CO2:" ++ C ++ ",TIME:" ++ D)
        with (("SENSOR:" ++ A ++ ",COMPANY:" ++ B ++ ",CO2:") ++ C ++ ",TIME:" ++ D)
        by (rewrite !append_assoc; reflexivity).
      replace (a + b + 17 + 4)
        with (Z.of_nat (String.length ("SENSOR:" ++ A ++ ",COMPANY:" ++ B ++ ",CO2:")))
        by (rewrite !length_append; cbn [String.length]; unfold a, b; lia).
      replace (a + b + c + 22 - (a + b + 17) - 5) with (Z.of_nat (String.length C))
        by (unfold c; lia).
      apply substr_middle. }
  cbn [mbind result_bind].
  destruct (stod C) as [co2Value | e |]; cbn [mbind result_bind]; try reflexivity.
  (* TIME *)
  replace (substr data (a + b + c + 22 + 5) (2 ^ 64 - 1)) with (@Return string D).
  2:{ symmetry. unfold data.
      replace ("SENSOR:" ++ A ++ ",COMPANY:" ++ B ++ ",CO2:" ++ C ++ ",TIME:" ++ D)
        with (("SENSOR:" ++ A ++ ",COMPANY:" ++ B ++ ",CO2:" ++ C ++ ",TIME:") ++ D)
        by (rewrite !append_assoc; reflexivity).
      replace (a + b + c + 22 + 5)
        with (Z.of_nat (String.length
                ("SENSOR:" ++ A ++ ",COMPANY:" ++ B ++ ",CO2:" ++ C ++ ",TIME:")))
        by (rewrite !length_append; cbn [String.length]; unfold a, b, c; lia).
      apply substr_tail. lia. }
  reflexivity.
Qed.

End FlatText.

Section HierText.

Variables A B C : string.
Hypothesis HA : all_chars numeric_char A = true.
Hypothesis HB : all_chars numeric_char B = true.
Hypothesis HC : all_chars numeric_char C = true.

Let data : string := "SENSOR:" ++ A ++ ",ZONE:" ++ B ++ ",CO2:" ++ C.

Let a := Z.of_nat (String.length A).
Let b := Z.of_nat (String.length B).

Lemma hier_find_sensor : find data "SENSOR:" = 0.
Proof. unfold find, data. apply find_from_here. Qed.

Lemma hier_find_zone : find data "ZONE:" = a + 8.
Proof.
  unfold find, data.
  replace ("SENSOR:" ++ A ++ ",ZONE:" ++ B ++ ",CO2:" ++ C)
    with (("SENSOR:" ++ A ++ ",") ++ "ZONE:" ++ B ++ ",CO2:" ++ C)
    by (rewrite !append_assoc; reflexivity).
  rewrite (find_from_skip (fun c => negb (c =? "Z")%char)) by (try reflexivity; chars).
  rewrite find_from_here, !length_append. cbn [String.length]. unfold a. lia.
Qed.

Lemma hier_find_co2 : find data "CO2:" = a + b + 14.
Proof.
  unfold find, data.
  replace ("SENSOR:" ++ A ++ ",ZONE:" ++ B ++ ",CO2:" ++ C)
    with (("SENSOR:" ++ A ++ ",ZONE:" ++ B ++ ",") ++ "CO2:" ++ C)
    by (rewrite !append_assoc; reflexivity).
  rewrite (find_from_skip (fun c => negb (c =? "C")%char)) by (try reflexivity; chars).
  rewrite find_from_here, !length_append. cbn [String.length]. unfold a, b. lia.
Qed.

Lemma hier_data_length :
  Z.of_nat (String.length data) = a + b + Z.of_nat (String.length C) + 18.
Proof. unfold data. rewrite !length_append. cbn [String.length]. unfold a, b. lia. Qed.

Lemma hier_data_c_str : c_str data = data.
Proof. apply c_str_id. unfold data. chars. Qed.

Lemma Hier_Decode_text :
  (String.length data < 1024)%nat ->
  Hier.Decode data =
    (sensorId ← stoi A; zoneId ← stoi B; co2Value ← stod C;
     Return (Hier.Reading {| Hier.sensorId := uint32_t sensorId;
                             Hier.zoneId := uint32_t zoneId;
                             Hier.co2Value := co2Value |})).
Proof.
  intros Hlen. unfold Hier.Decode.
  rewrite read_packet_fits by assumption. rewrite hier_data_c_str.
  cbn [mbind result_bind].
  rewrite hier_find_sensor, hier_find_zone, hier_find_co2.
  pose proof hier_data_length as HL.
  assert (Hbig : 2 ^ 64 = 18446744073709551616) by reflexivity.
  assert (Ha : 0 <= a) by (unfold a; lia).
  assert (Hb : 0 <= b) by (unfold b; lia).
  unfold npos.
  replace (0 =? 2 ^ 64 - 1) with false by (symmetry; apply Z.eqb_neq; lia).
  replace (a + 8 =? 2 ^ 64 - 1) with false by (symmetry; apply Z.eqb_neq; lia).
  replace (a + b + 14 =? 2 ^ 64 - 1) with false by (symmetry; apply Z.eqb_neq; lia).
  cbn [negb andb].
  rewrite !size_t_small by lia.
  replace (substr data (0 + 7) (a + 8 - 0 - 8)) with (@Return string A).
  2:{ symmetry. unfold data.
      replace (0 + 7) with (Z.of_nat (String.length "SENSOR:")) by reflexivity.
      replace (a + 8 - 0 - 8) with (Z.of_nat (String.length A)) by (unfold a; lia).
      apply substr_middle. }
  cbn [mbind result_bind].
  destruct (stoi A) as [sensorId | e |]; cbn [mbind result_bind]; try reflexivity.
  replace (substr data (a + 8 + 5) (a + b + 14 - (a + 8) - 6)) with (@Return string B).
  2:{ symmetry. unfold data.
      replace ("SENSOR:" ++ A ++ ",ZONE:" ++ B ++ ",CO2:" ++ C)
        with (("SENSOR:" ++ A ++ ",ZONE:") ++ B ++ ",CO2:" ++ C)
        by (rewrite !append_assoc; reflexivity).
      replace (a + 8 + 5) with (Z.of_nat (String.length ("SENSOR:" ++ A ++ ",ZONE:")))
        by (rewrite !length_append; cbn [String.length]; unfold a; lia).
      replace (a + b + 14 - (a + 8) - 6) with (Z.of_nat (String.length B)) by (unfold b; lia).
      apply substr_middle. }
  cbn [mbind result_bind].
  destruct (stoi B) as [zoneId | e |]; cbn [mbind result_bind]; try reflexivity.
  replace (substr data (a + b + 14 + 4) (2 ^ 64 - 1)) with (@Return string C).
  2:{ symmetry. unfold data.
      replace ("SENSOR:" ++ A ++ ",ZONE:" ++ B ++ ",CO2:" ++ C)
        with (("SENSOR:" ++ A ++ ",ZONE:" ++ B ++ ",CO2:") ++ C)
        by (rewrite !append_assoc; reflexivity).
      replace (a + b + 14 + 4)
        with (Z.of_nat (String.length ("SENSOR:" ++ A ++ ",ZONE:" ++ B ++ ",CO2:")))
        by (rewrite !length_append; cbn [String.length]; unfold a, b; lia).
      apply substr_tail. lia. }
  reflexivity.
Qed.

End HierText.

(** ** What the decoders make of the sensors' own payloads *)

Lemma Flat_Encode_length r : (String.length (Flat.Encode r) < 1024)%nat.
Proof.
  unfold Flat.Encode. rewrite !length_append. cbn [String.length].
  pose proof (length_put_uint (Flat.sensorId r)).
  pose proof (length_put_uint (Flat.companyId r)).
  pose proof (length_put_uint (Flat.timestamp r)).
  pose proof (length_put_double (Flat.co2Value r)). lia.
Qed.

Lemma Hier_Encode_length r : (String.length (Hier.Encode r) < 1024)%nat.
Proof.
  unfold Hier.Encode. rewrite !length_append. cbn [String.length].
  pose proof (length_put_uint (Hier.sensorId r)).
  pose proof (length_put_uint (Hier.zoneId r)).
  pose proof (length_put_double (Hier.co2Value r)). lia.
Qed.

Lemma Flat_Decode_Encode r :
  Flat.Decode (Flat.Encode r) =
    (sensorId ← stoi (put_uint (Flat.sensorId r));
     companyId ← stoi (put_uint (Flat.companyId r));
     co2Value ← stod (put_double (Flat.co2Value r));
     timestamp ← stoull (put_uint (Flat.timestamp r));
     Return (Flat.Reading {| Flat.sensorId := uint32_t sensorId;
                             Flat.companyId := uint32_t companyId;
                             Flat.co2Value := co2Value;
                             Flat.timestamp := timestamp |})).
Proof.
  apply Flat_Decode_text;
    try apply all_chars_numeric_put_uint; try apply all_chars_put_double.
  apply Flat_Encode_length.
Qed.

Lemma Hier_Decode_Encode r :
  Hier.Decode (Hier.Encode r) =
    (sensorId ← stoi (put_uint (Hier.sensorId r));
     zoneId ← stoi (put_uint (Hier.zoneId r));
     co2Value ← stod (put_double (Hier.co2Value r));
     Return (Hier.Reading {| Hier.sensorId := uint32_t sensorId;
                             Hier.zoneId := uint32_t zoneId;
                             Hier.co2Value := co2Value |})).
Proof.
  apply Hier_Decode_text;
    try apply all_chars_numeric_put_uint; try apply all_chars_put_double.
  apply Hier_Encode_length.
Qed.

(** * Doubles *)

(** ** Comparison *)

Lemma SFcompare_antisym x y :
  SFcompare y x = option_map CompOpp (SFcompare x y).
Proof.
  destruct x as [sx | sx | | sx mx ex], y as [sy | sy | | sy my ey];
    try (destruct sx); try (destruct sy); try reflexivity;
    cbn [SFcompare option_map]; f_equal;
    rewrite (Z.compare_antisym ex ey);
    destruct (ex ?= ey); cbn [CompOpp]; try reflexivity;
    rewrite (Pos.compare_cont_antisym mx my Eq); reflexivity.
Qed.

(** [!(x < y)] gives [y <= x] as soon as neither is a NaN. *)
Lemma not_lt_le x y :
  is_nan x = false -> is_nan y = false -> flt x y = false -> fle y x = true.
Proof.
  unfold flt, fle, SFltb, SFleb. intros Hx Hy. rewrite (SFcompare_antisym x y).
  destruct (SFcompare x y) as [[] |] eqn:Hc; cbn [option_map CompOpp];
    try reflexivity; try discriminate.
  destruct x, y; try discriminate; cbn in Hc;
    repeat match goal with s : bool |- _ => destruct s end; discriminate.
Qed.

Lemma fle_not_nan x y : fle x y = true -> is_nan x = false /\ is_nan y = false.
Proof.
  unfold fle, SFleb. destruct x, y; cbn; try discriminate; auto.
Qed.

(** ** Rounding never invents a NaN *)

Lemma iter_pos_invariant {A : Type} (P : A -> Prop) (f : A -> A) :
  (forall a, P a -> P (f a)) -> forall n a, P a -> P (SpecFloat.iter_pos f n a).
Proof.
  intros Hf. induction n as [n IH | n IH |]; intros a Ha; cbn [SpecFloat.iter_pos]; auto.
Qed.

Lemma shr_1_nonneg mrs : 0 <= shr_m mrs -> 0 <= shr_m (shr_1 mrs).
Proof.
  destruct mrs as [m r s]. cbn [shr_m]. intros Hm. unfold shr_1.
  destruct m as [| p | p]; [cbn; lia | | lia].
  destruct p; cbn [shr_m]; lia.
Qed.

Lemma shr_nonneg mrs e n : 0 <= shr_m mrs -> 0 <= shr_m (fst (shr mrs e n)).
Proof.
  intros Hm. unfold shr. destruct n as [| p | p]; cbn [fst]; try assumption.
  apply (iter_pos_invariant (fun mrs => 0 <= shr_m mrs)); [apply shr_1_nonneg | assumption].
Qed.

Lemma shr_fexp_nonneg pr em m e l :
  0 <= m -> 0 <= shr_m (fst (shr_fexp pr em m e l)).
Proof.
  intros Hm. unfold shr_fexp. apply shr_nonneg.
  destruct l as [| []]; cbn [shr_record_of_loc shr_m]; assumption.
Qed.

Lemma round_nearest_even_nonneg m l : 0 <= m -> 0 <= round_nearest_even m l.
Proof.
  intros Hm. unfold round_nearest_even.
  destruct l as [| []]; try assumption; try lia. destruct (Z.even m); lia.
Qed.

Lemma binary_round_aux_not_nan pr em sx mx ex lx :
  0 <= mx -> is_nan (binary_round_aux pr em sx mx ex lx) = false.
Proof.
  intros Hm. unfold binary_round_aux.
  pose proof (shr_fexp_nonneg pr em mx ex lx Hm) as H1.
  destruct (shr_fexp pr em mx ex lx) as [mrs' e']. cbn [fst] in H1.
  pose proof (shr_fexp_nonneg pr em
                (round_nearest_even (shr_m mrs') (loc_of_shr_record mrs')) e' loc_Exact
                (round_nearest_even_nonneg _ _ H1)) as H2.
  destruct (shr_fexp pr em _ e' loc_Exact) as [mrs'' e'']. cbn [fst] in H2.
  destruct (shr_m mrs'') as [| p | p]; [reflexivity | | lia].
  now destruct (e'' <=? em - pr).
Qed.

Lemma binary_round_not_nan pr em sx mx ex :
  is_nan (binary_round pr em sx mx ex) = false.
Proof.
  unfold binary_round. destruct (shl_align _ _ _) as [mz ez].
  now apply binary_round_aux_not_nan.
Qed.

Lemma binary_normalize_not_nan pr em m e s :
  is_nan (binary_normalize pr em m e s) = false.
Proof.
  destruct m; cbn [binary_normalize]; [reflexivity | |]; apply binary_round_not_nan.
Qed.

Lemma double_of_Z_not_nan z : is_nan (double_of_Z z) = false.
Proof. apply binary_normalize_not_nan. Qed.

(** A sum is a NaN only if a summand is, or for infinities of opposite
    signs. *)
Lemma fadd_not_nan x y :
  is_nan x = false ->
  match y with S754_zero _ | S754_finite _ _ _ => True | _ => False end ->
  is_nan (fadd x y) = false.
Proof.
  intros Hx Hy. unfold fadd.
  destruct x as [sx | sx | | sx mx ex], y as [sy | sy | | sy my ey];
    try discriminate; try contradiction; cbn [SFadd is_nan]; try reflexivity.
  - now destruct sx, sy.
  - apply binary_normalize_not_nan.
Qed.

Lemma fdiv_not_nan x y :
  match x with S754_zero _ | S754_finite _ _ _ => True | _ => False end ->
  match y with S754_finite _ _ _ => True | _ => False end ->
  is_nan (fdiv x y) = false.
Proof.
  intros Hx Hy. unfold fdiv.
  destruct x as [sx | sx | | sx mx ex], y as [sy | sy | | sy my ey];
    try contradiction; cbn [SFdiv is_nan]; try reflexivity.
  unfold SFdiv_core_binary.
  match goal with
  | |- context [Z.div_eucl ?n ?d] =>
      pose proof (Z_div_mod n d ltac:(lia)) as Hdm;
      assert (Hn : 0 <= n);
      [| destruct (Z.div_eucl n d) as [q r]]
  end.
  - match goal with |- 0 <= match ?s with _ => _ end => destruct s end; try lia.
    apply Z.shiftl_nonneg. lia.
  - apply binary_round_aux_not_nan. destruct Hdm as [Hq Hr]. nia.
Qed.

Lemma fmul_not_nan x y :
  is_nan x = false ->
  match y with S754_finite _ _ _ => True | _ => False end ->
  is_nan (fmul x y) = false.
Proof.
  intros Hx Hy. unfold fmul.
  destruct x as [sx | sx | | sx mx ex], y as [sy | sy | | sy my ey];
    try discriminate; try contradiction; cbn [SFmul is_nan]; try reflexivity.
  apply binary_round_aux_not_nan. lia.
Qed.

(** ** Integers below 2^53 convert exactly *)

Lemma digits2_pos_iter_xO p k :
  digits2_pos (Pos.iter xO p k) = (digits2_pos p + k)%positive.
Proof.
  induction k as [| k IH] using Pos.peano_ind.
  - cbn. lia.
  - rewrite Pos.iter_succ. cbn [digits2_pos]. rewrite IH. lia.
Qed.

Lemma digits2_pos_lower p : 2 ^ (Zpos (digits2_pos p) - 1) <= Zpos p.
Proof.
  induction p as [p IH | p IH |]; cbn [digits2_pos]; [| | cbn; lia].
  - rewrite Pos2Z.inj_succ.
    replace (Z.succ (Zpos (digits2_pos p)) - 1) with (Z.succ (Zpos (digits2_pos p) - 1)) by lia.
    rewrite Z.pow_succ_r by lia. lia.
  - rewrite Pos2Z.inj_succ.
    replace (Z.succ (Zpos (digits2_pos p)) - 1) with (Z.succ (Zpos (digits2_pos p) - 1)) by lia.
    rewrite Z.pow_succ_r by lia. lia.
Qed.

Lemma binary_round_aux_canonical s m e :
  fexp prec emax (Zdigits2 (Zpos m) + e) = e -> e <= emax - prec ->
  binary_round_aux prec emax s (Zpos m) e loc_Exact = S754_finite s m e.
Proof.
  intros Hf He. unfold binary_round_aux, shr_fexp.
  cbn [shr_record_of_loc]. rewrite Hf, Z.sub_diag. cbn [shr shr_m loc_of_shr_record].
  cbn [round_nearest_even shr_record_of_loc]. rewrite Hf, Z.sub_diag. cbn [shr shr_m].
  now apply Z.leb_le in He as ->.
Qed.

(** [(double)n] for [0 < n < 2^53] is a finite, positive double. *)
Lemma double_of_Z_finite z :
  0 < z < 2 ^ 53 -> exists m e, double_of_Z z = S754_finite false m e.
Proof.
  intros Hz. destruct z as [| p | p]; try lia.
  unfold double_of_Z. cbn [binary_normalize]. unfold binary_round.
  pose proof (digits2_pos_lower p) as Hlow.
  assert (Hd : Zpos (digits2_pos p) <= 53).
  { destruct (Z_le_gt_dec (Zpos (digits2_pos p)) 53) as [H | H]; [exact H |].
    assert (2 ^ 53 <= 2 ^ (Zpos (digits2_pos p) - 1)) by (apply Z.pow_le_mono_r; lia).
    lia. }
  assert (Hf : fexp prec emax (Zpos (digits2_pos p) + 0) = Zpos (digits2_pos p) - 53).
  { unfold fexp, emin, prec, emax. lia. }
  rewrite Hf. unfold shl_align.
  destruct (Zpos (digits2_pos p) - 53 - 0) as [| k | k] eqn:Hk; try lia.
  - exists p, 0. apply binary_round_aux_canonical.
    + cbn [Zdigits2]. unfold fexp, emin, prec, emax. lia.
    + unfold emax, prec. lia.
  - exists (Pos.iter xO p k), (Zpos (digits2_pos p) - 53).
    apply binary_round_aux_canonical.
    + cbn [Zdigits2]. rewrite digits2_pos_iter_xO. unfold fexp, emin, prec, emax. lia.
    + unfold emax, prec. lia.
Qed.

(** ** Clamping *)

Lemma flat_clamp_bounds x :
  is_nan x = false ->
  let y := if flt x lit_300 then lit_300 else x in
  let z := if fgt y lit_3000 then lit_3000 else y in
  fle lit_300 z = true /\ fle z lit_3000 = true.
Proof.
  intros Hx. cbv zeta.
  destruct (flt x lit_300) eqn:H1.
  - change (fgt lit_300 lit_3000) with false. split; reflexivity.
  - destruct (fgt x lit_3000) eqn:H2.
    + split; reflexivity.
    + split; apply not_lt_le; try assumption; reflexivity.
Qed.

Lemma hier_clamp_bounds x :
  let z := std_max lit_300 (std_min lit_3000 x) in
  fle lit_300 z = true /\ fle z lit_3000 = true.
Proof.
  cbv zeta. unfold std_min.
  destruct (flt x lit_3000) eqn:H1.
  - unfold std_max. destruct (flt lit_300 x) eqn:H2.
    + split.
      * unfold flt, fle, SFltb, SFleb in *. now destruct (SFcompare lit_300 x) as [[]|].
      * unfold flt, fle, SFltb, SFleb in *. now destruct (SFcompare x lit_3000) as [[]|].
    + split; reflexivity.
  - split; reflexivity.
Qed.

(** A value between -50 and 50 is a number, and finite. *)
Lemma variation_finite v :
  fle lit_m50 v = true -> fle v lit_50 = true ->
  match v with S754_zero _ | S754_finite _ _ _ => True | _ => False end.
Proof.
  destruct v as [s | s | | s m e]; try exact (fun _ _ => I); try discriminate.
  destruct s; [discriminate | intros _; discriminate].
Qed.

(** * The receive buffer bound *)

(** C10.  Both gateways copy the datagram into [buffer[1024]] and write the
    terminator at index [GetSize()].  For a datagram of at most 1023 bytes
    the terminator is stored inside the array, [data] is the payload up to
    its first NUL and no call of the decode path is undefined; from 1024
    bytes on the write is outside the array in every buffer of that size,
    and both [ProcessCO2Data] and [ProcessData] are undefined. *)
Theorem receive_buffer_bound (packet : string) :
  ((String.length packet < 1024)%nat ->
     read_packet packet = Return (c_str packet) /\
     (forall from g, Flat.ProcessCO2Data packet from g <> Crash) /\
     (forall from g, Hier.ProcessData packet from g <> Crash)) /\
  ((1024 <= String.length packet)%nat ->
     (forall buffer c, length buffer = BUFFER_SIZE ->
        store buffer (Z.of_nat (String.length packet)) c = Undefined) /\
     read_packet packet = Undefined /\
     (forall from g, Flat.ProcessCO2Data packet from g = Crash) /\
     (forall from g, Hier.ProcessData packet from g = Crash)).
Proof.
  split; intros Hlen.
  - split; [now apply read_packet_fits |]. split; intros from g H.
    + apply Flat_Process_crash in H. now apply Flat_Decode_defined in H.
    + apply Hier_Process_crash in H. now apply Hier_Decode_defined in H.
  - split; [| split; [now apply read_packet_overflow | split; intros from g]].
    + intros buffer c Hbuf. unfold store. rewrite Hbuf.
      replace (Z.of_nat (String.length packet) <? Z.of_nat BUFFER_SIZE) with false
        by (symmetry; apply Z.ltb_ge; unfold BUFFER_SIZE; lia).
      now rewrite andb_false_r.
    + apply Flat_Process_crash. now apply Flat_Decode_overflow.
    + apply Hier_Process_crash. now apply Hier_Decode_overflow.
Qed.

Lemma receive_buffer_bound_witness :
  (forall from g, Flat.ProcessCO2Data "SENSOR:1" from g <> Crash) /\
  (forall from g, Hier.ProcessData (zeros 1024) from g = Crash).
Proof.
  split.
  - refine (proj1 (proj2 (proj1 (receive_buffer_bound "SENSOR:1") _))).
    simpl. lia.
  - refine (proj2 (proj2 (proj2 (proj2 (receive_buffer_bound (zeros 1024)) _)))).
    rewrite length_zeros. lia.
Defined.

(** * Payloads without a required tag *)

(** C2, as amended.  For every payload of at most 1023 bytes in which one
    of the required tags does not occur, the decoder answers
    [MalformedPacket] and the handler returns with both aggregate maps as
    they were (the flat gateway adds a warning to the log, the main gateway
    changes nothing at all). *)
Theorem missing_tag_is_malformed (packet : string) :
  (String.length packet < 1024)%nat ->
  (~ occurs "SENSOR:" packet \/ ~ occurs "COMPANY:" packet \/
   ~ occurs "CO2:" packet \/ ~ occurs "TIME:" packet ->
   Flat.Decode packet = Return Flat.MalformedPacket /\
   forall from g, exists g',
     Flat.ProcessCO2Data packet from g = Done g' /\
     Flat.totalCO2BySensor g' = Flat.totalCO2BySensor g /\
     Flat.packetCountBySensor g' = Flat.packetCountBySensor g) /\
  (~ occurs "SENSOR:" packet \/ ~ occurs "ZONE:" packet \/ ~ occurs "CO2:" packet ->
   Hier.Decode packet = Return Hier.MalformedPacket /\
   forall from g, Hier.ProcessData packet from g = Done g).
Proof.
  intros Hlen. split; intros Habs.
  - assert (HD : Flat.Decode packet = Return Flat.MalformedPacket).
    { unfold Flat.Decode. rewrite read_packet_fits by assumption.
      cbn [mbind result_bind].
      destruct Habs as [H | [H | [H | H]]];
        rewrite (find_absent_c_str _ _ H), Z.eqb_refl; cbn [negb andb];
        rewrite ?andb_false_r; reflexivity. }
    split; [exact HD |]. intros from g.
    unfold Flat.ProcessCO2Data. rewrite HD. eexists. split; [reflexivity |].
    split; reflexivity.
  - assert (HD : Hier.Decode packet = Return Hier.MalformedPacket).
    { unfold Hier.Decode. rewrite read_packet_fits by assumption.
      cbn [mbind result_bind].
      destruct Habs as [H | [H | H]];
        rewrite (find_absent_c_str _ _ H), Z.eqb_refl; cbn [negb andb];
        rewrite ?andb_false_r; reflexivity. }
    split; [exact HD |]. intros from g.
    unfold Hier.ProcessData. now rewrite HD.
Qed.

Lemma no_tag_in_digits tag rest n :
  existsb (Ascii.eqb tag) ["S"; "C"; "T"; "Z"]%char = true ->
  ~ occurs (String tag rest) (zeros n).
Proof.
  intros Htag. apply (occurs_first_char isdigit).
  - destruct (existsb_exists (Ascii.eqb tag) ["S"; "C"; "T"; "Z"]%char) as [H _].
    destruct (H Htag) as (c & Hin & Hc). apply Ascii.eqb_eq in Hc. subst c.
    simpl in Hin. destruct Hin as [<- | [<- | [<- | [<- | []]]]]; reflexivity.
  - now apply all_chars_zeros.
Qed.

Lemma missing_tag_is_malformed_witness :
  Flat.Decode "SENSOR:1,CO2:400" = Return Flat.MalformedPacket /\
  Hier.Decode (zeros 8) = Return Hier.MalformedPacket.
Proof.
  split.
  - refine (proj1 (proj1 (missing_tag_is_malformed "SENSOR:1,CO2:400" _) _)).
    + simpl. lia.
    + right. left. intros (a & b & Hab).
      assert (H : all_chars (fun c => negb (c =? "M")%char) "SENSOR:1,CO2:400" = true)
        by reflexivity.
      rewrite Hab, !all_chars_append in H. simpl in H.
      rewrite !andb_false_r in H. discriminate.
  - refine (proj1 (proj2 (missing_tag_is_malformed (zeros 8) _) _)).
    + simpl. lia.
    + left. now apply no_tag_in_digits.
Defined.

(** C2, as stated, fails on a datagram of 1024 bytes: no tag occurs in it,
    and the decoders do not answer [MalformedPacket]: the terminator is
    written outside the array. *)
Lemma missing_tag_oversize :
  ~ occurs "SENSOR:" (zeros 1024) /\
  Flat.Decode (zeros 1024) <> Return Flat.MalformedPacket /\
  Hier.Decode (zeros 1024) <> Return Hier.MalformedPacket /\
  Flat.ProcessCO2Data (zeros 1024) 0 Flat.initial = Crash.
Proof.
  assert (Hlen : (BUFFER_SIZE <= String.length (zeros 1024))%nat)
    by (rewrite length_zeros; unfold BUFFER_SIZE; lia).
  split; [now apply no_tag_in_digits |].
  rewrite (Flat_Decode_overflow _ Hlen), (Hier_Decode_overflow _ Hlen).
  split; [discriminate | split; [discriminate |]].
  apply Flat_Process_crash. now apply Flat_Decode_overflow.
Qed.

(** * Fields that do not parse *)

(** C3 at a failing input.  All four tags are present and the SENSOR field
    is not a number: [std::stoi] throws [invalid_argument], nothing catches
    it, and [HandleRead] is left by the exception after the datagram was
    counted, so the run ends there and the datagrams behind it are never
    handled.  The main gateway does the same. *)
Theorem bad_field_terminates :
  Flat.Decode "SENSOR:abc,COMPANY:1,CO2:400,TIME:0" = Throw invalid_argument /\
  Flat.HandleRead [("SENSOR:abc,COMPANY:1,CO2:400,TIME:0", 0);
                   ("SENSOR:1,COMPANY:1,CO2:400,TIME:0", 0)] Flat.initial
  = Uncaught invalid_argument
      {| Flat.totalCO2BySensor := ∅; Flat.packetCountBySensor := ∅;
         Flat.totalPacketsReceived := 1; Flat.totalPacketsSent := 0;
         Flat.ns_log := [] |} /\
  Hier.Decode "SENSOR:abc,ZONE:1,CO2:400" = Throw invalid_argument /\
  Hier.HandleRead [("SENSOR:abc,ZONE:1,CO2:400", 0);
                   ("SENSOR:1,ZONE:1,CO2:400", 0)] Hier.initial
  = Uncaught invalid_argument
      {| Hier.totalCO2BySensor := ∅; Hier.packetCountBySensor := ∅;
         Hier.totalPacketsReceived := 1; Hier.totalPacketsSent := 0;
         Hier.ns_log := [] |}.
Proof. repeat split; vm_compute; reflexivity. Qed.

(** * Round trip through the wire format *)

Lemma uint32_t_small n : 0 <= n < 2 ^ 31 -> uint32_t n = n.
Proof.
  intros H. unfold uint32_t. apply Z.mod_small.
  change (2 ^ 31) with 2147483648 in H. change (2 ^ 32) with 4294967296. lia.
Qed.

(** C1, as amended.  For every reading whose identifiers are below 2^31
    and whose timestamp is a [uint64_t], decoding the encoded payload gives
    the identifiers and the timestamp back unchanged and, as CO2 value, what
    [std::stod] returns on the six-significant-digit text of the value:
    decoding is that parse with the other fields put back around it, so it
    throws when the parse throws.  Hence a reading whose CO2 text parses
    back to its value is returned again, all four fields in the flat
    topology, all three in the hierarchical one.  No assumption on tag
    prefixes is needed: the texts the encoder produces never contain one.
    The parse does throw for some values: the text of the smallest
    subnormal double, [4.94066e-324], underflows. *)
Theorem round_trip :
  (forall r : Flat.SensorReading,
     0 <= Flat.sensorId r < 2 ^ 31 ->
     0 <= Flat.companyId r < 2 ^ 31 ->
     0 <= Flat.timestamp r < 2 ^ 64 ->
     Flat.Decode (Flat.Encode r) =
       (co2Value ← stod (put_double (Flat.co2Value r));
        Return (Flat.Reading {| Flat.sensorId := Flat.sensorId r;
                                Flat.companyId := Flat.companyId r;
                                Flat.co2Value := co2Value;
                                Flat.timestamp := Flat.timestamp r |})) /\
     (stod (put_double (Flat.co2Value r)) = Return (Flat.co2Value r) ->
      Flat.Decode (Flat.Encode r) = Return (Flat.Reading r))) /\
  (forall r : Hier.SensorReading,
     0 <= Hier.sensorId r < 2 ^ 31 ->
     0 <= Hier.zoneId r < 2 ^ 31 ->
     Hier.Decode (Hier.Encode r) =
       (co2Value ← stod (put_double (Hier.co2Value r));
        Return (Hier.Reading {| Hier.sensorId := Hier.sensorId r;
                                Hier.zoneId := Hier.zoneId r;
                                Hier.co2Value := co2Value |})) /\
     (stod (put_double (Hier.co2Value r)) = Return (Hier.co2Value r) ->
      Hier.Decode (Hier.Encode r) = Return (Hier.Reading r))) /\
  (put_double (S754_finite false 1 (- 1074)) = "4.94066e-324" /\
   Flat.Decode (Flat.Encode {| Flat.sensorId := 1; Flat.companyId := 1;
                               Flat.co2Value := S754_finite false 1 (- 1074);
                               Flat.timestamp := 0 |}) = Throw out_of_range /\
   Hier.Decode (Hier.Encode {| Hier.sensorId := 1; Hier.zoneId := 1;
                               Hier.co2Value := S754_finite false 1 (- 1074) |})
   = Throw out_of_range).
Proof.
  split; [| split].
  - intros r Hs Hc Ht.
    assert (H : Flat.Decode (Flat.Encode r) =
              (co2Value ← stod (put_double (Flat.co2Value r));
               Return (Flat.Reading {| Flat.sensorId := Flat.sensorId r;
                                       Flat.companyId := Flat.companyId r;
                                       Flat.co2Value := co2Value;
                                       Flat.timestamp := Flat.timestamp r |}))).
    { rewrite Flat_Decode_Encode.
      rewrite !stoi_put_uint, stoull_put_uint by assumption.
      cbn [mbind result_bind]. rewrite !uint32_t_small by assumption.
      destruct (stod (put_double (Flat.co2Value r))); reflexivity. }
    split; [exact H |]. intros Hv. rewrite H, Hv. cbn [mbind result_bind].
    now destruct r.
  - intros r Hs Hz.
    assert (H : Hier.Decode (Hier.Encode r) =
              (co2Value ← stod (put_double (Hier.co2Value r));
               Return (Hier.Reading {| Hier.sensorId := Hier.sensorId r;
                                       Hier.zoneId := Hier.zoneId r;
                                       Hier.co2Value := co2Value |}))).
    { rewrite Hier_Decode_Encode.
      rewrite !stoi_put_uint by assumption.
      cbn [mbind result_bind]. rewrite !uint32_t_small by assumption.
      destruct (stod (put_double (Hier.co2Value r))); reflexivity. }
    split; [exact H |]. intros Hv. rewrite H, Hv. cbn [mbind result_bind].
    now destruct r.
  - split; [vm_compute; reflexivity |]. split; vm_compute; reflexivity.
Qed.

Lemma round_trip_witness :
  Flat.Decode (Flat.Encode {| Flat.sensorId := 3; Flat.companyId := 1;
                              Flat.co2Value := S754_finite false 7254067546670760 (-44);
                              Flat.timestamp := 6000000 |})
  = Return (Flat.Reading {| Flat.sensorId := 3; Flat.companyId := 1;
                            Flat.co2Value := S754_finite false 7254067546670760 (-44);
                            Flat.timestamp := 6000000 |}) /\
  Hier.Decode (Hier.Encode {| Hier.sensorId := 7; Hier.zoneId := 4;
                              Hier.co2Value := lit_3000 |})
  = Return (Hier.Reading {| Hier.sensorId := 7; Hier.zoneId := 4;
                            Hier.co2Value := lit_3000 |}).
Proof.
  split.
  - refine (proj2 (proj1 round_trip
              {| Flat.sensorId := 3; Flat.companyId := 1;
                 Flat.co2Value := S754_finite false 7254067546670760 (-44);
                 Flat.timestamp := 6000000 |} _ _ _) _);
      cbn; try (split; [discriminate | reflexivity]).
    vm_compute. reflexivity.
  - refine (proj2 (proj1 (proj2 round_trip)
              {| Hier.sensorId := 7; Hier.zoneId := 4; Hier.co2Value := lit_3000 |} _ _) _);
      cbn; try (split; [discriminate | reflexivity]).
    vm_compute. reflexivity.
Defined.

(** C1, as stated, fails on a reading a sensor with baseline 400 produces:
    the double nearest to 412.3456789 is streamed as [412.346], which holds
    no tag prefix and decodes to another double. *)
Lemma round_trip_loses_digits :
  let r := {| Flat.sensorId := 1; Flat.companyId := 1;
              Flat.co2Value := S754_finite false 7254061897819821 (-44);
              Flat.timestamp := 1000000 |} in
  Flat.Encode r = "SENSOR:1,COMPANY:1,CO2:412.346,TIME:1000000" /\
  Flat.Decode (Flat.Encode r)
  = Return (Flat.Reading {| Flat.sensorId := 1; Flat.companyId := 1;
                            Flat.co2Value := S754_finite false 7254067546670760 (-44);
                            Flat.timestamp := 1000000 |}) /\
  Flat.Decode (Flat.Encode r) <> Return (Flat.Reading r).
Proof.
  cbv zeta. split; [vm_compute; reflexivity |].
  assert (H : Flat.Decode (Flat.Encode
                {| Flat.sensorId := 1; Flat.companyId := 1;
                   Flat.co2Value := S754_finite false 7254061897819821 (-44);
                   Flat.timestamp := 1000000 |})
              = Return (Flat.Reading {| Flat.sensorId := 1; Flat.companyId := 1;
                            Flat.co2Value := S754_finite false 7254067546670760 (-44);
                            Flat.timestamp := 1000000 |}))
    by (vm_compute; reflexivity).
  split; [exact H |]. rewrite H. intros Heq. discriminate Heq.
Qed.

(** * Reading generation *)

Lemma le_not_lt x y : fle x y = true -> flt y x = false.
Proof.
  unfold fle, flt, SFleb, SFltb. rewrite (SFcompare_antisym x y).
  now destruct (SFcompare x y) as [[] |].
Qed.

Lemma compare_eq_finite x s m e :
  SFcompare x (S754_finite s m e) = Some Eq -> x = S754_finite s m e.
Proof.
  destruct x as [sx | sx | | sx mx ex]; cbn [SFcompare];
    try (destruct sx); try (destruct s); try discriminate;
    intros H; injection H as H;
    destruct (ex ?= e) eqn:He; try discriminate;
    apply Z.compare_eq in He; subst ex.
  - destruct (Pos.compare_cont Eq mx m) eqn:Hm; try discriminate.
    apply Pos.compare_eq in Hm. now subst.
  - apply Pos.compare_eq in H. now subst.
Qed.

(** X20.  With a variation in [-50, 50] and a baseline that is a number,
    the value [GenerateCO2Value] returns lies in [300, 3000], whatever the
    baseline (infinite ones included); the hierarchical version needs no
    assumption at all.  The value before clamping is [baseline + variation],
    and it is returned unchanged whenever it already lies in [300, 3000]. *)
Theorem generated_value_bounds
    (fs : Flat.CO2SensorApplication) (hs : Hier.CO2SensorApplication)
    (variation : double) :
  fle lit_m50 variation = true -> fle variation lit_50 = true ->
  (is_nan (Flat.m_baselineCO2 fs) = false ->
   fle lit_300 (Flat.GenerateCO2Value fs variation) = true /\
   fle (Flat.GenerateCO2Value fs variation) lit_3000 = true) /\
  (fle lit_300 (Hier.GenerateCO2Value hs variation) = true /\
   fle (Hier.GenerateCO2Value hs variation) lit_3000 = true) /\
  (fle lit_300 (fadd (Flat.m_baselineCO2 fs) variation) = true ->
   fle (fadd (Flat.m_baselineCO2 fs) variation) lit_3000 = true ->
   Flat.GenerateCO2Value fs variation = fadd (Flat.m_baselineCO2 fs) variation) /\
  (fle lit_300 (fadd (Hier.m_baselineCO2 hs) variation) = true ->
   fle (fadd (Hier.m_baselineCO2 hs) variation) lit_3000 = true ->
   Hier.GenerateCO2Value hs variation = fadd (Hier.m_baselineCO2 hs) variation).
Proof.
  intros Hlo Hhi. split; [| split; [| split]].
  - intros Hb. unfold Flat.GenerateCO2Value. apply flat_clamp_bounds.
    apply fadd_not_nan; [exact Hb | now apply variation_finite].
  - unfold Hier.GenerateCO2Value. apply hier_clamp_bounds.
  - intros H1 H2. unfold Flat.GenerateCO2Value.
    rewrite (le_not_lt _ _ H1). unfold fgt. fold (flt lit_3000 (fadd (Flat.m_baselineCO2 fs) variation)).
    now rewrite (le_not_lt _ _ H2).
  - intros H1 H2. unfold Hier.GenerateCO2Value, std_min, std_max.
    set (pre := fadd (Hier.m_baselineCO2 hs) variation) in *. clearbody pre.
    assert (Hmin : (if flt pre lit_3000 then pre else lit_3000) = pre).
    { destruct (flt pre lit_3000) eqn:H3; [reflexivity |].
      symmetry. apply compare_eq_finite. change (SFcompare pre lit_3000 = Some Eq).
      unfold fle, flt, SFleb, SFltb in *.
      now destruct (SFcompare pre lit_3000) as [[]|]. }
    rewrite Hmin.
    destruct (flt lit_300 pre) eqn:H4; [reflexivity |].
    symmetry. apply compare_eq_finite. change (SFcompare pre lit_300 = Some Eq).
    rewrite SFcompare_antisym. unfold fle, flt, SFleb, SFltb in *.
    now destruct (SFcompare lit_300 pre) as [[]|].
Qed.

Lemma generated_value_bounds_witness :
  fle lit_300 (Flat.GenerateCO2Value (Flat.Setup 1 1 (double_of_Z 280)) lit_m50) = true /\
  fle (Flat.GenerateCO2Value (Flat.Setup 1 1 (double_of_Z 280)) lit_m50) lit_3000 = true.
Proof.
  refine (proj1 (generated_value_bounds (Flat.Setup 1 1 (double_of_Z 280))
            {| Hier.m_socket := SocketCreated; Hier.m_sensorId := 1; Hier.m_zoneId := 1;
               Hier.m_baselineCO2 := lit_3000; Hier.m_sendEvent := None;
               Hier.m_interval := Seconds 5; Hier.m_running := false |}
            lit_m50 _ _) _); reflexivity.
Defined.


(** * Delivery ratio *)

Lemma double_of_counter n :
  0 <= n < 2 ^ 32 ->
  match double_of_Z n with S754_zero _ | S754_finite _ _ _ => True | _ => False end.
Proof.
  intros Hn. destruct (Z.eq_dec n 0) as [-> | Hne]; [exact I |].
  destruct (double_of_Z_finite n) as (m & e & ->); [| exact I].
  change (2 ^ 32) with 4294967296 in Hn. change (2 ^ 53) with 9007199254740992. lia.
Qed.

Lemma ratio_spec recv sent :
  0 <= recv < 2 ^ 32 -> 0 <= sent < 2 ^ 32 ->
  let r := if 0 <? sent
           then fmul (fdiv (double_of_Z recv) (double_of_Z sent)) lit_100
           else lit_0 in
  (0 < sent ->
     r = fmul (fdiv (double_of_Z recv) (double_of_Z sent)) lit_100 /\
     exists m e, double_of_Z sent = S754_finite false m e) /\
  (sent = 0 -> r = lit_0) /\
  is_nan r = false.
Proof.
  intros Hr Hs. cbv zeta.
  assert (Hfin : 0 < sent -> exists m e, double_of_Z sent = S754_finite false m e).
  { intros H. apply double_of_Z_finite.
    change (2 ^ 32) with 4294967296 in Hs. change (2 ^ 53) with 9007199254740992. lia. }
  split; [| split].
  - intros H. apply Z.ltb_lt in H as H'. rewrite H'. split; [reflexivity | auto].
  - intros ->. reflexivity.
  - destruct (0 <? sent) eqn:H; [| reflexivity].
    apply Z.ltb_lt in H. destruct (Hfin H) as (m & e & Hm).
    apply fmul_not_nan; [| exact I].
    apply fdiv_not_nan; [now apply double_of_counter | now rewrite Hm].
Qed.

(** C5.  For all values of the two 32-bit counters: when [totalPacketsSent]
    is positive the ratio is [(double)received / sent * 100.0], and the
    divisor is a finite double that is not zero; when it is zero the ratio
    is exactly [0.0] and no division takes place; the ratio is never a NaN.
    The same holds of [ratio] in the hierarchical scenario. *)
Theorem delivery_ratio_guarded (g : Flat.Globals) (h : Hier.Globals) :
  0 <= Flat.totalPacketsReceived g < 2 ^ 32 ->
  0 <= Flat.totalPacketsSent g < 2 ^ 32 ->
  0 <= Hier.totalPacketsReceived h < 2 ^ 32 ->
  0 <= Hier.totalPacketsSent h < 2 ^ 32 ->
  ((0 < Flat.totalPacketsSent g ->
      Flat.deliveryRatio g
      = fmul (fdiv (double_of_Z (Flat.totalPacketsReceived g))
                   (double_of_Z (Flat.totalPacketsSent g))) lit_100 /\
      exists m e, double_of_Z (Flat.totalPacketsSent g) = S754_finite false m e) /\
   (Flat.totalPacketsSent g = 0 -> Flat.deliveryRatio g = lit_0) /\
   is_nan (Flat.deliveryRatio g) = false) /\
  ((0 < Hier.totalPacketsSent h ->
      Hier.ratio h
      = fmul (fdiv (double_of_Z (Hier.totalPacketsReceived h))
                   (double_of_Z (Hier.totalPacketsSent h))) lit_100 /\
      exists m e, double_of_Z (Hier.totalPacketsSent h) = S754_finite false m e) /\
   (Hier.totalPacketsSent h = 0 -> Hier.ratio h = lit_0) /\
   is_nan (Hier.ratio h) = false).
Proof.
  intros H1 H2 H3 H4. split.
  - exact (ratio_spec _ _ H1 H2).
  - exact (ratio_spec _ _ H3 H4).
Qed.

Lemma delivery_ratio_guarded_witness :
  Flat.deliveryRatio
    {| Flat.totalCO2BySensor := ∅; Flat.packetCountBySensor := ∅;
       Flat.totalPacketsReceived := 45; Flat.totalPacketsSent := 50;
       Flat.ns_log := [] |}
  = S754_finite false 6333186975989760 (-46) /\
  Hier.ratio Hier.initial = lit_0.
Proof.
  pose proof (delivery_ratio_guarded
    {| Flat.totalCO2BySensor := ∅; Flat.packetCountBySensor := ∅;
       Flat.totalPacketsReceived := 45; Flat.totalPacketsSent := 50;
       Flat.ns_log := [] |} Hier.initial) as H.
  cbn [Flat.totalPacketsReceived Flat.totalPacketsSent
       Hier.totalPacketsReceived Hier.totalPacketsSent Hier.initial] in H.
  destruct H as [[Hf _] [_ [Hh _]]]; try (split; [discriminate | reflexivity]).
  split.
  - destruct Hf as [Hf _]; [reflexivity |]. rewrite Hf. vm_compute. reflexivity.
  - apply Hh. reflexivity.
Defined.

(** * The collector *)

Lemma HandleRead_cons packet from rest g :
  (0 < String.length packet)%nat ->
  Flat.HandleRead ((packet, from) :: rest) g =
    match Flat.ProcessCO2Data packet from (counted g) with
    | Done g' => Flat.HandleRead rest g'
    | o => o
    end.
Proof.
  intros Hlen. cbn [Flat.HandleRead].
  replace (0 <? Z.of_nat (String.length packet)) with true
    by (symmetry; apply Z.ltb_lt; lia).
  reflexivity.
Qed.

Lemma HandleRead_empty_packet from rest g :
  Flat.HandleRead ((EmptyString, from) :: rest) g = Flat.HandleRead rest g.
Proof. reflexivity. Qed.

(** One datagram: what [ProcessCO2Data] leaves of the counted globals. *)
Lemma Process_received packet from g g' :
  final (Flat.ProcessCO2Data packet from g) = Some g' ->
  Flat.totalPacketsReceived g' = Flat.totalPacketsReceived g /\
  Flat.totalPacketsSent g' = Flat.totalPacketsSent g.
Proof.
  unfold Flat.ProcessCO2Data.
  destruct (Flat.Decode packet) as [[r |] | e |]; cbn [final]; intros H;
    try discriminate; injection H as <-; split; reflexivity.
Qed.

Lemma Process_decoded packet from g r :
  Flat.Decode packet = Return (Flat.Reading r) ->
  exists g', Flat.ProcessCO2Data packet from g = Done g' /\
    Flat.totalCO2BySensor g'
    = <[Flat.sensorId r :=
          fadd (default lit_0 (Flat.totalCO2BySensor g !! Flat.sensorId r)) (Flat.co2Value r)]>
        (Flat.totalCO2BySensor g) /\
    Flat.packetCountBySensor g'
    = <[Flat.sensorId r :=
          uint32_t (default 0 (Flat.packetCountBySensor g !! Flat.sensorId r) + 1)]>
        (Flat.packetCountBySensor g).
Proof.
  intros HD. unfold Flat.ProcessCO2Data. rewrite HD.
  eexists. split; [reflexivity |]. split; reflexivity.
Qed.

Lemma Process_not_decoded packet from g g' :
  (forall r, Flat.Decode packet <> Return (Flat.Reading r)) ->
  final (Flat.ProcessCO2Data packet from g) = Some g' ->
  Flat.totalCO2BySensor g' = Flat.totalCO2BySensor g /\
  Flat.packetCountBySensor g' = Flat.packetCountBySensor g.
Proof.
  intros HD. unfold Flat.ProcessCO2Data.
  destruct (Flat.Decode packet) as [[r |] | e |]; cbn [final]; intros H;
    try discriminate; try (injection H as <-; split; reflexivity).
  now destruct (HD r).
Qed.

Lemma aggregates_ok_mono k k' g : k <= k' -> aggregates_ok k g -> aggregates_ok k' g.
Proof.
  intros Hk H sid. destruct (H sid) as [H1 H2]. split; [exact H1 |].
  intros n Hn. specialize (H2 n Hn). lia.
Qed.

Lemma Process_keeps_aggregates k packet from g g' :
  0 <= k -> k + 1 < 2 ^ 32 -> aggregates_ok k g ->
  final (Flat.ProcessCO2Data packet from g) = Some g' ->
  aggregates_ok (k + 1) g'.
Proof.
  intros Hk0 Hk Hinv Hfin.
  destruct (Flat.Decode packet) as [[r |] | e |] eqn:HD.
  - destruct (Process_decoded packet from g r HD) as (g1 & Hg1 & Hsum & Hcnt).
    rewrite Hg1 in Hfin. cbn [final] in Hfin. injection Hfin as <-.
    intros sid. rewrite Hsum, Hcnt.
    destruct (decide (Flat.sensorId r = sid)) as [<- | Hne].
    + rewrite !lookup_insert_eq. split; [split; eauto |].
      intros n Hn. injection Hn as <-.
      destruct (Flat.packetCountBySensor g !! Flat.sensorId r) as [c |] eqn:Hc;
        cbv [default from_option id].
      * destruct (Hinv (Flat.sensorId r)) as [_ H2]. specialize (H2 c Hc).
        unfold uint32_t. rewrite Z.mod_small by lia. lia.
      * unfold uint32_t. rewrite Z.mod_small by lia. lia.
    + rewrite !lookup_insert_ne by assumption.
      destruct (Hinv sid) as [H1 H2]. split; [exact H1 |].
      intros n Hn. specialize (H2 n Hn). lia.
  - apply (aggregates_ok_mono k); [lia |].
    destruct (Process_not_decoded packet from g g') as [Hs Hc]; [| exact Hfin |].
    + intros r. rewrite HD. discriminate.
    + intros sid. rewrite Hs, Hc. apply Hinv.
  - apply (aggregates_ok_mono k); [lia |].
    destruct (Process_not_decoded packet from g g') as [Hs Hc]; [| exact Hfin |].
    + intros r. rewrite HD. discriminate.
    + intros sid. rewrite Hs, Hc. apply Hinv.
  - unfold Flat.ProcessCO2Data in Hfin. rewrite HD in Hfin. discriminate.
Qed.

Lemma HandleRead_keeps_aggregates packets : forall k g g',
  0 <= k -> k + Z.of_nat (length packets) < 2 ^ 32 -> aggregates_ok k g ->
  final (Flat.HandleRead packets g) = Some g' ->
  aggregates_ok (k + Z.of_nat (length packets)) g'.
Proof.
  induction packets as [| [packet from] rest IH]; intros k g g' Hk0 Hk Hinv Hfin.
  - cbn in Hfin. injection Hfin as <-. apply (aggregates_ok_mono k); [cbn; lia | exact Hinv].
  - cbn [length] in *.
    destruct (String.length packet) as [| len] eqn:Hlen.
    + destruct packet; [| discriminate]. rewrite HandleRead_empty_packet in Hfin.
      apply (aggregates_ok_mono (k + Z.of_nat (length rest))); [lia |].
      apply (IH k g); try assumption; lia.
    + rewrite HandleRead_cons in Hfin by lia.
      assert (Hc : aggregates_ok k (counted g)) by exact Hinv.
      destruct (Flat.ProcessCO2Data packet from (counted g)) as [g1 | e g1 |] eqn:HP.
      * replace (k + Z.of_nat (S (length rest))) with (k + 1 + Z.of_nat (length rest)) by lia.
        apply (IH (k + 1) g1); try lia; [| exact Hfin].
        apply (Process_keeps_aggregates k packet from (counted g)); try lia; try assumption.
        now rewrite HP.
      * cbn [final] in Hfin. injection Hfin as <-.
        apply (aggregates_ok_mono (k + 1)); [lia |].
        apply (Process_keeps_aggregates k packet from (counted g)); try lia; try assumption.
        now rewrite HP.
      * discriminate.
Qed.

Lemma uint32_t_add a b : uint32_t (uint32_t a + b) = uint32_t (a + b).
Proof.
  unfold uint32_t. change (2 ^ 32) with 4294967296.
  apply Z.add_mod_idemp_l. lia.
Qed.

Lemma uint32_t_idem a : uint32_t (uint32_t a) = uint32_t a.
Proof.
  unfold uint32_t. change (2 ^ 32) with 4294967296. apply Z.mod_mod. lia.
Qed.

Lemma uint32_t_range a : 0 <= uint32_t a < 2 ^ 32.
Proof. unfold uint32_t. change (2 ^ 32) with 4294967296. apply Z.mod_pos_bound. lia. Qed.

Lemma uint32_t_id a : 0 <= a < 2 ^ 32 -> uint32_t a = a.
Proof. intros H. unfold uint32_t. now apply Z.mod_small. Qed.

Lemma HandleRead_received packets : forall g g',
  0 <= Flat.totalPacketsReceived g < 2 ^ 32 ->
  Flat.HandleRead packets g = Done g' ->
  Flat.totalPacketsReceived g'
  = uint32_t (Flat.totalPacketsReceived g + Z.of_nat (length (nonempty packets))).
Proof.
  induction packets as [| [packet from] rest IH]; intros g g' Hg H.
  - cbn in H. injection H as <-. cbn [nonempty List.filter length].
    change (Z.of_nat 0) with 0. now rewrite Z.add_0_r, uint32_t_id.
  - cbn [Flat.HandleRead] in H. cbn [nonempty List.filter fst].
    destruct (0 <? Z.of_nat (String.length packet)) eqn:Hlen.
    + destruct (Flat.ProcessCO2Data packet from _) as [g1 | e g1 |] eqn:HP;
        try discriminate.
      destruct (Process_received packet from _ g1 ltac:(rewrite HP; reflexivity)) as [Hr _].
      cbn [Flat.totalPacketsReceived] in Hr.
      rewrite (IH g1 g') by (try exact H; rewrite Hr; apply uint32_t_range).
      rewrite Hr. cbn [length]. fold (nonempty rest).
      rewrite uint32_t_add. f_equal. lia.
    + apply IH; assumption.
Qed.

(** C6, as amended.  (1) A non-empty datagram of at most 1023 bytes is
    counted in [totalPacketsReceived] exactly once (modulo 2^32), before
    [ProcessCO2Data] runs and whatever becomes of it.  (2) When it decodes,
    the entries of its sensor are created on first use and updated:
    [sum += co2Value] (the sum falls when the value is negative) and
    [count += 1].  (3) When it does not decode (a tag is missing or a field
    makes a parser throw), neither map changes.  (4) After any run of fewer
    than 2^32 datagrams from the initial state, both maps have the same
    keys and every count present is at least 1 and at most the number of
    datagrams.  (5) A run that returns has counted the non-empty datagrams
    modulo 2^32. *)
Theorem collector_invariant :
  (forall packet from rest g,
     (0 < String.length packet < 1024)%nat ->
     exists g1,
       final (Flat.ProcessCO2Data packet from (counted g)) = Some g1 /\
       Flat.totalPacketsReceived g1 = uint32_t (Flat.totalPacketsReceived g + 1) /\
       Flat.HandleRead ((packet, from) :: rest) g =
         match Flat.ProcessCO2Data packet from (counted g) with
         | Done g' => Flat.HandleRead rest g'
         | o => o
         end) /\
  (forall packet from g r,
     Flat.Decode packet = Return (Flat.Reading r) ->
     exists g', Flat.ProcessCO2Data packet from g = Done g' /\
       Flat.totalCO2BySensor g'
       = <[Flat.sensorId r :=
             fadd (default lit_0 (Flat.totalCO2BySensor g !! Flat.sensorId r))
                  (Flat.co2Value r)]> (Flat.totalCO2BySensor g) /\
       Flat.packetCountBySensor g'
       = <[Flat.sensorId r :=
             uint32_t (default 0 (Flat.packetCountBySensor g !! Flat.sensorId r) + 1)]>
           (Flat.packetCountBySensor g)) /\
  (forall packet from g g',
     (forall r, Flat.Decode packet <> Return (Flat.Reading r)) ->
     final (Flat.ProcessCO2Data packet from g) = Some g' ->
     Flat.totalCO2BySensor g' = Flat.totalCO2BySensor g /\
     Flat.packetCountBySensor g' = Flat.packetCountBySensor g) /\
  (forall packets g',
     Z.of_nat (length packets) < 2 ^ 32 ->
     final (Flat.HandleRead packets Flat.initial) = Some g' ->
     aggregates_ok (Z.of_nat (length packets)) g') /\
  (forall packets g',
     Flat.HandleRead packets Flat.initial = Done g' ->
     Flat.totalPacketsReceived g' = uint32_t (Z.of_nat (length (nonempty packets)))).
Proof.
  split; [| split; [| split; [| split]]].
  - intros packet from rest g [Hpos Hlen].
    pose proof (Flat_Decode_defined packet Hlen) as Hdef.
    destruct (Flat.ProcessCO2Data packet from (counted g)) as [g1 | e g1 |] eqn:HP.
    + exists g1. split; [reflexivity |]. split.
      * destruct (Process_received packet from (counted g) g1) as [Hr _];
          [now rewrite HP | exact Hr].
      * rewrite HandleRead_cons by assumption. now rewrite HP.
    + exists g1. split; [reflexivity |]. split.
      * destruct (Process_received packet from (counted g) g1) as [Hr _];
          [now rewrite HP | exact Hr].
      * rewrite HandleRead_cons by assumption. now rewrite HP.
    + apply Flat_Process_crash in HP. contradiction.
  - exact Process_decoded.
  - exact Process_not_decoded.
  - intros packets g' Hlen Hfin.
    apply (HandleRead_keeps_aggregates packets 0 Flat.initial); try lia; try assumption.
    intros sid. cbn. rewrite !lookup_empty. split.
    + split; intros [x Hx]; discriminate.
    + intros n Hn. discriminate.
  - intros packets g' H. rewrite (HandleRead_received packets Flat.initial g');
      [reflexivity | cbn; lia | exact H].
Qed.

Lemma collector_invariant_witness :
  (exists g1,
     final (Flat.ProcessCO2Data "SENSOR:x" 0 (counted Flat.initial)) = Some g1 /\
     Flat.totalPacketsReceived g1 = 1) /\
  aggregates_ok 1
    {| Flat.totalCO2BySensor := {[ 2 := double_of_Z 400 ]};
       Flat.packetCountBySensor := {[ 2 := 1 ]};
       Flat.totalPacketsReceived := 1; Flat.totalPacketsSent := 0;
       Flat.ns_log := [Flat.INFO_GatewayReceived 2 1 (double_of_Z 400) 0 1] |}.
Proof.
  split.
  - destruct (proj1 collector_invariant "SENSOR:x" 0 [] Flat.initial) as (g1 & H1 & H2 & _).
    + cbn. lia.
    + exists g1. split; [exact H1 | exact H2].
  - refine (proj1 (proj2 (proj2 (proj2 collector_invariant)))
              [("SENSOR:2,COMPANY:1,CO2:400,TIME:0", 0)] _ _ _).
    + cbn. lia.
    + vm_compute. reflexivity.
Defined.

(** C6, as stated, fails on the sum: a datagram whose CO2 field is negative
    decodes, and the sum of its sensor falls from 400 to 300. *)
Lemma collector_sum_decreases :
  let sum_after packets :=
    match Flat.HandleRead packets Flat.initial with
    | Done g => Flat.totalCO2BySensor g !! 1
    | _ => None
    end in
  sum_after [("SENSOR:1,COMPANY:1,CO2:400,TIME:0", 0)] = Some (double_of_Z 400) /\
  sum_after [("SENSOR:1,COMPANY:1,CO2:400,TIME:0", 0);
             ("SENSOR:1,COMPANY:1,CO2:-100,TIME:5000000", 0)] = Some lit_300 /\
  flt lit_300 (double_of_Z 400) = true.
Proof. cbv zeta. repeat split; vm_compute; reflexivity. Qed.

(** * The send path of the sensors *)

Lemma Flat_Send_globals self v actual this sim g :
  snd (Flat.SendCO2Reading self v actual this sim g) =
    if 0 <? actual then
      Flat.log {| Flat.totalCO2BySensor := Flat.totalCO2BySensor g;
                  Flat.packetCountBySensor := Flat.packetCountBySensor g;
                  Flat.totalPacketsReceived := Flat.totalPacketsReceived g;
                  Flat.totalPacketsSent := uint32_t (Flat.totalPacketsSent g + 1);
                  Flat.ns_log := Flat.ns_log g |}
        (Flat.INFO_Transmitted (Flat.m_sensorId this) (Flat.m_companyId this)
           (Flat.GenerateCO2Value this v) (uint32_t (Flat.totalPacketsSent g + 1)))
    else Flat.log g (Flat.WARN_SendFailed (Flat.m_sensorId this)).
Proof.
  unfold Flat.SendCO2Reading. destruct (Flat.m_running this); reflexivity.
Qed.

Lemma Flat_Send_data self v actual this sim g :
  fst (fst (fst (Flat.SendCO2Reading self v actual this sim g))) =
    Flat.Encode {| Flat.sensorId := Flat.m_sensorId this;
                   Flat.companyId := Flat.m_companyId this;
                   Flat.co2Value := Flat.GenerateCO2Value this v;
                   Flat.timestamp := uint64_t (GetMicroSeconds (Now sim)) |}.
Proof.
  unfold Flat.SendCO2Reading. destruct (Flat.m_running this); reflexivity.
Qed.

Lemma Hier_Send_globals self v actual this sim g :
  snd (Hier.SendCO2Reading self v actual this sim g) =
    if 0 <? actual then
      Hier.log {| Hier.totalCO2BySensor := Hier.totalCO2BySensor g;
                  Hier.packetCountBySensor := Hier.packetCountBySensor g;
                  Hier.totalPacketsReceived := Hier.totalPacketsReceived g;
                  Hier.totalPacketsSent := uint32_t (Hier.totalPacketsSent g + 1);
                  Hier.ns_log := Hier.ns_log g |}
        (Hier.INFO_SensorSent (Hier.m_sensorId this) (Hier.m_zoneId this)
           (Hier.GenerateCO2Value this v))
    else g.
Proof.
  unfold Hier.SendCO2Reading. destruct (Hier.m_running this); reflexivity.
Qed.

Lemma successes_cons actual rest :
  successes (actual :: rest) = (if 0 <? actual then 1 else 0) + successes rest.
Proof.
  unfold successes. cbn [List.filter]. destruct (0 <? actual); cbn [length]; lia.
Qed.

Lemma successes_nonneg actuals : 0 <= successes actuals.
Proof. unfold successes. lia. Qed.

Lemma flat_sends_total calls : forall g,
  0 <= Flat.totalPacketsSent g < 2 ^ 32 ->
  Flat.totalPacketsSent (flat_sends calls g)
  = uint32_t (Flat.totalPacketsSent g + successes (List.map fc_actual calls)).
Proof.
  induction calls as [| c rest IH]; intros g Hg.
  - cbn [flat_sends List.map]. change (successes []) with 0.
    now rewrite Z.add_0_r, uint32_t_id.
  - cbn [flat_sends List.map]. rewrite successes_cons, Flat_Send_globals.
    destruct (0 <? fc_actual c).
    + rewrite IH by (cbn; apply uint32_t_range). cbn [Flat.log Flat.totalPacketsSent].
      rewrite uint32_t_add. f_equal. lia.
    + rewrite IH by exact Hg. cbn [Flat.log Flat.totalPacketsSent]. f_equal.
Qed.

Lemma hier_sends_total calls : forall g,
  0 <= Hier.totalPacketsSent g < 2 ^ 32 ->
  Hier.totalPacketsSent (hier_sends calls g)
  = uint32_t (Hier.totalPacketsSent g + successes (List.map hc_actual calls)).
Proof.
  induction calls as [| c rest IH]; intros g Hg.
  - cbn [hier_sends List.map]. change (successes []) with 0.
    now rewrite Z.add_0_r, uint32_t_id.
  - cbn [hier_sends List.map]. rewrite successes_cons, Hier_Send_globals.
    destruct (0 <? hc_actual c).
    + rewrite IH by (cbn; apply uint32_t_range). cbn [Hier.log Hier.totalPacketsSent].
      rewrite uint32_t_add. f_equal. lia.
    + rewrite IH by exact Hg. f_equal.
Qed.

(** C7, as amended.  Each call of [SendCO2Reading] hands one payload to the
    socket, once.  When [Send] returns a positive count [totalPacketsSent]
    is incremented (modulo 2^32); otherwise it is unchanged and nothing is
    sent again, and the flat sensor adds a warning to the log.  After any
    sequence of calls by any sensors, [totalPacketsSent] is the number of
    successful calls modulo 2^32, hence that number while it is below
    2^32. *)
Theorem sent_counter :
  (forall self v actual this sim g,
     let g' := snd (Flat.SendCO2Reading self v actual this sim g) in
     (0 < actual -> Flat.totalPacketsSent g' = uint32_t (Flat.totalPacketsSent g + 1)) /\
     (actual <= 0 ->
        Flat.totalPacketsSent g' = Flat.totalPacketsSent g /\
        Flat.ns_log g' = (Flat.ns_log g ++ [Flat.WARN_SendFailed (Flat.m_sensorId this)])%list)) /\
  (forall self v actual this sim g,
     let g' := snd (Hier.SendCO2Reading self v actual this sim g) in
     (0 < actual -> Hier.totalPacketsSent g' = uint32_t (Hier.totalPacketsSent g + 1)) /\
     (actual <= 0 -> Hier.totalPacketsSent g' = Hier.totalPacketsSent g)) /\
  (forall calls,
     Flat.totalPacketsSent (flat_sends calls Flat.initial)
     = uint32_t (successes (List.map fc_actual calls)) /\
     (successes (List.map fc_actual calls) < 2 ^ 32 ->
      Flat.totalPacketsSent (flat_sends calls Flat.initial)
      = successes (List.map fc_actual calls))) /\
  (forall calls,
     Hier.totalPacketsSent (hier_sends calls Hier.initial)
     = uint32_t (successes (List.map hc_actual calls)) /\
     (successes (List.map hc_actual calls) < 2 ^ 32 ->
      Hier.totalPacketsSent (hier_sends calls Hier.initial)
      = successes (List.map hc_actual calls))).
Proof.
  split; [| split; [| split]].
  - intros self v actual this sim g. cbv zeta. rewrite Flat_Send_globals. split.
    + intros H. apply Z.ltb_lt in H. now rewrite H.
    + intros H. apply Z.ltb_ge in H. rewrite H. split; reflexivity.
  - intros self v actual this sim g. cbv zeta. rewrite Hier_Send_globals. split.
    + intros H. apply Z.ltb_lt in H. now rewrite H.
    + intros H. apply Z.ltb_ge in H. now rewrite H.
  - intros calls.
    assert (H : Flat.totalPacketsSent (flat_sends calls Flat.initial)
                = uint32_t (successes (List.map fc_actual calls))).
    { rewrite flat_sends_total by (cbn; lia). reflexivity. }
    split; [exact H |]. intros Hlt. rewrite H. apply uint32_t_id.
    pose proof (successes_nonneg (List.map fc_actual calls)). lia.
  - intros calls.
    assert (H : Hier.totalPacketsSent (hier_sends calls Hier.initial)
                = uint32_t (successes (List.map hc_actual calls))).
    { rewrite hier_sends_total by (cbn; lia). reflexivity. }
    split; [exact H |]. intros Hlt. rewrite H. apply uint32_t_id.
    pose proof (successes_nonneg (List.map hc_actual calls)). lia.
Qed.

Lemma sent_counter_witness :
  Flat.totalPacketsSent
    (flat_sends [ {| fc_self := 0; fc_this := Flat.Setup 1 1 (double_of_Z 400);
                     fc_sim := {| Now := 0; next_uid := 0; events := [] |};
                     fc_variation := lit_0; fc_actual := 37 |};
                  {| fc_self := 1; fc_this := Flat.Setup 2 2 (double_of_Z 500);
                     fc_sim := {| Now := 0; next_uid := 0; events := [] |};
                     fc_variation := lit_50; fc_actual := -1 |} ] Flat.initial) = 1.
Proof.
  refine (proj2 (proj1 (proj2 (proj2 sent_counter)) _) _).
  vm_compute. reflexivity.
Defined.

Lemma successes_replicate (n : nat) (c : FlatCall) :
  0 < fc_actual c -> successes (List.map fc_actual (replicate n c)) = Z.of_nat n.
Proof.
  intros Hc. apply Z.ltb_lt in Hc.
  induction n as [| n IH]; [reflexivity |].
  cbn [replicate List.map]. rewrite successes_cons, Hc, IH. lia.
Qed.

(** [n] calls of one sensor whose [Send] succeeds every time. *)
Lemma flat_sends_replicate (n : nat) (c : FlatCall) :
  0 < fc_actual c ->
  successes (List.map fc_actual (replicate n c)) = Z.of_nat n /\
  Flat.totalPacketsSent (flat_sends (replicate n c) Flat.initial) = uint32_t (Z.of_nat n).
Proof.
  intros Hc. split; [now apply successes_replicate |].
  rewrite flat_sends_total by (cbn; lia).
  rewrite successes_replicate by assumption. reflexivity.
Qed.

(** C7, as stated, fails on the count: [totalPacketsSent] is a [uint32_t],
    so after 2^32 calls whose [Send] succeeded it is 0 again, not the
    number of successful calls. *)
Lemma sent_counter_wraps :
  successes
    (List.map fc_actual
       (replicate (Z.to_nat 4294967296)
          {| fc_self := 0; fc_this := Flat.Setup 1 1 (double_of_Z 400);
             fc_sim := {| Now := 0; next_uid := 0; events := [] |};
             fc_variation := lit_0; fc_actual := 37 |})) = 4294967296 /\
  Flat.totalPacketsSent
    (flat_sends
       (replicate (Z.to_nat 4294967296)
          {| fc_self := 0; fc_this := Flat.Setup 1 1 (double_of_Z 400);
             fc_sim := {| Now := 0; next_uid := 0; events := [] |};
             fc_variation := lit_0; fc_actual := 37 |}) Flat.initial) = 0.
Proof.
  pose proof (flat_sends_replicate (Z.to_nat 4294967296)
                {| fc_self := 0; fc_this := Flat.Setup 1 1 (double_of_Z 400);
                   fc_sim := {| Now := 0; next_uid := 0; events := [] |};
                   fc_variation := lit_0; fc_actual := 37 |}) as H.
  cbn [fc_actual] in H. specialize (H ltac:(lia)).
  rewrite Z2Nat.id in H by lia.
  change (uint32_t 4294967296) with 0 in H. exact H.
Qed.

(** The hierarchical [SendCO2Reading] has no else branch after [Send]:
    where the flat sensor logs a warning, it leaves the log as it was. *)
Lemma failed_send_not_logged :
  let this := {| Hier.m_socket := SocketConnected; Hier.m_sensorId := 1;
                 Hier.m_zoneId := 1; Hier.m_baselineCO2 := double_of_Z 400;
                 Hier.m_sendEvent := None; Hier.m_interval := Seconds 5;
                 Hier.m_running := true |} in
  let sim := {| Now := Seconds 1; next_uid := 0; events := [] |} in
  Hier.ns_log (snd (Hier.SendCO2Reading 0 lit_0 (-1) this sim Hier.initial)) = [] /\
  Hier.totalPacketsSent
    (snd (Hier.SendCO2Reading 0 lit_0 28 this sim
            {| Hier.totalCO2BySensor := ∅; Hier.packetCountBySensor := ∅;
               Hier.totalPacketsReceived := 0; Hier.totalPacketsSent := 2 ^ 32 - 1;
               Hier.ns_log := [] |})) = 0.
Proof. cbv zeta. split; vm_compute; reflexivity. Qed.

(** * The relay *)

Lemma HandleReadAP_app p1 : forall p2 this g,
  Hier.HandleReadAP (p1 ++ p2)%list this g =
    let '(o1, t1, g1) := Hier.HandleReadAP p1 this g in
    let '(o2, t2, g2) := Hier.HandleReadAP p2 t1 g1 in
    ((o1 ++ o2)%list, t2, g2).
Proof.
  induction p1 as [| [packet actual] rest IH]; intros p2 this g.
  - cbn [app Hier.HandleReadAP]. now destruct (Hier.HandleReadAP p2 this g) as [[o t] g'].
  - cbn [app Hier.HandleReadAP].
    destruct (0 <? Z.of_nat (String.length packet)); [| apply IH].
    destruct (Hier.ForwardToGateway _ _ _ _) as [[out t1] g1].
    rewrite IH.
    destruct (Hier.HandleReadAP rest t1 g1) as [[o1 t2] g2].
    now destruct (Hier.HandleReadAP p2 t2 g2) as [[o2 t3] g3].
Qed.

Lemma HandleReadAP_counts packets : forall this g,
  0 <= Hier.m_packetsReceived this < 2 ^ 32 ->
  0 <= Hier.m_packetsForwarded this < 2 ^ 32 ->
  let '(outs, this', _) := Hier.HandleReadAP packets this g in
  outs = List.map fst (nonempty packets) /\
  Hier.m_packetsReceived this'
  = uint32_t (Hier.m_packetsReceived this + Z.of_nat (length (nonempty packets))) /\
  Hier.m_packetsForwarded this'
  = uint32_t (Hier.m_packetsForwarded this + Z.of_nat (length (forwarded_ok packets))).
Proof.
  induction packets as [| [packet actual] rest IH]; intros this g Hr Hf.
  - cbn. rewrite !Z.add_0_r, !uint32_t_id by assumption. auto.
  - cbn [Hier.HandleReadAP]. unfold forwarded_ok. cbn [nonempty List.filter fst].
    fold (nonempty rest).
    destruct (0 <? Z.of_nat (String.length packet)) eqn:Hlen.
    + unfold Hier.ForwardToGateway. cbn [List.filter snd].
      destruct (0 <? actual) eqn:Hact.
      * match goal with
        | |- context [Hier.HandleReadAP rest ?t ?g'] =>
            specialize (IH t g'); destruct (Hier.HandleReadAP rest t g') as [[outs t2] g2]
        end.
        cbn [Hier.m_packetsReceived Hier.m_packetsForwarded] in IH.
        destruct IH as (Ho & Hrec & Hfwd); try apply uint32_t_range.
        split; [cbn [List.map fst]; now rewrite Ho |].
        rewrite Hrec, Hfwd, !uint32_t_add. cbn [length].
        fold (forwarded_ok rest). split; f_equal; lia.
      * match goal with
        | |- context [Hier.HandleReadAP rest ?t ?g'] =>
            specialize (IH t g'); destruct (Hier.HandleReadAP rest t g') as [[outs t2] g2]
        end.
        cbn [Hier.m_packetsReceived Hier.m_packetsForwarded] in IH.
        destruct IH as (Ho & Hrec & Hfwd); try apply uint32_t_range; try assumption.
        split; [cbn [List.map fst]; now rewrite Ho |].
        rewrite Hrec, Hfwd, !uint32_t_add. cbn [length].
        fold (forwarded_ok rest). split; f_equal; lia.
    + specialize (IH this g Hr Hf).
      destruct (Hier.HandleReadAP rest this g) as [[outs t2] g2]. exact IH.
Qed.

Lemma forwarded_ok_le packets :
  (length (forwarded_ok packets) <= length (nonempty packets))%nat.
Proof. unfold forwarded_ok. apply filter_length_le. Qed.

(** C8, as amended.  For every relay, over all the datagrams its receive
    callback ever sees: the payloads handed to the forward socket are the
    non-empty datagrams themselves, byte for byte and in order;
    [m_packetsReceived] counts the non-empty datagrams and
    [m_packetsForwarded] those among them whose forwarding succeeded, both
    modulo 2^32; so [forwarded <= received] holds as long as fewer than
    2^32 datagrams were received. *)
Theorem relay_counters (packets : list (string * Z)) (zoneId : Z) (g : Hier.Globals) :
  let '(outs, this, _) := Hier.HandleReadAP packets (Hier.StartAP zoneId) g in
  outs = List.map fst (nonempty packets) /\
  Hier.m_packetsReceived this = uint32_t (Z.of_nat (length (nonempty packets))) /\
  Hier.m_packetsForwarded this = uint32_t (Z.of_nat (length (forwarded_ok packets))) /\
  (Z.of_nat (length (nonempty packets)) < 2 ^ 32 ->
   Hier.m_packetsForwarded this <= Hier.m_packetsReceived this).
Proof.
  pose proof (HandleReadAP_counts packets (Hier.StartAP zoneId) g) as H.
  destruct (Hier.HandleReadAP packets (Hier.StartAP zoneId) g) as [[outs this] g'].
  destruct H as (Ho & Hr & Hf); try (cbn; lia).
  cbn [Hier.StartAP Hier.m_packetsReceived Hier.m_packetsForwarded] in Hr, Hf.
  rewrite Z.add_0_l in Hr, Hf.
  split; [exact Ho | split; [exact Hr | split; [exact Hf |]]].
  intros Hlt. rewrite Hr, Hf.
  pose proof (forwarded_ok_le packets).
  rewrite !uint32_t_id by lia. lia.
Qed.

Lemma relay_counters_witness :
  let '(outs, this, _) :=
    Hier.HandleReadAP [("SENSOR:1,ZONE:1,CO2:400", 23); (EmptyString, 0);
                       ("SENSOR:2,ZONE:1,CO2:450", -1)] (Hier.StartAP 1) Hier.initial in
  outs = ["SENSOR:1,ZONE:1,CO2:400"; "SENSOR:2,ZONE:1,CO2:450"] /\
  Hier.m_packetsForwarded this <= Hier.m_packetsReceived this.
Proof.
  pose proof (relay_counters [("SENSOR:1,ZONE:1,CO2:400", 23); (EmptyString, 0);
                              ("SENSOR:2,ZONE:1,CO2:450", -1)] 1 Hier.initial) as H.
  destruct (Hier.HandleReadAP _ _ _) as [[outs this] g'].
  destruct H as (Ho & _ & _ & Hle). split; [exact Ho |].
  apply Hle. vm_compute. reflexivity.
Defined.

Lemma nonempty_replicate n packet actual :
  (0 < String.length packet)%nat ->
  nonempty (replicate n (packet, actual)) = replicate n (packet, actual).
Proof.
  intros Hlen. induction n as [| n IH]; [reflexivity |].
  cbn [replicate nonempty List.filter fst].
  replace (0 <? Z.of_nat (String.length packet)) with true
    by (symmetry; apply Z.ltb_lt; lia).
  fold (nonempty (replicate n (packet, actual))). now rewrite IH.
Qed.

Lemma filter_replicate_true {A} (f : A -> bool) n x :
  f x = true -> List.filter f (replicate n x) = replicate n x.
Proof.
  intros Hx. induction n as [| n IH]; [reflexivity |].
  cbn [replicate List.filter]. now rewrite Hx, IH.
Qed.

Lemma nonempty_cons packet actual rest :
  (0 < String.length packet)%nat ->
  nonempty ((packet, actual) :: rest) = (packet, actual) :: nonempty rest.
Proof.
  intros Hlen. unfold nonempty. cbn [List.filter fst].
  now replace (0 <? Z.of_nat (String.length packet)) with true
    by (symmetry; apply Z.ltb_lt; lia).
Qed.

(** One datagram whose forwarding fails, then [n] that are forwarded. *)
Lemma relay_counters_after_failure n :
  let '(_, this, _) :=
    Hier.HandleReadAP (("x", 0) :: replicate n ("x", 1)) (Hier.StartAP 1) Hier.initial in
  Hier.m_packetsReceived this = uint32_t (Z.of_nat n + 1) /\
  Hier.m_packetsForwarded this = uint32_t (Z.of_nat n).
Proof.
  pose proof (relay_counters (("x", 0) :: replicate n ("x", 1)) 1 Hier.initial) as H.
  destruct (Hier.HandleReadAP _ _ _) as [[outs this] g'].
  destruct H as (_ & Hr & Hf & _).
  unfold forwarded_ok in Hf.
  rewrite nonempty_cons, nonempty_replicate in Hr, Hf by (cbn; lia).
  cbn [List.filter snd] in Hf. change (0 <? 0) with false in Hf. cbv iota in Hf.
  rewrite filter_replicate_true in Hf by reflexivity.
  cbn [length] in Hr. rewrite length_replicate in Hr, Hf.
  rewrite Hr, Hf. split; [f_equal; lia | reflexivity].
Qed.

(** C8, as stated, fails once the counters wrap: after 2^32 received
    datagrams of which the first could not be forwarded, [received] is 0
    and [forwarded] is 2^32 - 1. *)
Lemma relay_counters_wrap :
  let '(_, this, _) :=
    Hier.HandleReadAP (("x", 0) :: replicate (Z.to_nat 4294967295) ("x", 1))
                      (Hier.StartAP 1) Hier.initial in
  Hier.m_packetsReceived this = 0 /\
  Hier.m_packetsForwarded this = 4294967295 /\
  ~ Hier.m_packetsForwarded this <= Hier.m_packetsReceived this.
Proof.
  pose proof (relay_counters_after_failure (Z.to_nat 4294967295)) as H.
  destruct (Hier.HandleReadAP _ _ _) as [[outs this] g'].
  destruct H as [Hr Hf]. rewrite Z2Nat.id in Hr, Hf by lia.
  change (uint32_t (4294967295 + 1)) with 0 in Hr.
  change (uint32_t 4294967295) with 4294967295 in Hf.
  rewrite Hr, Hf. repeat split. lia.
Qed.

(** * Scheduling of the sensors *)







Lemma IsPending_after_Cancel sim id :
  IsPending (if IsPending sim id then Cancel sim id else sim) id = false.
Proof.
  destruct id as [u |]; [| reflexivity].
  destruct (IsPending sim (Some u)) eqn:Hp; [| exact Hp].
  cbn [IsPending Cancel events].
  destruct (existsb _ _) eqn:He; [| reflexivity].
  apply existsb_exists in He as (ev & [Hin Hne]%filter_In & Heq).
  rewrite Heq in Hne. discriminate.
Qed.













(** * Further properties of the wire format *)

Lemma Flat_Encode_chars r :
  all_chars (fun c => negb (c =? Ascii.zero)%char) (Flat.Encode r) = true.
Proof.
  unfold Flat.Encode. rewrite !all_chars_append.
  pose proof (numeric_not_nul _ (all_chars_numeric_put_uint (Flat.sensorId r))) as H1.
  pose proof (numeric_not_nul _ (all_chars_numeric_put_uint (Flat.companyId r))) as H2.
  pose proof (numeric_not_nul _ (all_chars_put_double (Flat.co2Value r))) as H3.
  pose proof (numeric_not_nul _ (all_chars_numeric_put_uint (Flat.timestamp r))) as H4.
  rewrite H1, H2, H3, H4. reflexivity.
Qed.

Lemma Hier_Encode_chars r :
  all_chars (fun c => negb (c =? Ascii.zero)%char) (Hier.Encode r) = true.
Proof.
  unfold Hier.Encode. rewrite !all_chars_append.
  pose proof (numeric_not_nul _ (all_chars_numeric_put_uint (Hier.sensorId r))) as H1.
  pose proof (numeric_not_nul _ (all_chars_numeric_put_uint (Hier.zoneId r))) as H2.
  pose proof (numeric_not_nul _ (all_chars_put_double (Hier.co2Value r))) as H3.
  rewrite H1, H2, H3. reflexivity.
Qed.

(** X1.  Whatever the reading, the payload a sensor builds is at most 128
    bytes long (99 in the hierarchical scenario) and holds no NUL, so the
    gateway's buffer copy returns it whole; decoding it is never undefined
    and never answers [MalformedPacket]. *)
Theorem sensor_payload_fits :
  (forall r : Flat.SensorReading,
     (String.length (Flat.Encode r) <= 128)%nat /\
     read_packet (Flat.Encode r) = Return (Flat.Encode r) /\
     Flat.Decode (Flat.Encode r) <> Undefined /\
     Flat.Decode (Flat.Encode r) <> Return Flat.MalformedPacket) /\
  (forall r : Hier.SensorReading,
     (String.length (Hier.Encode r) <= 99)%nat /\
     read_packet (Hier.Encode r) = Return (Hier.Encode r) /\
     Hier.Decode (Hier.Encode r) <> Undefined /\
     Hier.Decode (Hier.Encode r) <> Return Hier.MalformedPacket).
Proof.
  split; intros r.
  - split; [| split; [| split]].
    + unfold Flat.Encode. rewrite !length_append. cbn [String.length].
      pose proof (length_put_uint (Flat.sensorId r)).
      pose proof (length_put_uint (Flat.companyId r)).
      pose proof (length_put_uint (Flat.timestamp r)).
      pose proof (length_put_double (Flat.co2Value r)). lia.
    + rewrite read_packet_fits by apply Flat_Encode_length.
      f_equal. apply c_str_id, Flat_Encode_chars.
    + apply Flat_Decode_defined, Flat_Encode_length.
    + rewrite Flat_Decode_Encode.
      destruct (stoi (put_uint (Flat.sensorId r))) as [s | e |];
        cbn [mbind result_bind]; try discriminate.
      destruct (stoi (put_uint (Flat.companyId r))) as [c | e |];
        cbn [mbind result_bind]; try discriminate.
      destruct (stod (put_double (Flat.co2Value r))) as [v | e |];
        cbn [mbind result_bind]; try discriminate.
      destruct (stoull (put_uint (Flat.timestamp r))) as [t | e |];
        cbn [mbind result_bind]; discriminate.
  - split; [| split; [| split]].
    + unfold Hier.Encode. rewrite !length_append. cbn [String.length].
      pose proof (length_put_uint (Hier.sensorId r)).
      pose proof (length_put_uint (Hier.zoneId r)).
      pose proof (length_put_double (Hier.co2Value r)). lia.
    + rewrite read_packet_fits by apply Hier_Encode_length.
      f_equal. apply c_str_id, Hier_Encode_chars.
    + apply Hier_Decode_defined, Hier_Encode_length.
    + rewrite Hier_Decode_Encode.
      destruct (stoi (put_uint (Hier.sensorId r))) as [s | e |];
        cbn [mbind result_bind]; try discriminate.
      destruct (stoi (put_uint (Hier.zoneId r))) as [c | e |];
        cbn [mbind result_bind]; try discriminate.
      destruct (stod (put_double (Hier.co2Value r))) as [v | e |];
        cbn [mbind result_bind]; discriminate.
Qed.

(** X2.  An identifier from 2^31 up to 2^32 - 1, which [uint32_t] holds and
    the sensor prints in full, is beyond [int]: [std::stoi] throws
    [out_of_range] when the gateway decodes the sensor's own payload.  This
    holds for the sensor identifier and, behind a sensor identifier that
    parses, for the company or zone identifier. *)
Theorem large_identifier_throws :
  (forall r : Flat.SensorReading,
     2 ^ 31 <= Flat.sensorId r < 2 ^ 32 ->
     Flat.Decode (Flat.Encode r) = Throw out_of_range) /\
  (forall r : Flat.SensorReading,
     0 <= Flat.sensorId r < 2 ^ 31 -> 2 ^ 31 <= Flat.companyId r < 2 ^ 32 ->
     Flat.Decode (Flat.Encode r) = Throw out_of_range) /\
  (forall r : Hier.SensorReading,
     2 ^ 31 <= Hier.sensorId r < 2 ^ 32 ->
     Hier.Decode (Hier.Encode r) = Throw out_of_range) /\
  (forall r : Hier.SensorReading,
     0 <= Hier.sensorId r < 2 ^ 31 -> 2 ^ 31 <= Hier.zoneId r < 2 ^ 32 ->
     Hier.Decode (Hier.Encode r) = Throw out_of_range).
Proof.
  assert (Hw : forall n, 2 ^ 31 <= n < 2 ^ 32 -> 2 ^ 31 <= n < 2 ^ 64).
  { intros n. change (2 ^ 31) with 2147483648. change (2 ^ 32) with 4294967296.
    change (2 ^ 64) with 18446744073709551616. lia. }
  split; [| split; [| split]].
  - intros r H. rewrite Flat_Decode_Encode.
    rewrite (stoi_put_uint_large (Flat.sensorId r)) by (apply Hw; assumption).
    reflexivity.
  - intros r H1 H2. rewrite Flat_Decode_Encode.
    rewrite (stoi_put_uint (Flat.sensorId r)) by assumption.
    cbn [mbind result_bind].
    rewrite (stoi_put_uint_large (Flat.companyId r)) by (apply Hw; assumption).
    reflexivity.
  - intros r H. rewrite Hier_Decode_Encode.
    rewrite (stoi_put_uint_large (Hier.sensorId r)) by (apply Hw; assumption).
    reflexivity.
  - intros r H1 H2. rewrite Hier_Decode_Encode.
    rewrite (stoi_put_uint (Hier.sensorId r)) by assumption.
    cbn [mbind result_bind].
    rewrite (stoi_put_uint_large (Hier.zoneId r)) by (apply Hw; assumption).
    reflexivity.
Qed.

Lemma large_identifier_throws_witness :
  Flat.Decode (Flat.Encode {| Flat.sensorId := 3000000000; Flat.companyId := 1;
                              Flat.co2Value := lit_300; Flat.timestamp := 0 |})
  = Throw out_of_range /\
  Hier.Decode (Hier.Encode {| Hier.sensorId := 1; Hier.zoneId := 2147483648;
                              Hier.co2Value := lit_300 |})
  = Throw out_of_range.
Proof.
  split.
  - apply (proj1 large_identifier_throws).
    cbn [Flat.sensorId]. change (2 ^ 31) with 2147483648.
    change (2 ^ 32) with 4294967296. lia.
  - apply (proj2 (proj2 (proj2 large_identifier_throws)));
      cbn [Hier.sensorId Hier.zoneId]; change (2 ^ 31) with 2147483648;
      change (2 ^ 32) with 4294967296; lia.
Defined.

Lemma c_str_idem s : c_str (c_str s) = c_str s.
Proof.
  induction s as [| c s IH]; [reflexivity |]. cbn [c_str].
  destruct (c =? Ascii.zero)%char eqn:Hc; [reflexivity |].
  cbn [c_str]. now rewrite Hc, IH.
Qed.

Lemma length_c_str s : (String.length (c_str s) <= String.length s)%nat.
Proof.
  induction s as [| c s IH]; cbn [c_str String.length]; [lia |].
  destruct (c =? Ascii.zero)%char; cbn [String.length]; lia.
Qed.

(** X3.  [std::string data((char* )buffer)] stops at the first NUL: a
    datagram of at most 1023 bytes is decoded exactly as its part before
    the first NUL byte would be; tags and fields behind a NUL are never
    seen. *)
Theorem decode_stops_at_nul (packet : string) :
  (String.length packet < 1024)%nat ->
  Flat.Decode packet = Flat.Decode (c_str packet) /\
  Hier.Decode packet = Hier.Decode (c_str packet).
Proof.
  intros Hlen. pose proof (length_c_str packet) as Hc.
  unfold Flat.Decode, Hier.Decode.
  rewrite (read_packet_fits packet) by assumption.
  rewrite (read_packet_fits (c_str packet)) by (unfold BUFFER_SIZE; lia).
  rewrite c_str_idem. split; reflexivity.
Qed.

Lemma decode_stops_at_nul_witness :
  Flat.Decode (String "S" (String Ascii.zero "SENSOR:1,COMPANY:1,CO2:400,TIME:0"))
  = Return Flat.MalformedPacket.
Proof.
  assert (Hlen : (String.length
            (String "S" (String Ascii.zero "SENSOR:1,COMPANY:1,CO2:400,TIME:0")) < 1024)%nat)
    by (cbn; lia).
  rewrite (proj1 (decode_stops_at_nul _ Hlen)).
  vm_compute. reflexivity.
Defined.

(** X4.  On any payload of the sensors' shape whose four (three) field
    texts are made of numeric characters, empty fields included, and which
    fits the buffer, the decoder finds the tags where they are and hands
    exactly the field texts to [stoi], [stoi], [stod] and [stoull]; what
    these return or throw is what the decoder returns or throws. *)
Theorem decode_field_texts :
  (forall A B C D : string,
     all_chars numeric_char A = true -> all_chars numeric_char B = true ->
     all_chars numeric_char C = true -> all_chars numeric_char D = true ->
     (String.length ("SENSOR:" ++ A ++ ",COMPANY:" ++ B ++ ",CO2:" ++ C ++ ",TIME:" ++ D)
      < 1024)%nat ->
     Flat.Decode ("SENSOR:" ++ A ++ ",COMPANY:" ++ B ++ ",CO2:" ++ C ++ ",TIME:" ++ D) =
       (sensorId ← stoi A; companyId ← stoi B; co2Value ← stod C; timestamp ← stoull D;
        Return (Flat.Reading {| Flat.sensorId := uint32_t sensorId;
                                Flat.companyId := uint32_t companyId;
                                Flat.co2Value := co2Value;
                                Flat.timestamp := timestamp |}))) /\
  (forall A B C : string,
     all_chars numeric_char A = true -> all_chars numeric_char B = true ->
     all_chars numeric_char C = true ->
     (String.length ("SENSOR:" ++ A ++ ",ZONE:" ++ B ++ ",CO2:" ++ C) < 1024)%nat ->
     Hier.Decode ("SENSOR:" ++ A ++ ",ZONE:" ++ B ++ ",CO2:" ++ C) =
       (sensorId ← stoi A; zoneId ← stoi B; co2Value ← stod C;
        Return (Hier.Reading {| Hier.sensorId := uint32_t sensorId;
                                Hier.zoneId := uint32_t zoneId;
                                Hier.co2Value := co2Value |}))).
Proof.
  split.
  - intros A B C D HA HB HC HD Hlen. now apply Flat_Decode_text.
  - intros A B C HA HB HC Hlen. now apply Hier_Decode_text.
Qed.

Lemma decode_field_texts_witness :
  Flat.Decode "SENSOR:-5,COMPANY:007,CO2:1e3,TIME:"
  = Throw invalid_argument /\
  Hier.Decode "SENSOR:-5,ZONE:007,CO2:1e3"
  = Return (Hier.Reading {| Hier.sensorId := 4294967291; Hier.zoneId := 7;
                            Hier.co2Value := double_of_Z 1000 |}).
Proof.
  split.
  - change "SENSOR:-5,COMPANY:007,CO2:1e3,TIME:"
      with ("SENSOR:" ++ "-5" ++ ",COMPANY:" ++ "007" ++ ",CO2:" ++ "1e3" ++ ",TIME:" ++ EmptyString).
    rewrite (proj1 decode_field_texts) by (reflexivity || (cbn; lia)).
    vm_compute. reflexivity.
  - change "SENSOR:-5,ZONE:007,CO2:1e3"
      with ("SENSOR:" ++ "-5" ++ ",ZONE:" ++ "007" ++ ",CO2:" ++ "1e3").
    rewrite (proj2 decode_field_texts) by (reflexivity || (cbn; lia)).
    vm_compute. reflexivity.
Defined.

(** X5.  The text [SendAcknowledgment] builds, [ACK:SENSOR:<id>], holds a
    SENSOR tag but no TIME tag: fed to the gateway's decoder it is reported
    as [MalformedPacket] for every identifier, and never aggregated. *)
Theorem acknowledgment_is_malformed (sensorId : Z) (from : Z) (g : Flat.Globals) :
  Flat.Decode (Flat.SendAcknowledgment sensorId) = Return Flat.MalformedPacket /\
  Flat.ProcessCO2Data (Flat.SendAcknowledgment sensorId) from g
  = Done (Flat.log g (Flat.WARN_Malformed from)).
Proof.
  assert (HD : Flat.Decode (Flat.SendAcknowledgment sensorId) = Return Flat.MalformedPacket).
  { unfold Flat.Decode, Flat.SendAcknowledgment.
    rewrite read_packet_fits.
    2:{ rewrite length_append. pose proof (length_put_uint sensorId).
        cbn [String.length]. unfold BUFFER_SIZE. lia. }
    cbn [mbind result_bind].
    rewrite (find_absent_c_str "TIME:").
    - rewrite Z.eqb_refl. cbn [negb]. now rewrite andb_false_r.
    - apply (occurs_first_char (fun c => negb (c =? "T")%char)); [reflexivity |].
      rewrite all_chars_append. apply andb_true_iff. split; [reflexivity |].
      apply all_chars_not_tag; [reflexivity | apply all_chars_numeric_put_uint]. }
  split; [exact HD |]. unfold Flat.ProcessCO2Data. now rewrite HD.
Qed.

(** * The two versions of GenerateCO2Value *)

Lemma below_300_below_3000 x :
  SFcompare x lit_300 = Some Lt -> SFcompare x lit_3000 = Some Lt.
Proof.
  destruct x as [s | s | | s m e]; try (destruct s); try discriminate; try reflexivity.
  unfold lit_300, lit_3000. cbn [SFcompare].
  destruct (e ?= -44) eqn:He.
  - apply Z.compare_eq in He. subst e. intros _.
    change (-44 ?= -41) with Lt. reflexivity.
  - assert (He' : e < -44) by (apply Z.compare_lt_iff; exact He).
    assert (Hlt : (e ?= -41) = Lt) by (apply Z.compare_lt_iff; lia).
    rewrite Hlt. intros _. reflexivity.
  - intros H. discriminate H.
Qed.

Lemma above_3000_above_300 x :
  SFcompare x lit_3000 = Some Gt -> SFcompare x lit_300 = Some Gt.
Proof.
  destruct x as [s | s | | s m e]; try (destruct s); try discriminate; try reflexivity.
  unfold lit_300, lit_3000. cbn [SFcompare].
  destruct (e ?= -41) eqn:He.
  - apply Z.compare_eq in He. subst e. intros _.
    change (-41 ?= -44) with Gt. reflexivity.
  - intros H. discriminate H.
  - assert (He' : -41 < e) by (apply Z.compare_gt_iff; exact He).
    assert (Hgt : (e ?= -44) = Gt) by (apply Z.compare_gt_iff; lia).
    rewrite Hgt. intros _. reflexivity.
Qed.

Lemma compare_not_nan x y :
  is_nan x = false -> is_nan y = false -> exists c, SFcompare x y = Some c.
Proof.
  destruct x, y; try discriminate; intros _ _; cbn [SFcompare]; eauto.
Qed.

Lemma clamps_agree x :
  is_nan x = false ->
  (let y := if flt x lit_300 then lit_300 else x in
   if fgt y lit_3000 then lit_3000 else y)
  = std_max lit_300 (std_min lit_3000 x).
Proof.
  intros Hx. cbv zeta.
  destruct (compare_not_nan x lit_300 Hx eq_refl) as [c1 H1].
  destruct (compare_not_nan x lit_3000 Hx eq_refl) as [c2 H2].
  assert (H1' : SFcompare lit_300 x = Some (CompOpp c1))
    by (rewrite SFcompare_antisym, H1; reflexivity).
  assert (H2' : SFcompare lit_3000 x = Some (CompOpp c2))
    by (rewrite SFcompare_antisym, H2; reflexivity).
  assert (Hlo : SFcompare lit_3000 lit_300 = Some Gt) by (vm_compute; reflexivity).
  assert (Hhi : SFcompare lit_300 lit_3000 = Some Lt) by (vm_compute; reflexivity).
  unfold std_max, std_min, fgt, flt, SFltb.
  destruct c1.
  - (* x = 300 *)
    apply compare_eq_finite in H1. subst x. vm_compute. reflexivity.
  - (* x < 300 *)
    apply below_300_below_3000 in H1 as H3. rewrite H3 in H2. injection H2 as <-.
    rewrite H1, H3. cbv beta iota. rewrite Hlo, H1'. reflexivity.
  - rewrite H1. cbv beta iota. rewrite H2, H2'.
    destruct c2; cbn [CompOpp]; cbv beta iota.
    + rewrite Hhi. apply compare_eq_finite in H2. subst x. reflexivity.
    + rewrite H1'. reflexivity.
    + rewrite Hhi. reflexivity.
Qed.

(** X6.  The if-chain of iot-connectivity.cc and the [std::max]/[std::min]
    expression of iot-hierarchical.cc return the same double for every
    baseline and variation whose sum is a number.  They differ exactly when
    the sum is a NaN: the if-chain returns the NaN, the [std::min] of the
    other returns 3000. *)
Theorem generators_agree
    (fs : Flat.CO2SensorApplication) (hs : Hier.CO2SensorApplication)
    (variation : double) :
  Flat.m_baselineCO2 fs = Hier.m_baselineCO2 hs ->
  (is_nan (fadd (Flat.m_baselineCO2 fs) variation) = false ->
   Flat.GenerateCO2Value fs variation = Hier.GenerateCO2Value hs variation) /\
  (is_nan (fadd (Flat.m_baselineCO2 fs) variation) = true ->
   Flat.GenerateCO2Value fs variation = S754_nan /\
   Hier.GenerateCO2Value hs variation = lit_3000).
Proof.
  intros Hb. unfold Flat.GenerateCO2Value, Hier.GenerateCO2Value. rewrite <- Hb.
  split.
  - apply clamps_agree.
  - destruct (fadd (Flat.m_baselineCO2 fs) variation); try discriminate.
    intros _. split; reflexivity.
Qed.

Lemma generators_agree_witness :
  Flat.GenerateCO2Value (Flat.Setup 1 1 (double_of_Z 2990)) lit_50 = lit_3000 /\
  Hier.GenerateCO2Value
    {| Hier.m_socket := SocketCreated; Hier.m_sensorId := 1; Hier.m_zoneId := 1;
       Hier.m_baselineCO2 := S754_nan; Hier.m_sendEvent := None;
       Hier.m_interval := Seconds 5; Hier.m_running := false |} lit_0 = lit_3000.
Proof.
  split.
  - rewrite (proj1 (generators_agree (Flat.Setup 1 1 (double_of_Z 2990))
               {| Hier.m_socket := SocketCreated; Hier.m_sensorId := 1; Hier.m_zoneId := 1;
                  Hier.m_baselineCO2 := double_of_Z 2990; Hier.m_sendEvent := None;
                  Hier.m_interval := Seconds 5; Hier.m_running := false |}
               lit_50 eq_refl) eq_refl).
    vm_compute. reflexivity.
  - apply (proj2 (generators_agree
               {| Flat.m_socket := SocketCreated; Flat.m_sensorId := 1; Flat.m_companyId := 1;
                  Flat.m_baselineCO2 := S754_nan; Flat.m_sendEvent := None;
                  Flat.m_interval := Seconds 5; Flat.m_running := false |}
               {| Hier.m_socket := SocketCreated; Hier.m_sensorId := 1; Hier.m_zoneId := 1;
                  Hier.m_baselineCO2 := S754_nan; Hier.m_sendEvent := None;
                  Hier.m_interval := Seconds 5; Hier.m_running := false |}
               lit_0 eq_refl) eq_refl).
Defined.

(** * Further properties of the receive callbacks *)

Lemma nonempty_skip packet from rest :
  (0 <? Z.of_nat (String.length packet)) = false ->
  nonempty ((packet, from) :: rest) = nonempty rest.
Proof. intros H. unfold nonempty. cbn [List.filter fst]. now rewrite H. Qed.

Lemma nonempty_keep packet from rest :
  (0 <? Z.of_nat (String.length packet)) = true ->
  nonempty ((packet, from) :: rest) = (packet, from) :: nonempty rest.
Proof. intros H. unfold nonempty. cbn [List.filter fst]. now rewrite H. Qed.

(** X7.  A datagram of size 0 leaves no trace: the flat gateway, the main
    gateway and the relays behave on any batch exactly as on the batch
    without its empty datagrams (these are neither counted, nor decoded,
    nor forwarded, nor logged). *)
Theorem empty_datagrams_ignored (packets : list (string * Z)) :
  (forall g, Flat.HandleRead packets g = Flat.HandleRead (nonempty packets) g) /\
  (forall g, Hier.HandleRead packets g = Hier.HandleRead (nonempty packets) g) /\
  (forall this g,
     Hier.HandleReadAP packets this g = Hier.HandleReadAP (nonempty packets) this g).
Proof.
  induction packets as [| [packet x] rest (IH1 & IH2 & IH3)]; [repeat split |].
  destruct (0 <? Z.of_nat (String.length packet)) eqn:Hlen.
  - rewrite nonempty_keep by assumption. split; [| split].
    + intros g. cbn [Flat.HandleRead]. rewrite Hlen.
      destruct (Flat.ProcessCO2Data packet x _); try reflexivity. apply IH1.
    + intros g. cbn [Hier.HandleRead]. rewrite Hlen.
      destruct (Hier.ProcessData packet x _); try reflexivity. apply IH2.
    + intros this g. cbn [Hier.HandleReadAP]. rewrite Hlen.
      destruct (Hier.ForwardToGateway _ _ _ _) as [[out t1] g1].
      now rewrite IH3.
  - rewrite nonempty_skip by assumption. split; [| split].
    + intros g. cbn [Flat.HandleRead]. rewrite Hlen. apply IH1.
    + intros g. cbn [Hier.HandleRead]. rewrite Hlen. apply IH2.
    + intros this g. cbn [Hier.HandleReadAP]. rewrite Hlen. apply IH3.
Qed.

(** X8.  Runs of a callback compose: handling two batches one after the
    other is handling their concatenation.  For the gateways the second
    batch is handled only if the first returned: an exception or undefined
    behaviour in the first batch is the outcome of the whole. *)
Theorem batches_compose (p1 p2 : list (string * Z)) :
  (forall g,
     Flat.HandleRead (p1 ++ p2)%list g =
       match Flat.HandleRead p1 g with
       | Done g1 => Flat.HandleRead p2 g1
       | o => o
       end) /\
  (forall g,
     Hier.HandleRead (p1 ++ p2)%list g =
       match Hier.HandleRead p1 g with
       | Done g1 => Hier.HandleRead p2 g1
       | o => o
       end) /\
  (forall this g,
     Hier.HandleReadAP (p1 ++ p2)%list this g =
       let '(o1, t1, g1) := Hier.HandleReadAP p1 this g in
       let '(o2, t2, g2) := Hier.HandleReadAP p2 t1 g1 in
       ((o1 ++ o2)%list, t2, g2)).
Proof.
  split; [| split].
  - induction p1 as [| [packet from] rest IH]; intros g; [reflexivity |].
    cbn [app Flat.HandleRead].
    destruct (0 <? Z.of_nat (String.length packet)); [| apply IH].
    destruct (Flat.ProcessCO2Data packet from _); try reflexivity. apply IH.
  - induction p1 as [| [packet from] rest IH]; intros g; [reflexivity |].
    cbn [app Hier.HandleRead].
    destruct (0 <? Z.of_nat (String.length packet)); [| apply IH].
    destruct (Hier.ProcessData packet from _); try reflexivity. apply IH.
  - intros this g. apply HandleReadAP_app.
Qed.

(** ** The main gateway of the hierarchical scenario *)

Lemma Hier_Process_final packet from g g' :
  final (Hier.ProcessData packet from g) = Some g' ->
  Hier.totalPacketsReceived g' = Hier.totalPacketsReceived g /\
  Hier.totalPacketsSent g' = Hier.totalPacketsSent g.
Proof.
  unfold Hier.ProcessData.
  destruct (Hier.Decode packet) as [[r |] | e |]; cbn [final]; intros H;
    try discriminate; injection H as <-; split; reflexivity.
Qed.

Lemma Hier_Process_decoded packet from g r :
  Hier.Decode packet = Return (Hier.Reading r) ->
  exists g', Hier.ProcessData packet from g = Done g' /\
    Hier.totalCO2BySensor g'
    = <[Hier.sensorId r :=
          fadd (default lit_0 (Hier.totalCO2BySensor g !! Hier.sensorId r)) (Hier.co2Value r)]>
        (Hier.totalCO2BySensor g) /\
    Hier.packetCountBySensor g'
    = <[Hier.sensorId r :=
          uint32_t (default 0 (Hier.packetCountBySensor g !! Hier.sensorId r) + 1)]>
        (Hier.packetCountBySensor g).
Proof.
  intros HD. unfold Hier.ProcessData. rewrite HD.
  eexists. split; [reflexivity |]. split; reflexivity.
Qed.

Lemma Hier_Process_not_decoded packet from g g' :
  (forall r, Hier.Decode packet <> Return (Hier.Reading r)) ->
  final (Hier.ProcessData packet from g) = Some g' -> g' = g.
Proof.
  intros HD. unfold Hier.ProcessData.
  destruct (Hier.Decode packet) as [[r |] | e |]; cbn [final]; intros H;
    try discriminate; try (now injection H as <-).
  now destruct (HD r).
Qed.

Lemma Hier_Process_keeps k packet from g g' :
  0 <= k -> k + 1 < 2 ^ 32 -> hier_aggregates_ok k g ->
  final (Hier.ProcessData packet from g) = Some g' ->
  hier_aggregates_ok (k + 1) g'.
Proof.
  intros Hk0 Hk Hinv Hfin.
  destruct (Hier.Decode packet) as [[r |] | e |] eqn:HD.
  - destruct (Hier_Process_decoded packet from g r HD) as (g1 & Hg1 & Hsum & Hcnt).
    rewrite Hg1 in Hfin. cbn [final] in Hfin. injection Hfin as <-.
    intros sid. rewrite Hsum, Hcnt.
    destruct (decide (Hier.sensorId r = sid)) as [<- | Hne].
    + rewrite !lookup_insert_eq. split; [split; eauto |].
      intros n Hn. injection Hn as <-.
      destruct (Hier.packetCountBySensor g !! Hier.sensorId r) as [c |] eqn:Hc;
        cbv [default from_option id].
      * destruct (Hinv (Hier.sensorId r)) as [_ H2]. specialize (H2 c Hc).
        unfold uint32_t. rewrite Z.mod_small by lia. lia.
      * unfold uint32_t. rewrite Z.mod_small by lia. lia.
    + rewrite !lookup_insert_ne by assumption.
      destruct (Hinv sid) as [H1 H2]. split; [exact H1 |].
      intros n Hn. specialize (H2 n Hn). lia.
  - rewrite (Hier_Process_not_decoded packet from g g'); [| | exact Hfin].
    + intros sid. destruct (Hinv sid) as [H1 H2]. split; [exact H1 |].
      intros n Hn. specialize (H2 n Hn). lia.
    + intros r. rewrite HD. discriminate.
  - rewrite (Hier_Process_not_decoded packet from g g'); [| | exact Hfin].
    + intros sid. destruct (Hinv sid) as [H1 H2]. split; [exact H1 |].
      intros n Hn. specialize (H2 n Hn). lia.
    + intros r. rewrite HD. discriminate.
  - unfold Hier.ProcessData in Hfin. rewrite HD in Hfin. discriminate.
Qed.

Lemma Hier_HandleRead_keeps packets : forall k g g',
  0 <= k -> k + Z.of_nat (length packets) < 2 ^ 32 -> hier_aggregates_ok k g ->
  final (Hier.HandleRead packets g) = Some g' ->
  hier_aggregates_ok (k + Z.of_nat (length packets)) g'.
Proof.
  induction packets as [| [packet from] rest IH]; intros k g g' Hk0 Hk Hinv Hfin.
  - cbn in Hfin. injection Hfin as <-. cbn [length]. change (Z.of_nat 0) with 0.
    now rewrite Z.add_0_r.
  - cbn [length] in *. cbn [Hier.HandleRead] in Hfin.
    assert (Hmono : forall g1, hier_aggregates_ok (k + Z.of_nat (length rest)) g1 ->
                          hier_aggregates_ok (k + Z.of_nat (S (length rest))) g1).
    { intros g1 H sid. destruct (H sid) as [H1 H2]. split; [exact H1 |].
      intros n Hn. specialize (H2 n Hn). lia. }
    destruct (0 <? Z.of_nat (String.length packet)).
    + fold (hier_counted g) in Hfin.
      assert (Hc : hier_aggregates_ok k (hier_counted g)) by exact Hinv.
      destruct (Hier.ProcessData packet from (hier_counted g)) as [g1 | e g1 |] eqn:HP.
      * replace (k + Z.of_nat (S (length rest))) with (k + 1 + Z.of_nat (length rest)) by lia.
        apply (IH (k + 1) g1); try lia; [| exact Hfin].
        apply (Hier_Process_keeps k packet from (hier_counted g)); try lia; try assumption.
        now rewrite HP.
      * cbn [final] in Hfin. injection Hfin as <-.
        assert (H : hier_aggregates_ok (k + 1) g1).
        { apply (Hier_Process_keeps k packet from (hier_counted g)); try lia; try assumption.
          now rewrite HP. }
        intros sid. destruct (H sid) as [H1 H2]. split; [exact H1 |].
        intros n Hn. specialize (H2 n Hn). lia.
      * discriminate.
    + apply Hmono. apply (IH k g); try assumption; lia.
Qed.

Lemma Hier_HandleRead_received packets : forall g g',
  0 <= Hier.totalPacketsReceived g < 2 ^ 32 ->
  Hier.HandleRead packets g = Done g' ->
  Hier.totalPacketsReceived g'
  = uint32_t (Hier.totalPacketsReceived g + Z.of_nat (length (nonempty packets))).
Proof.
  induction packets as [| [packet from] rest IH]; intros g g' Hg H.
  - cbn in H. injection H as <-. cbn [nonempty List.filter length].
    change (Z.of_nat 0) with 0. now rewrite Z.add_0_r, uint32_t_id.
  - cbn [Hier.HandleRead] in H.
    destruct (0 <? Z.of_nat (String.length packet)) eqn:Hlen.
    + rewrite nonempty_keep by assumption.
      destruct (Hier.ProcessData packet from _) as [g1 | e g1 |] eqn:HP;
        try discriminate.
      destruct (Hier_Process_final packet from _ g1 ltac:(rewrite HP; reflexivity)) as [Hr _].
      cbn [Hier.totalPacketsReceived] in Hr.
      rewrite (IH g1 g') by (try exact H; rewrite Hr; apply uint32_t_range).
      rewrite Hr. cbn [length]. rewrite uint32_t_add. f_equal. lia.
    + rewrite nonempty_skip by assumption. apply IH; assumption.
Qed.

(** X9.  The main gateway keeps the invariant of the flat one.  A datagram
    that decodes creates or updates the two entries of its sensor; one that
    does not decode (a tag is missing, or a parser throws) leaves the
    globals exactly as they were after the count, log included; after any
    run of fewer than 2^32 datagrams from the initial state both maps have
    the same keys and every count lies between 1 and the number of
    datagrams; a run that returns has counted the non-empty datagrams
    modulo 2^32. *)
Theorem main_gateway_invariant :
  (forall packet from g r,
     Hier.Decode packet = Return (Hier.Reading r) ->
     exists g', Hier.ProcessData packet from g = Done g' /\
       Hier.totalCO2BySensor g'
       = <[Hier.sensorId r :=
             fadd (default lit_0 (Hier.totalCO2BySensor g !! Hier.sensorId r))
                  (Hier.co2Value r)]> (Hier.totalCO2BySensor g) /\
       Hier.packetCountBySensor g'
       = <[Hier.sensorId r :=
             uint32_t (default 0 (Hier.packetCountBySensor g !! Hier.sensorId r) + 1)]>
           (Hier.packetCountBySensor g)) /\
  (forall packet from g g',
     (forall r, Hier.Decode packet <> Return (Hier.Reading r)) ->
     final (Hier.ProcessData packet from g) = Some g' -> g' = g) /\
  (forall packets g',
     Z.of_nat (length packets) < 2 ^ 32 ->
     final (Hier.HandleRead packets Hier.initial) = Some g' ->
     hier_aggregates_ok (Z.of_nat (length packets)) g') /\
  (forall packets g',
     Hier.HandleRead packets Hier.initial = Done g' ->
     Hier.totalPacketsReceived g' = uint32_t (Z.of_nat (length (nonempty packets)))).
Proof.
  split; [exact Hier_Process_decoded |]. split; [exact Hier_Process_not_decoded |]. split.
  - intros packets g' Hlen Hfin.
    apply (Hier_HandleRead_keeps packets 0 Hier.initial); try lia; try assumption.
    intros sid. cbn. rewrite !lookup_empty. split.
    + split; intros [x Hx]; discriminate.
    + intros n Hn. discriminate.
  - intros packets g' H. rewrite (Hier_HandleRead_received packets Hier.initial g');
      [reflexivity | cbn; lia | exact H].
Qed.

Lemma main_gateway_invariant_witness :
  hier_aggregates_ok 2
    {| Hier.totalCO2BySensor := {[ 2 := double_of_Z 400 ]};
       Hier.packetCountBySensor := {[ 2 := 1 ]};
       Hier.totalPacketsReceived := 2; Hier.totalPacketsSent := 0;
       Hier.ns_log := [Hier.INFO_GatewayReceived 2 1 (double_of_Z 400) 9] |}.
Proof.
  refine (proj1 (proj2 (proj2 main_gateway_invariant))
            [("SENSOR:2,ZONE:1,CO2:400", 9); ("SENSOR:2,ZONE:1", 9)] _ _ _).
  - cbn. lia.
  - vm_compute. reflexivity.
Defined.

(** * The reports and the counters across applications *)

(** X10.  The summary loops never divide by zero and never create an
    entry.  After any run of fewer than 2^32 datagrams from the initial
    state, at every key of [totalCO2BySensor] the count read with
    [packetCountBySensor[sensorId]] is a stored one, lies between 1 and the
    number of datagrams, and converts to a finite positive double; at every
    other key neither map has an entry. *)
Theorem summary_rows_defined (packets : list (string * Z)) (g' : Flat.Globals) :
  Z.of_nat (length packets) < 2 ^ 32 ->
  final (Flat.HandleRead packets Flat.initial) = Some g' ->
  forall sensorId,
    match Flat.summary_row g' sensorId with
    | Some (packetCount, avgCO2) =>
        Flat.packetCountBySensor g' !! sensorId = Some packetCount /\
        1 <= packetCount <= Z.of_nat (length packets) /\
        exists m e, double_of_Z packetCount = S754_finite false m e
    | None =>
        Flat.totalCO2BySensor g' !! sensorId = None /\
        Flat.packetCountBySensor g' !! sensorId = None
    end.
Proof.
  intros Hlen Hfin sid.
  assert (Hinv : aggregates_ok (0 + Z.of_nat (length packets)) g').
  { apply (HandleRead_keeps_aggregates packets 0 Flat.initial); try lia; try assumption.
    intros s. cbn. rewrite !lookup_empty. split.
    - split; intros [x Hx]; discriminate.
    - intros n Hn. discriminate. }
  rewrite Z.add_0_l in Hinv. destruct (Hinv sid) as [Hkeys Hcnt].
  unfold Flat.summary_row.
  destruct (Flat.totalCO2BySensor g' !! sid) as [total |] eqn:Ht.
  - destruct (proj1 Hkeys (ex_intro _ total eq_refl)) as [n Hn].
    rewrite Hn. cbv [default from_option id]. specialize (Hcnt n Hn).
    split; [reflexivity |]. split; [exact Hcnt |].
    apply double_of_Z_finite. split; [lia |].
    apply Z.lt_trans with (2 ^ 32); [lia | reflexivity].
  - split; [reflexivity |].
    destruct (Flat.packetCountBySensor g' !! sid) as [n |] eqn:Hn; [| reflexivity].
    destruct (proj2 Hkeys (ex_intro _ n eq_refl)) as [x Hx]. discriminate.
Qed.

Lemma summary_rows_defined_witness :
  Flat.packetCountBySensor
    {| Flat.totalCO2BySensor := {[ 4 := double_of_Z 1200 ]};
       Flat.packetCountBySensor := {[ 4 := 2 ]};
       Flat.totalPacketsReceived := 2; Flat.totalPacketsSent := 0;
       Flat.ns_log :=
         [Flat.INFO_GatewayReceived 4 2 (double_of_Z 500) 7 1;
          Flat.INFO_GatewayReceived 4 2 (double_of_Z 700) 7 2] |} !! 4 = Some 2 /\
  1 <= 2 <= 2 /\
  exists m e, double_of_Z 2 = S754_finite false m e.
Proof.
  exact (summary_rows_defined
           [("SENSOR:4,COMPANY:2,CO2:500,TIME:5", 7); ("SENSOR:4,COMPANY:2,CO2:700,TIME:9", 7)]
           {| Flat.totalCO2BySensor := {[ 4 := double_of_Z 1200 ]};
              Flat.packetCountBySensor := {[ 4 := 2 ]};
              Flat.totalPacketsReceived := 2; Flat.totalPacketsSent := 0;
              Flat.ns_log :=
                [Flat.INFO_GatewayReceived 4 2 (double_of_Z 500) 7 1;
                 Flat.INFO_GatewayReceived 4 2 (double_of_Z 700) 7 2] |}
           ltac:(cbn; lia) ltac:(vm_compute; reflexivity) 4).
Defined.

(** ** From the relays to the main gateway *)

Lemma nonempty_all packets :
  Forall (fun s => (0 <? Z.of_nat (String.length s)) = true) (List.map fst packets) ->
  nonempty packets = packets.
Proof.
  induction packets as [| [packet x] rest IH]; intros H; [reflexivity |].
  cbn [List.map fst] in H. inversion H as [| ? ? H1 H2]. subst.
  rewrite nonempty_keep by assumption. now rewrite IH.
Qed.

Lemma forwarded_ok_nonempty packets :
  Forall (fun s => (0 <? Z.of_nat (String.length s)) = true)
         (List.map fst (forwarded_ok packets)).
Proof.
  apply List.Forall_forall. intros s Hs. apply in_map_iff in Hs.
  destruct Hs as ([packet x] & <- & Hin).
  unfold forwarded_ok, nonempty in Hin.
  apply List.filter_In in Hin. destruct Hin as [Hin _].
  apply List.filter_In in Hin. now destruct Hin as [_ Hin].
Qed.

Lemma uint32_t_sum {A : Type} (f : A -> Z) (l : list A) :
  uint32_t (fold_right Z.add 0 (List.map (fun b => uint32_t (f b)) l))
  = uint32_t (fold_right Z.add 0 (List.map f l)).
Proof.
  induction l as [| b rest IH]; [reflexivity |].
  cbn [List.map fold_right].
  rewrite uint32_t_add.
  rewrite (Z.add_comm (f b)), <- uint32_t_add, IH, uint32_t_add.
  f_equal. lia.
Qed.

Lemma length_concat_map {A B : Type} (h : A -> list B) (l : list A) :
  Z.of_nat (length (concat (List.map h l)))
  = fold_right Z.add 0 (List.map (fun b => Z.of_nat (length (h b))) l).
Proof.
  induction l as [| b rest IH]; [reflexivity |].
  cbn [List.map concat fold_right]. rewrite List.length_app. lia.
Qed.

Lemma relay_forwarded packets zoneId g :
  Hier.m_packetsForwarded (snd (fst (Hier.HandleReadAP packets (Hier.StartAP zoneId) g)))
  = uint32_t (Z.of_nat (length (forwarded_ok packets))).
Proof.
  pose proof (HandleReadAP_counts packets (Hier.StartAP zoneId) g) as H.
  destruct (Hier.HandleReadAP packets (Hier.StartAP zoneId) g) as [[outs this] g'].
  destruct H as (_ & _ & Hf); try (cbn; lia).
  cbn [snd fst]. rewrite Hf. reflexivity.
Qed.

(** X11.  Relays and main gateway count the same datagrams.  Take any
    number of relays, each started and run over its own datagrams, and let
    the backbone deliver to the main gateway, in any order, exactly the
    payloads whose forwarding [Send] succeeded.  If the main gateway's
    callback returns, [totalPacketsReceived] is the sum of the relays'
    [m_packetsForwarded], modulo 2^32: no forwarded payload is skipped as
    empty. *)
Theorem lossless_backbone
    (relays : list (list (string * Z) * Z * Hier.Globals))
    (delivered : list (string * Z)) (g0 g' : Hier.Globals) :
  Hier.totalPacketsReceived g0 = 0 ->
  Permutation (List.map fst delivered)
    (concat (List.map (fun b => List.map fst (forwarded_ok (fst (fst b)))) relays)) ->
  Hier.HandleRead delivered g0 = Done g' ->
  Hier.totalPacketsReceived g'
  = uint32_t (fold_right Z.add 0
      (List.map (fun b => Hier.m_packetsForwarded
                   (snd (fst (Hier.HandleReadAP (fst (fst b))
                                (Hier.StartAP (snd (fst b))) (snd b)))))
                relays)).
Proof.
  intros H0 Hperm Hrun.
  rewrite (Hier_HandleRead_received delivered g0 g') by (try exact Hrun; rewrite H0; lia).
  rewrite H0, Z.add_0_l.
  assert (Hall : Forall (fun s => (0 <? Z.of_nat (String.length s)) = true)
                        (List.map fst delivered)).
  { apply (Permutation_Forall (Permutation_sym Hperm)).
    apply List.Forall_concat. apply List.Forall_forall. intros l Hl.
    apply in_map_iff in Hl. destruct Hl as (b & <- & _).
    apply forwarded_ok_nonempty. }
  rewrite (nonempty_all delivered Hall).
  rewrite <- (List.length_map fst delivered), (Permutation_length Hperm).
  rewrite length_concat_map.
  assert (Hrelays :
    List.map (fun b => Hier.m_packetsForwarded
                (snd (fst (Hier.HandleReadAP (fst (fst b))
                             (Hier.StartAP (snd (fst b))) (snd b))))) relays
    = List.map (fun b => uint32_t (Z.of_nat (length (forwarded_ok (fst (fst b)))))) relays)
    by (apply map_ext; intros [[packets z] g]; apply relay_forwarded).
  rewrite Hrelays, uint32_t_sum. f_equal. f_equal.
  apply map_ext. intros b. now rewrite List.length_map.
Qed.

Lemma lossless_backbone_witness :
  Hier.totalPacketsReceived
    {| Hier.totalCO2BySensor := {[ 1 := double_of_Z 900 ; 3 := double_of_Z 500 ]};
       Hier.packetCountBySensor := {[ 1 := 1 ; 3 := 1 ]};
       Hier.totalPacketsReceived := 2; Hier.totalPacketsSent := 0;
       Hier.ns_log := [Hier.INFO_GatewayReceived 1 1 (double_of_Z 900) 11;
                       Hier.INFO_GatewayReceived 3 2 (double_of_Z 500) 12] |}
  = uint32_t (1 + (1 + 0)).
Proof.
  refine (lossless_backbone
            [([("SENSOR:1,ZONE:1,CO2:900", 23); ("SENSOR:2,ZONE:1,CO2:400", -1)], 1, Hier.initial);
             ([(EmptyString, 5); ("SENSOR:3,ZONE:2,CO2:500", 23)], 2, Hier.initial)]
            [("SENSOR:1,ZONE:1,CO2:900", 11); ("SENSOR:3,ZONE:2,CO2:500", 12)]
            Hier.initial _ eq_refl _ _).
  - cbn. reflexivity.
  - vm_compute. reflexivity.
Defined.

(** ** What each side leaves alone *)

Lemma Flat_HandleRead_sent packets : forall g g',
  final (Flat.HandleRead packets g) = Some g' ->
  Flat.totalPacketsSent g' = Flat.totalPacketsSent g.
Proof.
  induction packets as [| [packet from] rest IH]; intros g g' H.
  - cbn in H. now injection H as <-.
  - cbn [Flat.HandleRead] in H.
    destruct (0 <? Z.of_nat (String.length packet)); [| now apply IH].
    destruct (Flat.ProcessCO2Data packet from _) as [g1 | e g1 |] eqn:HP.
    + rewrite (IH g1 g' H).
      now destruct (Process_received packet from _ g1 ltac:(rewrite HP; reflexivity)).
    + cbn [final] in H. injection H as <-.
      now destruct (Process_received packet from _ g1 ltac:(rewrite HP; reflexivity)).
    + discriminate.
Qed.

Lemma Hier_HandleRead_sent packets : forall g g',
  final (Hier.HandleRead packets g) = Some g' ->
  Hier.totalPacketsSent g' = Hier.totalPacketsSent g.
Proof.
  induction packets as [| [packet from] rest IH]; intros g g' H.
  - cbn in H. now injection H as <-.
  - cbn [Hier.HandleRead] in H.
    destruct (0 <? Z.of_nat (String.length packet)); [| now apply IH].
    destruct (Hier.ProcessData packet from _) as [g1 | e g1 |] eqn:HP.
    + rewrite (IH g1 g' H).
      now destruct (Hier_Process_final packet from _ g1 ltac:(rewrite HP; reflexivity)).
    + cbn [final] in H. injection H as <-.
      now destruct (Hier_Process_final packet from _ g1 ltac:(rewrite HP; reflexivity)).
    + discriminate.
Qed.

Lemma flat_sends_frame calls : forall g,
  Flat.totalCO2BySensor (flat_sends calls g) = Flat.totalCO2BySensor g /\
  Flat.packetCountBySensor (flat_sends calls g) = Flat.packetCountBySensor g /\
  Flat.totalPacketsReceived (flat_sends calls g) = Flat.totalPacketsReceived g.
Proof.
  induction calls as [| c rest IH]; intros g; [repeat split |].
  cbn [flat_sends]. rewrite Flat_Send_globals.
  destruct (0 <? fc_actual c);
    match goal with |- context [flat_sends rest ?g1] => destruct (IH g1) as (-> & -> & ->) end;
    repeat split.
Qed.

Lemma hier_sends_frame calls : forall g,
  Hier.totalCO2BySensor (hier_sends calls g) = Hier.totalCO2BySensor g /\
  Hier.packetCountBySensor (hier_sends calls g) = Hier.packetCountBySensor g /\
  Hier.totalPacketsReceived (hier_sends calls g) = Hier.totalPacketsReceived g.
Proof.
  induction calls as [| c rest IH]; intros g; [repeat split |].
  cbn [hier_sends]. rewrite Hier_Send_globals.
  destruct (0 <? hc_actual c);
    match goal with |- context [hier_sends rest ?g1] => destruct (IH g1) as (-> & -> & ->) end;
    repeat split.
Qed.

Lemma HandleReadAP_frame packets : forall this g,
  let g' := snd (Hier.HandleReadAP packets this g) in
  Hier.totalCO2BySensor g' = Hier.totalCO2BySensor g /\
  Hier.packetCountBySensor g' = Hier.packetCountBySensor g /\
  Hier.totalPacketsReceived g' = Hier.totalPacketsReceived g /\
  Hier.totalPacketsSent g' = Hier.totalPacketsSent g.
Proof.
  induction packets as [| [packet actual] rest IH]; intros this g; [repeat split |].
  cbn [Hier.HandleReadAP].
  destruct (0 <? Z.of_nat (String.length packet)); [| apply IH].
  unfold Hier.ForwardToGateway.
  destruct (0 <? actual);
    match goal with
    | |- context [Hier.HandleReadAP rest ?t ?g1] =>
        specialize (IH t g1); destruct (Hier.HandleReadAP rest t g1) as [[outs t2] g2]
    end; cbn [snd] in *; destruct IH as (-> & -> & -> & ->); repeat split.
Qed.

(** X12.  The sensors, the gateways and the relays share the global
    counters but each writes only its own.  Any sequence of
    [SendCO2Reading] calls leaves both aggregate maps and
    [totalPacketsReceived] as they were; a run of a gateway's receive
    callback, also one an exception ends, leaves [totalPacketsSent] as it
    was; a relay changes none of the four (it only logs).  So the two
    operands of the delivery ratio are written by different parties. *)
Theorem counters_have_one_writer :
  (forall calls g,
     Flat.totalCO2BySensor (flat_sends calls g) = Flat.totalCO2BySensor g /\
     Flat.packetCountBySensor (flat_sends calls g) = Flat.packetCountBySensor g /\
     Flat.totalPacketsReceived (flat_sends calls g) = Flat.totalPacketsReceived g) /\
  (forall calls g,
     Hier.totalCO2BySensor (hier_sends calls g) = Hier.totalCO2BySensor g /\
     Hier.packetCountBySensor (hier_sends calls g) = Hier.packetCountBySensor g /\
     Hier.totalPacketsReceived (hier_sends calls g) = Hier.totalPacketsReceived g) /\
  (forall packets g g',
     final (Flat.HandleRead packets g) = Some g' ->
     Flat.totalPacketsSent g' = Flat.totalPacketsSent g) /\
  (forall packets g g',
     final (Hier.HandleRead packets g) = Some g' ->
     Hier.totalPacketsSent g' = Hier.totalPacketsSent g) /\
  (forall packets this g,
     let g' := snd (Hier.HandleReadAP packets this g) in
     Hier.totalCO2BySensor g' = Hier.totalCO2BySensor g /\
     Hier.packetCountBySensor g' = Hier.packetCountBySensor g /\
     Hier.totalPacketsReceived g' = Hier.totalPacketsReceived g /\
     Hier.totalPacketsSent g' = Hier.totalPacketsSent g).
Proof.
  split; [exact flat_sends_frame |]. split; [exact hier_sends_frame |].
  split; [exact Flat_HandleRead_sent |]. split; [exact Hier_HandleRead_sent |].
  exact HandleReadAP_frame.
Qed.

Lemma counters_have_one_writer_witness :
  Flat.totalPacketsSent
    {| Flat.totalCO2BySensor := ∅; Flat.packetCountBySensor := ∅;
       Flat.totalPacketsReceived := 1; Flat.totalPacketsSent := 7;
       Flat.ns_log := [Flat.WARN_Malformed 3] |} = 7.
Proof.
  exact (proj1 (proj2 (proj2 counters_have_one_writer))
           [("hello", 3)]
           {| Flat.totalCO2BySensor := ∅; Flat.packetCountBySensor := ∅;
              Flat.totalPacketsReceived := 0; Flat.totalPacketsSent := 7;
              Flat.ns_log := [] |}
           {| Flat.totalCO2BySensor := ∅; Flat.packetCountBySensor := ∅;
              Flat.totalPacketsReceived := 1; Flat.totalPacketsSent := 7;
              Flat.ns_log := [Flat.WARN_Malformed 3] |}
           ltac:(vm_compute; reflexivity)).
Defined.

(** * The sensors under the scheduler: one pending event each *)























(** * The readings of one sensor, in time *)















(** * What is on the wire *)







(** * The sensors [main] deploys *)

Lemma fadd_not_nan_l x y :
  match x with S754_zero _ | S754_finite _ _ _ => True | _ => False end ->
  is_nan y = false ->
  is_nan (fadd x y) = false.
Proof.
  intros Hx Hy. unfold fadd.
  destruct x as [sx | sx | | sx mx ex], y as [sy | sy | | sy my ey];
    try discriminate; try contradiction; cbn [SFadd is_nan]; try reflexivity.
  - now destruct sx, sy.
  - apply binary_normalize_not_nan.
Qed.

Lemma baseline_not_nan i step :
  match step with S754_finite _ _ _ => True | _ => False end ->
  is_nan (fadd lit_400 (fmul (double_of_Z i) step)) = false.
Proof.
  intros Hstep. apply fadd_not_nan_l; [exact I |].
  apply fmul_not_nan; [apply double_of_Z_not_nan | exact Hstep].
Qed.

Lemma lookup_map_seq {A : Type} (f : nat -> A) (n i : nat) :
  (i < n)%nat -> List.map f (seq 0 n) !! i = Some (f i).
Proof.
  intros Hi. rewrite <- (Nat.add_0_l i) at 2. generalize 0%nat as start.
  revert i Hi. induction n as [| n IH]; intros i Hi start; [lia |].
  cbn [seq List.map]. destruct i as [| i]; cbn.
  - now rewrite Nat.add_0_r.
  - rewrite IH by lia. f_equal. f_equal. lia.
Qed.

(** X16.  The sensors of the flat scenario as [main] sets them up, for
    every [nSensors] a [uint32_t] can hold: there are [nSensors] of them;
    the sensor of index [i] gets the identifier [i + 1] (no wrap-around, so
    identifiers are pairwise different), a company among 1, 2, 3, and a
    baseline that is never a NaN; hence with a variation in [-50, 50] every
    value it generates lies in [300, 3000]. *)
Theorem flat_main_sensors (nSensors : Z) (i : nat) (variation : double) :
  0 <= nSensors < 2 ^ 32 -> Z.of_nat i < nSensors ->
  Z.of_nat (length (Flat.main_sensors nSensors)) = nSensors /\
  Flat.main_sensors nSensors !! i = Some (Flat.main_sensor (Z.of_nat i)) /\
  let '(sensorId, companyId, baselineCO2) := Flat.main_sensor (Z.of_nat i) in
  sensorId = Z.of_nat i + 1 /\
  1 <= companyId <= 3 /\
  is_nan baselineCO2 = false /\
  (fle lit_m50 variation = true -> fle variation lit_50 = true ->
   let co2Value :=
     Flat.GenerateCO2Value (Flat.Setup sensorId companyId baselineCO2) variation in
   fle lit_300 co2Value = true /\ fle co2Value lit_3000 = true).
Proof.
  intros Hn Hi. split; [| split].
  - unfold Flat.main_sensors. rewrite List.length_map, List.length_seq. lia.
  - unfold Flat.main_sensors.
    apply (lookup_map_seq (fun i => Flat.main_sensor (Z.of_nat i))). lia.
  - unfold Flat.main_sensor. cbv zeta.
    assert (Hb : is_nan (fadd lit_400 (fmul (double_of_Z (Z.of_nat i)) lit_100)) = false)
      by (apply baseline_not_nan; exact I).
    split; [| split; [| split; [exact Hb |]]].
    + unfold uint32_t. apply Z.mod_small. lia.
    + pose proof (Z.mod_pos_bound (Z.of_nat i) 3 ltac:(lia)).
      unfold uint32_t. rewrite Z.mod_small; [lia |].
      change (2 ^ 32) with 4294967296. lia.
    + intros Hlo Hhi. unfold Flat.GenerateCO2Value. cbn [Flat.Setup Flat.m_baselineCO2].
      apply flat_clamp_bounds.
      apply fadd_not_nan; [exact Hb | now apply variation_finite].
Qed.

Lemma flat_main_sensors_witness :
  Z.of_nat (length (Flat.main_sensors 5)) = 5 /\
  Flat.main_sensors 5 !! 4%nat = Some (Flat.main_sensor 4) /\
  let '(sensorId, companyId, baselineCO2) := Flat.main_sensor 4 in
  sensorId = 4 + 1 /\
  1 <= companyId <= 3 /\
  is_nan baselineCO2 = false /\
  (fle lit_m50 lit_50 = true -> fle lit_50 lit_50 = true ->
   let co2Value :=
     Flat.GenerateCO2Value (Flat.Setup sensorId companyId baselineCO2) lit_50 in
   fle lit_300 co2Value = true /\ fle co2Value lit_3000 = true).
Proof.
  refine (flat_main_sensors 5 4 lit_50 _ _).
  - change (2 ^ 32) with 4294967296. lia.
  - cbn. lia.
Defined.

(** X17.  The zones of the hierarchical scenario as [main] lays them out.
    Every sensor index below [totalSensors] is sent to an access point that
    exists ([i / sensorsPerZone < nZones], also when the product wrapped
    around), with the identifier [i + 1], the zone identifier of that very
    access point, and a baseline that is not a NaN.  When
    [nZones * sensorsPerZone] fits a [uint32_t], the index
    [zone * sensorsPerZone + s] the zone loops use is below [totalSensors]
    and the sensor loop maps it back to [zone]: a sensor joins the WiFi
    network of the access point it sends to. *)
Theorem hier_zone_assignment (nZones : Z) :
  0 <= nZones < 2 ^ 32 ->
  (forall i, 0 <= i < Hier.totalSensors nZones ->
     0 <= Hier.zone_of i < nZones /\
     let '(sensorId, zoneId, baselineCO2) := Hier.main_sensor i in
     sensorId = i + 1 /\
     zoneId = Hier.m_apZoneId (Hier.main_relay (Hier.zone_of i)) /\
     1 <= zoneId <= nZones /\
     is_nan baselineCO2 = false) /\
  (nZones * Hier.sensorsPerZone < 2 ^ 32 ->
   forall zone s, 0 <= zone < nZones -> 0 <= s < Hier.sensorsPerZone ->
     0 <= Hier.zone_sensor zone s < Hier.totalSensors nZones /\
     Hier.zone_of (Hier.zone_sensor zone s) = zone).
Proof.
  intros Hn. unfold Hier.totalSensors, Hier.zone_of, Hier.zone_sensor, Hier.sensorsPerZone.
  change (2 ^ 32) with 4294967296 in *. split.
  - intros i Hi.
    assert (Htot : uint32_t (nZones * 2) <= nZones * 2)
      by (unfold uint32_t; apply Z.mod_le; lia).
    assert (Hup : uint32_t (nZones * 2) < 4294967296)
      by (unfold uint32_t; change (2 ^ 32) with 4294967296;
          apply Z.mod_pos_bound; lia).
    assert (Hz : 0 <= i / 2 < nZones).
    { split; [apply Z.div_pos; lia |]. apply Z.div_lt_upper_bound; lia. }
    split; [exact Hz |].
    unfold Hier.main_sensor, Hier.main_relay, Hier.zone_of, Hier.sensorsPerZone.
    cbv zeta. cbn [Hier.StartAP Hier.m_apZoneId].
    split; [| split; [reflexivity | split]].
    + unfold uint32_t. change (2 ^ 32) with 4294967296. apply Z.mod_small. lia.
    + unfold uint32_t. change (2 ^ 32) with 4294967296. rewrite Z.mod_small; lia.
    + apply baseline_not_nan. exact I.
  - intros Hfit zone s Hzone Hs.
    unfold uint32_t. change (2 ^ 32) with 4294967296.
    rewrite !Z.mod_small by lia. split; [lia |].
    rewrite Z.add_comm, Z.div_add by lia. rewrite Z.div_small by lia. lia.
Qed.

Lemma hier_zone_assignment_witness :
  0 <= Hier.zone_sensor 4 1 < Hier.totalSensors 5 /\
  Hier.zone_of (Hier.zone_sensor 4 1) = 4.
Proof.
  refine (proj2 (hier_zone_assignment 5 _) _ 4 1 _ _).
  - change (2 ^ 32) with 4294967296. lia.
  - unfold Hier.sensorsPerZone. change (2 ^ 32) with 4294967296. lia.
  - lia.
  - unfold Hier.sensorsPerZone. lia.
Defined.

(** * What the gateways have stored after a run *)

Lemma running_sum_cons stored v values :
  running_sum stored (v :: values) = running_sum (fadd stored v) values.
Proof. reflexivity. Qed.

Lemma flat_readings_length packets :
  (length (flat_readings packets) <= length packets)%nat.
Proof.
  induction packets as [| [packet from] rest IH]; [cbn; lia |].
  cbn [flat_readings length].
  destruct (0 <? Z.of_nat (String.length packet)); [| lia].
  destruct (Flat.Decode packet) as [[r |] | e |]; cbn [length]; lia.
Qed.

Lemma flat_run_exact packets : forall g g',
  Flat.HandleRead packets g = Done g' ->
  forall sid,
    let rs := List.filter (fun r => Flat.sensorId r =? sid) (flat_readings packets) in
    Flat.totalCO2BySensor g' !! sid =
      match rs with
      | [] => Flat.totalCO2BySensor g !! sid
      | _ => Some (running_sum (default lit_0 (Flat.totalCO2BySensor g !! sid))
                               (List.map Flat.co2Value rs))
      end /\
    Flat.packetCountBySensor g' !! sid =
      match rs with
      | [] => Flat.packetCountBySensor g !! sid
      | _ => Some (uint32_t (default 0 (Flat.packetCountBySensor g !! sid)
                             + Z.of_nat (length rs)))
      end.
Proof.
  induction packets as [| [packet from] rest IH]; intros g g' Hrun sid.
  - cbn in Hrun. injection Hrun as <-. cbn. auto.
  - cbn [Flat.HandleRead flat_readings] in *.
    destruct (0 <? Z.of_nat (String.length packet)); [| now apply IH].
    fold (counted g) in Hrun.
    destruct (Flat.Decode packet) as [[r |] | e |] eqn:HD.
    + destruct (Process_decoded packet from (counted g) r HD) as (g1 & HP & Hsum & Hcnt).
      rewrite HP in Hrun. specialize (IH g1 g' Hrun sid). cbv zeta in IH.
      cbn [counted Flat.totalCO2BySensor Flat.packetCountBySensor] in Hsum, Hcnt.
      cbn [List.filter]. destruct (Flat.sensorId r =? sid) eqn:E.
      * apply Z.eqb_eq in E. subst sid.
        rewrite Hsum, Hcnt, !lookup_insert_eq in IH. cbv [default from_option id] in IH.
        destruct IH as [IH1 IH2]. cbv zeta. cbn [List.map length].
        rewrite running_sum_cons.
        destruct (List.filter _ (flat_readings rest)) as [| r' rs'].
        -- rewrite IH1, IH2. cbn [List.map length running_sum fold_left].
           split; reflexivity.
        -- rewrite IH1, IH2. split; [reflexivity |].
           rewrite uint32_t_add. cbv [default from_option id].
           apply f_equal, f_equal. lia.
      * apply Z.eqb_neq in E.
        rewrite Hsum, Hcnt, !lookup_insert_ne in IH by assumption. exact IH.
    + unfold Flat.ProcessCO2Data in Hrun. rewrite HD in Hrun.
      exact (IH _ g' Hrun sid).
    + unfold Flat.ProcessCO2Data in Hrun. rewrite HD in Hrun. discriminate.
    + unfold Flat.ProcessCO2Data in Hrun. rewrite HD in Hrun. discriminate.
Qed.

Lemma hier_run_exact packets : forall g g',
  Hier.HandleRead packets g = Done g' ->
  forall sid,
    let rs := List.filter (fun r => Hier.sensorId r =? sid) (hier_readings packets) in
    Hier.totalCO2BySensor g' !! sid =
      match rs with
      | [] => Hier.totalCO2BySensor g !! sid
      | _ => Some (running_sum (default lit_0 (Hier.totalCO2BySensor g !! sid))
                               (List.map Hier.co2Value rs))
      end /\
    Hier.packetCountBySensor g' !! sid =
      match rs with
      | [] => Hier.packetCountBySensor g !! sid
      | _ => Some (uint32_t (default 0 (Hier.packetCountBySensor g !! sid)
                             + Z.of_nat (length rs)))
      end.
Proof.
  induction packets as [| [packet from] rest IH]; intros g g' Hrun sid.
  - cbn in Hrun. injection Hrun as <-. cbn. auto.
  - cbn [Hier.HandleRead hier_readings] in *.
    destruct (0 <? Z.of_nat (String.length packet)); [| now apply IH].
    fold (hier_counted g) in Hrun.
    destruct (Hier.Decode packet) as [[r |] | e |] eqn:HD.
    + destruct (Hier_Process_decoded packet from (hier_counted g) r HD)
        as (g1 & HP & Hsum & Hcnt).
      rewrite HP in Hrun. specialize (IH g1 g' Hrun sid). cbv zeta in IH.
      cbn [hier_counted Hier.totalCO2BySensor Hier.packetCountBySensor] in Hsum, Hcnt.
      cbn [List.filter]. destruct (Hier.sensorId r =? sid) eqn:E.
      * apply Z.eqb_eq in E. subst sid.
        rewrite Hsum, Hcnt, !lookup_insert_eq in IH. cbv [default from_option id] in IH.
        destruct IH as [IH1 IH2]. cbv zeta. cbn [List.map length].
        rewrite running_sum_cons.
        destruct (List.filter _ (hier_readings rest)) as [| r' rs'].
        -- rewrite IH1, IH2. cbn [List.map length running_sum fold_left].
           split; reflexivity.
        -- rewrite IH1, IH2. split; [reflexivity |].
           rewrite uint32_t_add. cbv [default from_option id].
           apply f_equal, f_equal. lia.
      * apply Z.eqb_neq in E.
        rewrite Hsum, Hcnt, !lookup_insert_ne in IH by assumption. exact IH.
    + unfold Hier.ProcessData in Hrun. rewrite HD in Hrun.
      exact (IH _ g' Hrun sid).
    + unfold Hier.ProcessData in Hrun. rewrite HD in Hrun. discriminate.
    + unfold Hier.ProcessData in Hrun. rewrite HD in Hrun. discriminate.
Qed.

(** X18.  What the aggregates are.  After a run of a gateway's callback
    that returns, started from the initial state: a sensor none of whose
    readings was decoded has no entry in either map; any other sensor has
    as its total the values of its decoded readings added one by one, in
    order of arrival, to 0.0 in double arithmetic, and as its count their
    number modulo 2^32.  In the flat scenario the report row of the sensor
    is then that number and the quotient of the two, as long as fewer than
    2^32 datagrams arrived. *)
Theorem aggregates_exact (packets : list (string * Z)) (sid : Z) :
  (forall g',
     Flat.HandleRead packets Flat.initial = Done g' ->
     match List.filter (fun r => Flat.sensorId r =? sid) (flat_readings packets) with
     | [] =>
         Flat.totalCO2BySensor g' !! sid = None /\
         Flat.packetCountBySensor g' !! sid = None /\
         Flat.summary_row g' sid = None
     | rs =>
         Flat.totalCO2BySensor g' !! sid
         = Some (running_sum lit_0 (List.map Flat.co2Value rs)) /\
         Flat.packetCountBySensor g' !! sid = Some (uint32_t (Z.of_nat (length rs))) /\
         (Z.of_nat (length packets) < 2 ^ 32 ->
          Flat.summary_row g' sid
          = Some (Z.of_nat (length rs),
                  fdiv (running_sum lit_0 (List.map Flat.co2Value rs))
                       (double_of_Z (Z.of_nat (length rs)))))
     end) /\
  (forall g',
     Hier.HandleRead packets Hier.initial = Done g' ->
     match List.filter (fun r => Hier.sensorId r =? sid) (hier_readings packets) with
     | [] =>
         Hier.totalCO2BySensor g' !! sid = None /\
         Hier.packetCountBySensor g' !! sid = None
     | rs =>
         Hier.totalCO2BySensor g' !! sid
         = Some (running_sum lit_0 (List.map Hier.co2Value rs)) /\
         Hier.packetCountBySensor g' !! sid = Some (uint32_t (Z.of_nat (length rs)))
     end).
Proof.
  split.
  - intros g' Hrun.
    destruct (flat_run_exact packets Flat.initial g' Hrun sid) as [H1 H2].
    cbv zeta in H1, H2.
    pose proof (List.filter_length_le (fun r => Flat.sensorId r =? sid)
                  (flat_readings packets)) as Hle.
    pose proof (flat_readings_length packets) as Hle'.
    destruct (List.filter _ (flat_readings packets)) as [| r rs].
    + cbn in H1, H2. unfold Flat.summary_row. rewrite H1. auto.
    + cbn [Flat.initial Flat.totalCO2BySensor Flat.packetCountBySensor] in H1, H2.
      rewrite lookup_empty in H1. rewrite lookup_empty in H2.
      cbv [default from_option id] in H1, H2. cbv zeta.
      rewrite Z.add_0_l in H2. split; [exact H1 |]. split; [exact H2 |].
      intros Hlt. unfold Flat.summary_row. rewrite H1, H2.
      cbv [default from_option id]. rewrite uint32_t_id by lia. reflexivity.
  - intros g' Hrun.
    destruct (hier_run_exact packets Hier.initial g' Hrun sid) as [H1 H2].
    cbv zeta in H1, H2.
    destruct (List.filter _ (hier_readings packets)) as [| r rs].
    + cbn in H1, H2. auto.
    + cbn [Hier.initial Hier.totalCO2BySensor Hier.packetCountBySensor] in H1, H2.
      rewrite lookup_empty in H1. rewrite lookup_empty in H2.
      cbv [default from_option id] in H1, H2. cbv zeta.
      rewrite Z.add_0_l in H2. auto.
Qed.

Lemma aggregates_exact_witness :
  Flat.summary_row
    {| Flat.totalCO2BySensor := {[ 4 := double_of_Z 1200 ; 9 := double_of_Z 300 ]};
       Flat.packetCountBySensor := {[ 4 := 2 ; 9 := 1 ]};
       Flat.totalPacketsReceived := 4; Flat.totalPacketsSent := 0;
       Flat.ns_log :=
         [Flat.INFO_GatewayReceived 4 2 (double_of_Z 500) 7 1;
          Flat.WARN_Malformed 8;
          Flat.INFO_GatewayReceived 9 1 (double_of_Z 300) 6 3;
          Flat.INFO_GatewayReceived 4 2 (double_of_Z 700) 7 4] |} 4
  = Some (2, double_of_Z 600).
Proof.
  refine (proj2 (proj2 (proj1 (aggregates_exact
            [("SENSOR:4,COMPANY:2,CO2:500,TIME:5", 7); ("SENSOR:4,COMPANY:2", 8);
             ("SENSOR:9,COMPANY:1,CO2:300,TIME:6", 6);
             ("SENSOR:4,COMPANY:2,CO2:700,TIME:9", 7)] 4) _ _)) _).
  - vm_compute. reflexivity.
  - cbn. lia.
Defined.

(** * The sensor of the hierarchical scenario schedules like the flat one *)

(** X19.  The two [CO2SensorApplication] classes differ in the payload and
    in what they log, not in how they schedule or count.  From states that
    agree on [m_running], [m_interval] and [m_sendEvent], under the same
    simulator and with equal [totalPacketsSent], each of
    [SendCO2Reading], [StartApplication] and [StopApplication] leaves the
    same simulator (same clock, same pending events, same next identifier)
    and states that agree again, and the two send operations leave equal
    [totalPacketsSent]. *)
Theorem sensors_schedule_alike
    (self : nat) (variation : double) (actual : Z)
    (f : Flat.CO2SensorApplication) (h : Hier.CO2SensorApplication)
    (sim : Simulator) (gf : Flat.Globals) (gh : Hier.Globals) :
  Flat.m_running f = Hier.m_running h ->
  Flat.m_interval f = Hier.m_interval h ->
  Flat.m_sendEvent f = Hier.m_sendEvent h ->
  Flat.totalPacketsSent gf = Hier.totalPacketsSent gh ->
  (let '(_, f', simf, gf') := Flat.SendCO2Reading self variation actual f sim gf in
   let '(_, h', simh, gh') := Hier.SendCO2Reading self variation actual h sim gh in
   simf = simh /\
   Flat.m_running f' = Hier.m_running h' /\ Flat.m_interval f' = Hier.m_interval h' /\
   Flat.m_sendEvent f' = Hier.m_sendEvent h' /\
   Flat.totalPacketsSent gf' = Hier.totalPacketsSent gh') /\
  (let '(_, f', simf, gf') := Flat.StartApplication self variation actual f sim gf in
   let '(_, h', simh, gh') := Hier.StartApplication self variation actual h sim gh in
   simf = simh /\
   Flat.m_running f' = true /\ Hier.m_running h' = true /\
   Flat.m_interval f' = Hier.m_interval h' /\
   Flat.m_sendEvent f' = Hier.m_sendEvent h' /\
   Flat.totalPacketsSent gf' = Hier.totalPacketsSent gh') /\
  (let '(f', simf, gf') := Flat.StopApplication f sim gf in
   let '(h', simh) := Hier.StopApplication h sim in
   simf = simh /\
   Flat.m_running f' = false /\ Hier.m_running h' = false /\
   Flat.m_interval f' = Hier.m_interval h' /\
   Flat.m_sendEvent f' = Hier.m_sendEvent h' /\
   IsPending simf (Flat.m_sendEvent f') = false /\
   Flat.totalPacketsSent gf' = Flat.totalPacketsSent gf).
Proof.
  intros Hrun Hint Hev Hsent. split; [| split].
  - unfold Flat.SendCO2Reading, Hier.SendCO2Reading. rewrite <- Hrun.
    destruct (Flat.m_running f) eqn:E; cbn [Schedule];
      cbn [Flat.m_running Flat.m_interval Flat.m_sendEvent
           Hier.m_running Hier.m_interval Hier.m_sendEvent];
      rewrite <- ?Hint;
      (split; [reflexivity |]); (split; [congruence |]); (split; [congruence |]);
      (split; [congruence |]);
      destruct (0 <? actual); cbn; congruence.
  - unfold Flat.StartApplication, Hier.StartApplication,
      Flat.SendCO2Reading, Hier.SendCO2Reading.
    cbn [Flat.m_running Hier.m_running Flat.m_interval Hier.m_interval Schedule].
    rewrite <- Hint. split; [reflexivity |].
    cbn [Flat.m_running Flat.m_interval Flat.m_sendEvent
         Hier.m_running Hier.m_interval Hier.m_sendEvent].
    split; [reflexivity |]. split; [reflexivity |]. split; [reflexivity |].
    split; [reflexivity |].
    destruct (0 <? actual); cbn; congruence.
  - unfold Flat.StopApplication, Hier.StopApplication. rewrite <- Hev.
    split; [reflexivity |].
    cbn [Flat.m_running Flat.m_interval Flat.m_sendEvent
         Hier.m_running Hier.m_interval Hier.m_sendEvent].
    split; [reflexivity |]. split; [reflexivity |]. split; [exact Hint |].
    split; [reflexivity |]. split; [apply IsPending_after_Cancel | reflexivity].
Qed.

Lemma sensors_schedule_alike_witness :
  let '(_, f', simf, gf') :=
    Flat.StartApplication 2 lit_50 31 (Flat.Setup 3 1 lit_400)
      {| Now := 7; next_uid := 4; events := [] |} Flat.initial in
  let '(_, h', simh, gh') :=
    Hier.StartApplication 2 lit_50 31
      {| Hier.m_socket := SocketCreated; Hier.m_sensorId := 3; Hier.m_zoneId := 2;
         Hier.m_baselineCO2 := lit_400; Hier.m_sendEvent := None;
         Hier.m_interval := Seconds 5; Hier.m_running := false |}
      {| Now := 7; next_uid := 4; events := [] |} Hier.initial in
  simf = simh /\
  Flat.m_running f' = true /\ Hier.m_running h' = true /\
  Flat.m_interval f' = Hier.m_interval h' /\
  Flat.m_sendEvent f' = Hier.m_sendEvent h' /\
  Flat.totalPacketsSent gf' = Hier.totalPacketsSent gh'.
Proof.
  exact (proj1 (proj2 (sensors_schedule_alike 2 lit_50 31 (Flat.Setup 3 1 lit_400)
           {| Hier.m_socket := SocketCreated; Hier.m_sensorId := 3; Hier.m_zoneId := 2;
              Hier.m_baselineCO2 := lit_400; Hier.m_sendEvent := None;
              Hier.m_interval := Seconds 5; Hier.m_running := false |}
           {| Now := 7; next_uid := 4; events := [] |} Flat.initial Hier.initial
           eq_refl eq_refl eq_refl eq_refl))).
Defined.
